(** * ffplayer: clocks, packet queues, decoder pump and A/V synchronisation

    A shallow embedding of the data-plane core of the player
    (src/clock.c, src/packet_queue.c, src/decoder.c and the synchroniser
    functions of src/ff_player.c) together with the properties that the
    design document states about them.

    Conventions of the embedding:
    - C [int], [int64_t] and [size_t] are integers of [Z]; arithmetic that
      can leave the range is wrapped explicitly ([wrap_int], [wrap_size_t]).
    - C [double] is IEEE-754 binary64, carried by [spec_float] of the
      standard library with [prec = 53] and [emax = 1024]; every operation
      rounds to nearest even exactly as the hardware does.
    - Reads of the wall clock ([av_gettime_relative]) and answers of the
      codec library are inputs of the functions that perform them. *)

From Stdlib Require Import ZArith List Bool Lia.
From Stdlib Require Import Floats.SpecFloat.
Import ListNotations.
Local Open Scope Z_scope.

(** ** Machine integers *)

Module CInt.

Definition INT_MAX : Z := 2147483647.
Definition INT_MIN : Z := -2147483648.
Definition INT64_MIN : Z := -9223372036854775808.

(** Two's complement wrap-around of a 32-bit [int]. *)
Definition wrap_int (z : Z) : Z := (z + 2 ^ 31) mod 2 ^ 32 - 2 ^ 31.

(** Two's complement wrap-around of an [int64_t]. *)
Definition wrap_int64 (z : Z) : Z := (z + 2 ^ 63) mod 2 ^ 64 - 2 ^ 63.

(** [size_t] arithmetic is modulo 2^64 (LP64). *)
Definition wrap_size_t (z : Z) : Z := z mod 2 ^ 64.

Definition in_int (z : Z) : Prop := INT_MIN <= z <= INT_MAX.

(** A C truth value: any non-zero [int]. *)
Definition truthy (z : Z) : bool := negb (z =? 0).

End CInt.
Import CInt.

(** ** IEEE-754 binary64 *)

Module Double.

Definition double : Type := spec_float.

Definition prec : Z := 53.
Definition emax : Z := 1024.

Definition NAN : double := S754_nan.

Definition add (x y : double) : double := SFadd prec emax x y.
Definition sub (x y : double) : double := SFsub prec emax x y.
Definition mul (x y : double) : double := SFmul prec emax x y.
Definition div (x y : double) : double := SFdiv prec emax x y.
Definition opp (x : double) : double := SFopp x.
Definition fabs (x : double) : double := SFabs x.

(** The C comparison operators on doubles; every one of them is false as
    soon as an operand is NaN, except [!=]. *)
Definition lt (x y : double) : bool := SFltb x y.
Definition le (x y : double) : bool := SFleb x y.
Definition gt (x y : double) : bool := SFltb y x.
Definition ge (x y : double) : bool := SFleb y x.
Definition eq (x y : double) : bool := SFeqb x y.
Definition ne (x y : double) : bool := negb (SFeqb x y).

Definition isnan (x : double) : bool :=
  match x with S754_nan => true | _ => false end.

Definition is_finite (x : double) : bool :=
  match x with S754_nan | S754_infinity _ => false | _ => true end.

(** The least exponent of binary64, [emin = 3 - emax - prec]. *)
Definition emin64 : Z := -1074.

(** The value of a finite double, scaled by [2^1074]. *)
Definition scaled (x : double) : Z :=
  match x with
  | S754_finite s m e => cond_Zopp s (Zpos m * 2 ^ (e + 1074))
  | _ => 0
  end.

(** The exponent of a finite double is at least [emin]. *)
Definition wf (x : double) : Prop :=
  match x with
  | S754_finite _ _ e => emin64 <= e
  | _ => True
  end.

(** [(double)z] for an integer [z]: rounded to nearest even (exact for
    every 32-bit [int]). *)
Definition of_int (z : Z) : double := binary_normalize prec emax z 0 false.

(** A decimal literal [n/d] of the source, rounded once to the nearest
    double as the compiler does: [dec 4 100] is the literal [0.04]. *)
Definition dec (n d : Z) : double := div (of_int n) (of_int d).

(** The integer part of a double, rounding toward zero. *)
Definition trunc (x : double) : option Z :=
  match x with
  | S754_zero _ => Some 0
  | S754_finite s m e =>
      Some (cond_Zopp s
              (match e with
               | Z0 => Zpos m
               | Zpos p => Z.shiftl (Zpos m) (Zpos p)
               | Zneg p => Z.shiftr (Zpos m) (Zpos p)
               end))
  | _ => None
  end.

(** [(int)x]: truncation toward zero. Outside the range of [int] (and for
    NaN and the infinities) the C standard leaves the conversion
    undefined; the model returns what the x86-64 conversion instruction
    [cvttsd2si] produces there, [INT_MIN]. *)
Definition to_int (x : double) : Z :=
  match trunc x with
  | Some z => if (INT_MIN <=? z) && (z <=? INT_MAX) then z else INT_MIN
  | None => INT_MIN
  end.

(** [FFMAX] and [FFMIN] of libavutil/macros.h, at type double:
    [((a) > (b) ? (a) : (b))] and [((a) > (b) ? (b) : (a))]. *)
Definition FFMAX (a b : double) : double := if gt a b then a else b.
Definition FFMIN (a b : double) : double := if gt a b then b else a.

Declare Scope double_scope.
Delimit Scope double_scope with D.
Bind Scope double_scope with double.
Infix "+" := add : double_scope.
Infix "-" := sub : double_scope.
Infix "*" := mul : double_scope.
Infix "/" := div : double_scope.
Notation "- x" := (opp x) : double_scope.
Infix "<?" := lt : double_scope.
Infix "<=?" := le : double_scope.
Infix ">?" := gt : double_scope.
Infix ">=?" := ge : double_scope.

End Double.
Import Double.

(** ** Clock (src/clock.c) *)

Module Clock.

(** The two packet queues of the player; a clock borrows the serial of
    one of them, or (the external clock) points at its own [serial]. *)
Inductive stream_kind := Audio | Video.

Inductive serial_ptr :=
| PtrQueueSerial (k : stream_kind)
| PtrOwnSerial.

Record ff_clock_t := mk_clock {
  pts : double;
  pts_drift : double;
  last_updated : double;
  speed : double;
  serial : Z;
  paused : Z;
  queue_serial : serial_ptr
}.

(** The content of the memory a [queue_serial] pointer can reach: the
    live serial of each packet queue. *)
Definition serials := stream_kind -> Z.

(** [*clock->queue_serial] *)
Definition deref (live : serials) (clock : ff_clock_t) : Z :=
  match queue_serial clock with
  | PtrQueueSerial k => live k
  | PtrOwnSerial => serial clock
  end.

(** [(double)av_gettime_relative() / 1000000.0], for the reading [now] of
    the monotonic clock in microseconds. *)
Definition seconds (now : Z) : double := (of_int now / of_int 1000000)%D.

Definition ff_clock_set_at (clock : ff_clock_t) (pts : double) (serial : Z)
    (time : double) : ff_clock_t :=
  {| pts := pts;
     last_updated := time;
     pts_drift := (pts - time)%D;
     serial := serial;
     speed := Clock.speed clock;
     paused := Clock.paused clock;
     queue_serial := Clock.queue_serial clock |}.

Definition ff_clock_set (clock : ff_clock_t) (pts : double) (serial : Z)
    (now : Z) : ff_clock_t :=
  let time := seconds now in
  ff_clock_set_at clock pts serial time.

(** The storage handed to [ff_clock_init] is uninitialised and every field
    of it is written, so the model builds the clock from nothing. *)
Definition ff_clock_init (queue_serial : serial_ptr) (now : Z) : ff_clock_t :=
  let clock :=
    {| pts := NAN; pts_drift := NAN; last_updated := NAN;
       speed := of_int 1; paused := 0; serial := 0;
       queue_serial := queue_serial |} in
  ff_clock_set clock NAN (-1) now.

Definition ff_clock_get (live : serials) (clock : ff_clock_t) (now : Z) : double :=
  if negb (deref live clock =? serial clock) then NAN
  else if truthy (paused clock) then pts clock
  else
    let time := seconds now in
    (pts_drift clock + time - (time - last_updated clock) * (of_int 1 - speed clock))%D.

(** Two reads of the wall clock: one inside [ff_clock_get], one inside
    [ff_clock_set]. *)
Definition ff_clock_set_speed (live : serials) (clock : ff_clock_t)
    (speed : double) (now_get now_set : Z) : ff_clock_t :=
  let clock := ff_clock_set clock (ff_clock_get live clock now_get) (serial clock) now_set in
  {| pts := pts clock; pts_drift := pts_drift clock;
     last_updated := last_updated clock;
     speed := speed;
     serial := serial clock; paused := paused clock;
     queue_serial := queue_serial clock |}.

Definition ff_clock_sync_to_slave (live : serials) (clock slave : ff_clock_t)
    (no_sync_threshold : double) (now_clock now_slave now_set : Z) : ff_clock_t :=
  let clock_val := ff_clock_get live clock now_clock in
  let slave_clock := ff_clock_get live slave now_slave in
  if negb (isnan slave_clock)
     && (isnan clock_val || (fabs (clock_val - slave_clock) >? no_sync_threshold)%D)
  then ff_clock_set clock slave_clock (serial slave) now_set
  else clock.

(** Direct store to the [paused] field, as the player does when it
    toggles pause. *)
Definition store_paused (clock : ff_clock_t) (v : Z) : ff_clock_t :=
  {| pts := pts clock; pts_drift := pts_drift clock;
     last_updated := last_updated clock; speed := speed clock;
     serial := serial clock; paused := v;
     queue_serial := queue_serial clock |}.

(** The operations a clock undergoes during its life, each with the
    wall-clock readings it takes and the live serials it observes. *)
Inductive clock_call :=
| call_set_at (pts : double) (serial : Z) (time : double)
| call_set (pts : double) (serial : Z) (now : Z)
| call_set_speed (live : serials) (speed : double) (now_get now_set : Z)
| call_sync_to_slave (live : serials) (slave : ff_clock_t) (no_sync_threshold : double)
    (now_clock now_slave now_set : Z)
| call_store_paused (v : Z).

Definition apply_call (clock : ff_clock_t) (k : clock_call) : ff_clock_t :=
  match k with
  | call_set_at pts serial time => ff_clock_set_at clock pts serial time
  | call_set pts serial now => ff_clock_set clock pts serial now
  | call_set_speed live speed now_get now_set =>
      ff_clock_set_speed live clock speed now_get now_set
  | call_sync_to_slave live slave thr now_clock now_slave now_set =>
      ff_clock_sync_to_slave live clock slave thr now_clock now_slave now_set
  | call_store_paused v => store_paused clock v
  end.

Definition run_calls (clock : ff_clock_t) (ks : list clock_call) : ff_clock_t :=
  fold_left apply_call ks clock.

(** The calls by which a caller gives the clock a value. [ff_clock_set_speed]
    is not one of them: it only re-anchors the value the clock already has. *)
Definition sets_value (k : clock_call) : bool :=
  match k with
  | call_set_at _ _ _ | call_set _ _ _ | call_sync_to_slave _ _ _ _ _ _ => true
  | call_set_speed _ _ _ _ | call_store_paused _ => false
  end.

(** The clock was never set since [ff_clock_init]. *)
Definition never_set (ks : list clock_call) : bool :=
  forallb (fun k => negb (sets_value k)) ks.

End Clock.

(** ** Packet queue (src/packet_queue.c) *)

Module PacketQueue.

(** The fields of libavcodec's [AVPacket] that the player reads. A packet
    without payload ([has_buf = false], [size = 0]) is the null packet that
    signals end of stream. *)
Record AVPacket := mk_avpacket {
  stream_index : Z;
  size : Z;
  duration : Z;
  pos : Z;
  has_buf : bool;
  opaque_ref : option Z
}.

(** The packet [av_packet_unref] and [av_packet_move_ref] leave behind. *)
Definition blank_packet : AVPacket :=
  {| stream_index := 0; size := 0; duration := 0; pos := -1;
     has_buf := false; opaque_ref := None |}.

(** [packet_t]: an owned packet and the serial of the queue when it was
    enqueued. *)
Record packet_t := mk_packet {
  base : AVPacket;
  serial : Z
}.

(** [sizeof(packet_t)] on LP64: a pointer, an [int] and padding. *)
Definition sizeof_packet_t : Z := 16.

(** [struct ff_packet_queue]; [packets] is the content of the AVFifo, oldest
    entry first. The mutex and the condition variable carry no data. *)
Record ff_packet_queue_t := mk_queue {
  packets : list packet_t;
  packet_count : Z;
  q_size : Z;
  q_duration : Z;
  aborted : bool;
  q_serial : Z
}.

Definition AVERROR_ENOMEM : Z := -12.

(** [av_fifo_read(queue->packets, &pkt, 1)]: the oldest entry and the rest,
    or a negative code on an empty fifo. *)
Definition av_fifo_read (fifo : list packet_t) : Z * option packet_t * list packet_t :=
  match fifo with
  | [] => (-1, None, [])
  | p :: rest => (0, Some p, rest)
  end.

(** [fifo_ret] is what [av_fifo_write] answers: negative when the fifo
    could not grow, in which case nothing was written. *)
Definition packet_queue_put_private (queue : ff_packet_queue_t)
    (av_packet : AVPacket) (fifo_ret : Z) : Z * ff_packet_queue_t :=
  if aborted queue then (-1, queue)
  else
    let packet := {| base := av_packet; serial := q_serial queue |} in
    let ret := fifo_ret in
    if ret <? 0 then (ret, queue)
    else
      (0,
       {| packets := packets queue ++ [packet];
          packet_count := wrap_int (packet_count queue + 1);
          q_size := wrap_size_t (q_size queue
                                 + wrap_size_t (wrap_size_t (size (base packet)) + sizeof_packet_t));
          q_duration := wrap_int64 (q_duration queue + duration (base packet));
          aborted := aborted queue;
          q_serial := q_serial queue |}).

(** [calloc], [av_fifo_alloc2], [mtx_init] and [cnd_init] may each fail. *)
Definition ff_packet_queue_create (calloc_ok fifo_ok mtx_ok cnd_ok : bool)
    : option ff_packet_queue_t :=
  if calloc_ok then
    if fifo_ok then
      if mtx_ok then
        if cnd_ok then
          Some {| packets := []; packet_count := 0; q_size := 0; q_duration := 0;
                  aborted := true; q_serial := 0 |}
        else None
      else None
    else None
  else None.

Definition ff_packet_queue_get_serial (queue : ff_packet_queue_t) : Z := q_serial queue.
Definition ff_packet_queue_get_size (queue : ff_packet_queue_t) : Z := q_size queue.
Definition ff_packet_queue_get_packet_count (queue : ff_packet_queue_t) : Z :=
  packet_count queue.
Definition ff_packet_queue_get_aborted (queue : ff_packet_queue_t) : bool := aborted queue.
Definition ff_packet_queue_get_duration (queue : ff_packet_queue_t) : Z := q_duration queue.

(** The draining loop of [ff_packet_queue_flush]:
    [while (av_fifo_read(...) >= 0) av_packet_free(&pkt1.base);]
    It returns what is left in the fifo and the packets it freed. *)
Fixpoint flush_loop (fifo : list packet_t) (freed : list AVPacket)
    : list packet_t * list AVPacket :=
  match fifo with
  | [] => ([], freed)
  | pkt1 :: rest => flush_loop rest (freed ++ [base pkt1])
  end.

Definition ff_packet_queue_flush (queue : ff_packet_queue_t)
    : ff_packet_queue_t * list AVPacket :=
  let '(fifo, freed) := flush_loop (packets queue) [] in
  ({| packets := fifo;
      packet_count := 0;
      q_size := 0;
      q_duration := 0;
      aborted := aborted queue;
      q_serial := wrap_int (q_serial queue + 1) |}, freed).

Definition ff_packet_queue_start (queue : ff_packet_queue_t) : ff_packet_queue_t :=
  {| packets := packets queue; packet_count := packet_count queue;
     q_size := q_size queue; q_duration := q_duration queue;
     aborted := false;
     q_serial := wrap_int (q_serial queue + 1) |}.

Definition ff_packet_queue_abort (queue : ff_packet_queue_t) : ff_packet_queue_t :=
  {| packets := packets queue; packet_count := packet_count queue;
     q_size := q_size queue; q_duration := q_duration queue;
     aborted := true;
     q_serial := q_serial queue |}.

(** [alloc_ok]: whether [av_packet_alloc] succeeded. *)
Definition ff_packet_queue_put (queue : ff_packet_queue_t) (src : AVPacket)
    (alloc_ok : bool) (fifo_ret : Z) : Z * ff_packet_queue_t :=
  if negb alloc_ok then (AVERROR_ENOMEM, queue)
  else packet_queue_put_private queue src fifo_ret.

Definition ff_packet_queue_put_nullpacket (q : ff_packet_queue_t) (pkt : AVPacket)
    (stream_index : Z) (alloc_ok : bool) (fifo_ret : Z) : Z * ff_packet_queue_t :=
  let pkt := {| stream_index := stream_index; size := size pkt;
                duration := duration pkt; pos := pos pkt; has_buf := has_buf pkt;
                opaque_ref := opaque_ref pkt |} in
  ff_packet_queue_put q pkt alloc_ok fifo_ret.

(** What a call of [ff_packet_queue_get] produced: the return value
    ([None] while the caller is still suspended in [cnd_wait]), the entry
    handed out, the queue, and how many times the caller waited. *)
Record get_outcome := mk_get {
  get_ret : option Z;
  get_packet : option packet_t;
  get_queue : ff_packet_queue_t;
  get_waits : nat
}.

(** The loop of [ff_packet_queue_get]. While the caller sleeps in
    [cnd_wait] the mutex is released and the other threads act on the
    queue: [wakeups] lists, for each wake-up, what they did to it. *)
Fixpoint get_loop (queue : ff_packet_queue_t) (block : Z)
    (wakeups : list (ff_packet_queue_t -> ff_packet_queue_t)) (waits : nat)
    : get_outcome :=
  if aborted queue then mk_get (Some (-1)) None queue waits
  else
    match av_fifo_read (packets queue) with
    | (_, Some packet, rest) =>
        mk_get (Some 1) (Some packet)
          {| packets := rest;
             packet_count := wrap_int (packet_count queue - 1);
             q_size := wrap_size_t (q_size queue
                                    - wrap_size_t (wrap_size_t (size (base packet))
                                                   + sizeof_packet_t));
             q_duration := wrap_int64 (q_duration queue - duration (base packet));
             aborted := aborted queue;
             q_serial := q_serial queue |}
          waits
    | (_, None, _) =>
        if block =? 0 then mk_get (Some 0) None queue waits
        else
          match wakeups with
          | [] => mk_get None None queue (S waits)
          | others :: wakeups' => get_loop (others queue) block wakeups' (S waits)
          end
    end.

Definition ff_packet_queue_get (queue : ff_packet_queue_t) (block : Z)
    (wakeups : list (ff_packet_queue_t -> ff_packet_queue_t)) : get_outcome :=
  get_loop queue block wakeups 0.

(** The operations the threads of the player perform on a queue. Each runs
    under the queue's mutex, so a history of the queue is a sequence of them.
    A [get] that finds the queue empty and would sleep leaves it untouched;
    what it does after it wakes up is a later entry of the history. *)
Inductive queue_op :=
| op_start
| op_abort
| op_flush
| op_put (src : AVPacket) (alloc_ok : bool) (fifo_ret : Z)
| op_put_nullpacket (pkt : AVPacket) (stream_index : Z) (alloc_ok : bool) (fifo_ret : Z)
| op_get (block : Z).

Definition apply_op (queue : ff_packet_queue_t) (o : queue_op) : ff_packet_queue_t :=
  match o with
  | op_start => ff_packet_queue_start queue
  | op_abort => ff_packet_queue_abort queue
  | op_flush => fst (ff_packet_queue_flush queue)
  | op_put src alloc_ok fifo_ret => snd (ff_packet_queue_put queue src alloc_ok fifo_ret)
  | op_put_nullpacket pkt stream_index alloc_ok fifo_ret =>
      snd (ff_packet_queue_put_nullpacket queue pkt stream_index alloc_ok fifo_ret)
  | op_get block => get_queue (ff_packet_queue_get queue block [])
  end.

Definition run_ops (queue : ff_packet_queue_t) (ops : list queue_op) : ff_packet_queue_t :=
  fold_left apply_op ops queue.

(** How many times a history increments the serial. *)
Definition bumps_serial (o : queue_op) : bool :=
  match o with
  | op_start | op_flush => true
  | _ => false
  end.

Definition serial_bumps (ops : list queue_op) : Z :=
  Z.of_nat (length (filter bumps_serial ops)).

Definition is_start (o : queue_op) : bool :=
  match o with
  | op_start => true
  | _ => false
  end.

(** No call of [ff_packet_queue_start] in the history. *)
Definition never_started (ops : list queue_op) : bool :=
  forallb (fun o => negb (is_start o)) ops.

(** Every stored packet is stamped with a serial that the queue has reached. *)
Definition stamps_bounded (queue : ff_packet_queue_t) : Prop :=
  Forall (fun p => serial p <= q_serial queue) (packets queue).

End PacketQueue.

(** ** Decoder pump (src/decoder.c) *)

Module Decoder.
Import PacketQueue.

(** [AVERROR(EAGAIN)] (Linux), [AVERROR_EOF = -MKTAG('E','O','F',' ')] and
    [AV_NOPTS_VALUE] of libavutil. *)
Definition AVERROR_EAGAIN : Z := -11.
Definition AVERROR_EOF : Z := -541478725.
Definition AV_NOPTS_VALUE : Z := INT64_MIN.

Inductive AVMediaType :=
| AVMEDIA_TYPE_VIDEO
| AVMEDIA_TYPE_AUDIO
| AVMEDIA_TYPE_OTHER.

Record AVRational := mk_rational { num : Z; den : Z }.

Record AVFrame := mk_frame {
  frame_pts : Z;
  best_effort_timestamp : Z;
  pkt_dts : Z;
  sample_rate : Z;
  nb_samples : Z
}.

Record AVCodecContext := mk_codec_context {
  codec_type : AVMediaType;
  pkt_timebase : AVRational
}.

Record ff_decoder_t := mk_decoder {
  packet : AVPacket;
  codec_context : AVCodecContext;
  packet_serial : Z;
  finished : Z;
  packet_pending : bool;
  start_pts : Z;
  start_pts_time_base : AVRational;
  next_pts : Z;
  next_pts_tb : AVRational;
  reorder_pts : bool
}.

Definition with_packet (d : ff_decoder_t) (p : AVPacket) : ff_decoder_t :=
  mk_decoder p (codec_context d) (packet_serial d) (finished d) (packet_pending d)
    (start_pts d) (start_pts_time_base d) (next_pts d) (next_pts_tb d) (reorder_pts d).

Definition with_packet_serial (d : ff_decoder_t) (s : Z) : ff_decoder_t :=
  mk_decoder (packet d) (codec_context d) s (finished d) (packet_pending d)
    (start_pts d) (start_pts_time_base d) (next_pts d) (next_pts_tb d) (reorder_pts d).

Definition with_finished (d : ff_decoder_t) (v : Z) : ff_decoder_t :=
  mk_decoder (packet d) (codec_context d) (packet_serial d) v (packet_pending d)
    (start_pts d) (start_pts_time_base d) (next_pts d) (next_pts_tb d) (reorder_pts d).

Definition with_packet_pending (d : ff_decoder_t) (b : bool) : ff_decoder_t :=
  mk_decoder (packet d) (codec_context d) (packet_serial d) (finished d) b
    (start_pts d) (start_pts_time_base d) (next_pts d) (next_pts_tb d) (reorder_pts d).

Definition with_next_pts (d : ff_decoder_t) (v : Z) (tb : AVRational) : ff_decoder_t :=
  mk_decoder (packet d) (codec_context d) (packet_serial d) (finished d) (packet_pending d)
    (start_pts d) (start_pts_time_base d) v tb (reorder_pts d).

Definition with_frame_pts (f : AVFrame) (v : Z) : AVFrame :=
  mk_frame v (best_effort_timestamp f) (pkt_dts f) (sample_rate f) (nb_samples f).

(** [calloc] and [av_packet_alloc] may fail. *)
Definition ff_decoder_create (decoder_context : AVCodecContext) (reorder_pts : bool)
    (calloc_ok packet_ok : bool) : option ff_decoder_t :=
  if calloc_ok then
    if packet_ok then
      Some {| packet := blank_packet;
              codec_context := decoder_context;
              packet_serial := -1;
              finished := 0;
              packet_pending := false;
              start_pts := AV_NOPTS_VALUE;
              start_pts_time_base := mk_rational 0 0;
              next_pts := 0;
              next_pts_tb := mk_rational 0 0;
              reorder_pts := reorder_pts |}
    else None
  else None.

Definition ff_decoder_get_packet_serial (decoder : ff_decoder_t) : Z := packet_serial decoder.
Definition ff_decoder_get_finished (decoder : ff_decoder_t) : Z := finished decoder.
Definition ff_decoder_set_finished (decoder : ff_decoder_t) : ff_decoder_t :=
  with_finished decoder (packet_serial decoder).

(** What [ff_decoder_decode] asks of its collaborators, in order. *)
Inductive call :=
| avcodec_receive_frame (ret : Z)
| avcodec_send_packet (pkt : AVPacket) (ret : Z)
| avcodec_flush_buffers
| cnd_signal_empty_queue
| av_log_api_violation.

(** Everything outside the decoder that the pump touches: the packet
    queue it shares with the reader thread, what the other threads do to
    that queue each time the decoder looks at it or sleeps on it, and the
    answers of libavcodec and of the allocator, in the order asked. *)
Record world := mk_world {
  queue : ff_packet_queue_t;
  others : list (ff_packet_queue_t -> ff_packet_queue_t);
  receive_answers : list (Z * AVFrame);
  send_answers : list Z;
  alloc_answers : list bool;
  calls : list call
}.

Definition with_queue (w : world) (q : ff_packet_queue_t)
    (o : list (ff_packet_queue_t -> ff_packet_queue_t)) : world :=
  mk_world q o (receive_answers w) (send_answers w) (alloc_answers w) (calls w).

Definition record_call (w : world) (c : call) : world :=
  mk_world (queue w) (others w) (receive_answers w) (send_answers w) (alloc_answers w)
    (calls w ++ [c]).

(** The other threads run before the decoder takes the queue's mutex or
    reads one of its fields. *)
Definition interleave (w : world) : world :=
  match others w with
  | [] => w
  | f :: rest => with_queue w (f (queue w)) rest
  end.

Section Decode.

(** [av_rescale_q] of libavutil/mathematics.h. *)
Variable av_rescale_q : Z -> AVRational -> AVRational -> Z.

(** Control points of [ff_decoder_decode]: the head of [for (;;)], the
    body of the receiving [do ... while], the body of the fetching
    [do ... while (true)], and the code that sends the packet. *)
Inductive point := AtLoopHead | AtReceive | AtFetch | AtSend.

Record config := mk_config {
  decoder : ff_decoder_t;
  ret : Z;
  frame : AVFrame;
  env : world
}.

Inductive outcome :=
| Return (v : Z) (c : config)
| Goto (p : point) (c : config)
| Blocked (c : config)
| NoAnswer (c : config).

(** The audio branch of the [switch]: rewrite the timestamp of a frame
    just received and advance [next_pts]. *)
Definition audio_timestamps (d : ff_decoder_t) (f : AVFrame) : ff_decoder_t * AVFrame :=
  let time_base := mk_rational 1 (sample_rate f) in
  let f :=
    if negb (frame_pts f =? AV_NOPTS_VALUE) then
      with_frame_pts f (av_rescale_q (frame_pts f) (pkt_timebase (codec_context d)) time_base)
    else if negb (next_pts d =? AV_NOPTS_VALUE) then
      with_frame_pts f (av_rescale_q (next_pts d) (next_pts_tb d) time_base)
    else f in
  if negb (frame_pts f =? AV_NOPTS_VALUE) then
    (with_next_pts d (wrap_int64 (frame_pts f + nb_samples f)) time_base, f)
  else (d, f).

Definition video_timestamps (d : ff_decoder_t) (f : AVFrame) : AVFrame :=
  if reorder_pts d then with_frame_pts f (best_effort_timestamp f)
  else with_frame_pts f (pkt_dts f).

(** One pass through the body of the receiving loop (lines 87-127). *)
Definition receive_step (c : config) : outcome :=
  let w := interleave (env c) in
  if ff_packet_queue_get_aborted (queue w) then
    Return (-1) (mk_config (decoder c) (ret c) (frame c) w)
  else
    let after_switch : option config :=
      match codec_type (codec_context (decoder c)) with
      | AVMEDIA_TYPE_VIDEO =>
          match receive_answers w with
          | [] => None
          | (r, f) :: rest =>
              let w := record_call
                         (mk_world (queue w) (others w) rest (send_answers w)
                            (alloc_answers w) (calls w))
                         (avcodec_receive_frame r) in
              let f := if r >=? 0 then video_timestamps (decoder c) f else f in
              Some (mk_config (decoder c) r f w)
          end
      | AVMEDIA_TYPE_AUDIO =>
          match receive_answers w with
          | [] => None
          | (r, f) :: rest =>
              let w := record_call
                         (mk_world (queue w) (others w) rest (send_answers w)
                            (alloc_answers w) (calls w))
                         (avcodec_receive_frame r) in
              let '(d, f) := if r >=? 0 then audio_timestamps (decoder c) f
                             else (decoder c, f) in
              Some (mk_config d r f w)
          end
      | AVMEDIA_TYPE_OTHER => Some (mk_config (decoder c) (ret c) (frame c) w)
      end in
    match after_switch with
    | None => NoAnswer (mk_config (decoder c) (ret c) (frame c) w)
    | Some c =>
        if ret c =? AVERROR_EOF then
          Return 0
            (mk_config (with_finished (decoder c) (packet_serial (decoder c)))
               (ret c) (frame c) (record_call (env c) avcodec_flush_buffers))
        else if ret c >=? 0 then Return 1 c
        else if negb (ret c =? AVERROR_EAGAIN) then Goto AtReceive c
        else Goto AtFetch c
    end.

(** [ff_packet_queue_get(queue, decoder->packet, 1, &decoder->packet_serial)]
    as the decoder sees it: the entry handed out lands in the packet slot
    and its serial in [packet_serial]. [None] when the call never returns. *)
Definition decoder_get (d : ff_decoder_t) (w : world) : option Z * ff_decoder_t * world :=
  let w := interleave w in
  let got := ff_packet_queue_get (queue w) 1 (others w) in
  let w := with_queue w (get_queue got) (skipn (get_waits got) (others w)) in
  let d :=
    match get_packet got with
    | Some p => with_packet_serial (with_packet d (base p)) (PacketQueue.serial p)
    | None => d
    end in
  (get_ret got, d, w).

(** One pass through the body of the fetching loop (lines 131-151). *)
Definition fetch_step (c : config) : outcome :=
  let w := interleave (env c) in
  let w := if ff_packet_queue_get_packet_count (queue w) =? 0
           then record_call w cnd_signal_empty_queue else w in
  let fetched : outcome + config :=
    if packet_pending (decoder c) then
      inr (mk_config (with_packet_pending (decoder c) false) (ret c) (frame c) w)
    else
      let old_serial := packet_serial (decoder c) in
      let '(r, d, w) := decoder_get (decoder c) w in
      match r with
      | None => inl (Blocked (mk_config d (ret c) (frame c) w))
      | Some r =>
          if r <? 0 then inl (Return (-1) (mk_config d (ret c) (frame c) w))
          else if negb (old_serial =? packet_serial d) then
            inr (mk_config
                   (with_next_pts (with_finished d 0) (start_pts d) (start_pts_time_base d))
                   (ret c) (frame c) (record_call w avcodec_flush_buffers))
          else inr (mk_config d (ret c) (frame c) w)
      end in
  match fetched with
  | inl o => o
  | inr c =>
      let w := interleave (env c) in
      if ff_packet_queue_get_serial (queue w) =? packet_serial (decoder c) then
        Goto AtSend (mk_config (decoder c) (ret c) (frame c) w)
      else
        Goto AtFetch (mk_config (with_packet (decoder c) blank_packet) (ret c) (frame c) w)
  end.

(** Lines 154-167: attach the byte position, hand the packet to the codec.
    [av_buffer_allocz] may fail. *)
Definition send_step (c : config) : outcome :=
  let pkt := packet (decoder c) in
  let attached : outcome + config :=
    if has_buf pkt && match opaque_ref pkt with None => true | Some _ => false end then
      match alloc_answers (env c) with
      | [] => inl (NoAnswer c)
      | ok :: rest =>
          let w := mk_world (queue (env c)) (others (env c)) (receive_answers (env c))
                     (send_answers (env c)) rest (calls (env c)) in
          if ok then
            let pkt := mk_avpacket (stream_index pkt) (size pkt) (duration pkt) (pos pkt)
                         (has_buf pkt) (Some (pos pkt)) in
            inr (mk_config (with_packet (decoder c) pkt) (ret c) (frame c) w)
          else inl (Return AVERROR_ENOMEM (mk_config (decoder c) (ret c) (frame c) w))
      end
    else inr c in
  match attached with
  | inl o => o
  | inr c =>
      match send_answers (env c) with
      | [] => NoAnswer c
      | r :: rest =>
          let w := record_call
                     (mk_world (queue (env c)) (others (env c)) (receive_answers (env c))
                        rest (alloc_answers (env c)) (calls (env c)))
                     (avcodec_send_packet (packet (decoder c)) r) in
          if r =? AVERROR_EAGAIN then
            Goto AtLoopHead
              (mk_config (with_packet_pending (decoder c) true) (ret c) (frame c)
                 (record_call w av_log_api_violation))
          else
            Goto AtLoopHead
              (mk_config (with_packet (decoder c) blank_packet) (ret c) (frame c) w)
      end
  end.

Definition step (p : point) (c : config) : outcome :=
  match p with
  | AtLoopHead =>
      let w := interleave (env c) in
      let c := mk_config (decoder c) (ret c) (frame c) w in
      if ff_packet_queue_get_serial (queue w) =? packet_serial (decoder c)
      then Goto AtReceive c
      else Goto AtFetch c
  | AtReceive => receive_step c
  | AtFetch => fetch_step c
  | AtSend => send_step c
  end.

(** The loops of [ff_decoder_decode], cut off after [fuel] steps. *)
Fixpoint run (fuel : nat) (p : point) (c : config) : outcome :=
  match fuel with
  | O => Goto p c
  | S fuel =>
      match step p c with
      | Goto p' c' => run fuel p' c'
      | o => o
      end
  end.

Definition ff_decoder_decode (fuel : nat) (decoder : ff_decoder_t) (frame : AVFrame)
    (w : world) : outcome :=
  run fuel AtLoopHead (mk_config decoder AVERROR_EAGAIN frame w).

Definition config_of (o : outcome) : config :=
  match o with
  | Return _ c | Goto _ c | Blocked c | NoAnswer c => c
  end.

End Decode.

End Decoder.

(** ** Synchroniser and reader back-pressure (src/ff_player.c) *)

Module Player.
Import PacketQueue.

Definition MIN_FRAMES : Z := 10.
Definition EXTERNAL_CLOCK_MIN_FRAMES : Z := 2.
Definition EXTERNAL_CLOCK_MAX_FRAMES : Z := 10.
Definition SAMPLE_CORRECTION_PERCENT_MAX : Z := 10.
Definition AUDIO_DIFF_AVG_NB : Z := 20.
Definition MAX_QUEUE_SIZE : Z := 15 * 1024 * 1024.

Definition AV_NOSYNC_THRESHOLD : double := of_int 10.
Definition AV_SYNC_THRESHOLD_MIN : double := dec 4 100.
Definition AV_SYNC_THRESHOLD_MAX : double := dec 1 10.
Definition AV_SYNC_FRAMEDUP_THRESHOLD : double := dec 1 10.
Definition EXTERNAL_CLOCK_SPEED_MIN : double := dec 900 1000.
Definition EXTERNAL_CLOCK_SPEED_MAX : double := dec 1010 1000.
Definition EXTERNAL_CLOCK_SPEED_STEP : double := dec 1 1000.

(** [AV_DISPOSITION_ATTACHED_PIC] of libavformat: [1 << 10]. *)
Definition AV_DISPOSITION_ATTACHED_PIC : Z := 1024.

Inductive ff_av_sync_t :=
| FF_AV_SYNC_AUDIO_MASTER
| FF_AV_SYNC_VIDEO_MASTER
| FF_AV_SYNC_EXTERNAL_CLOCK.

Definition sync_eqb (a b : ff_av_sync_t) : bool :=
  match a, b with
  | FF_AV_SYNC_AUDIO_MASTER, FF_AV_SYNC_AUDIO_MASTER
  | FF_AV_SYNC_VIDEO_MASTER, FF_AV_SYNC_VIDEO_MASTER
  | FF_AV_SYNC_EXTERNAL_CLOCK, FF_AV_SYNC_EXTERNAL_CLOCK => true
  | _, _ => false
  end.

(** The fields of libavformat's [AVStream] that the player reads. *)
Record AVStream := mk_stream {
  time_base : Decoder.AVRational;
  disposition : Z
}.

(** The part of [struct ff_player] that the synchroniser and the reader's
    back-pressure test read or write. A stream pointer is [None] when it is
    [NULL]. *)
Record ff_player_t := mk_player {
  paused : bool;
  realtime : bool;
  audio_clock : Clock.ff_clock_t;
  video_clock : Clock.ff_clock_t;
  external_clock : Clock.ff_clock_t;
  av_sync_type : ff_av_sync_t;
  audio_stream_index : Z;
  video_stream_index : Z;
  audio_stream : option AVStream;
  video_stream : option AVStream;
  audio_packet_queue : ff_packet_queue_t;
  video_packet_queue : ff_packet_queue_t;
  audio_diff_cum : double;
  audio_diff_avg_coef : double;
  audio_diff_threshold : double;
  audio_diff_avg_count : Z;
  audio_source_freq : Z;
  max_frame_duration : double
}.

Definition with_external_clock (p : ff_player_t) (c : Clock.ff_clock_t) : ff_player_t :=
  mk_player (paused p) (realtime p) (audio_clock p) (video_clock p) c (av_sync_type p)
    (audio_stream_index p) (video_stream_index p) (audio_stream p) (video_stream p)
    (audio_packet_queue p) (video_packet_queue p) (audio_diff_cum p)
    (audio_diff_avg_coef p) (audio_diff_threshold p) (audio_diff_avg_count p)
    (audio_source_freq p) (max_frame_duration p).

Definition with_audio_diff (p : ff_player_t) (cum : double) (count : Z) : ff_player_t :=
  mk_player (paused p) (realtime p) (audio_clock p) (video_clock p) (external_clock p)
    (av_sync_type p) (audio_stream_index p) (video_stream_index p) (audio_stream p)
    (video_stream p) (audio_packet_queue p) (video_packet_queue p) cum
    (audio_diff_avg_coef p) (audio_diff_threshold p) count
    (audio_source_freq p) (max_frame_duration p).

(** The serial cells the clocks point at: those of the two packet queues. *)
Definition live (player : ff_player_t) : Clock.serials :=
  fun k =>
    match k with
    | Clock.Audio => ff_packet_queue_get_serial (audio_packet_queue player)
    | Clock.Video => ff_packet_queue_get_serial (video_packet_queue player)
    end.

Definition is_null {A : Type} (p : option A) : bool :=
  match p with None => true | Some _ => false end.

Definition get_master_sync_type (player : ff_player_t) : ff_av_sync_t :=
  let sync_type := FF_AV_SYNC_EXTERNAL_CLOCK in
  let sync_type :=
    if sync_eqb (av_sync_type player) FF_AV_SYNC_VIDEO_MASTER then
      if negb (is_null (video_stream player)) then FF_AV_SYNC_VIDEO_MASTER
      else FF_AV_SYNC_AUDIO_MASTER
    else sync_type in
  let sync_type :=
    if sync_eqb (av_sync_type player) FF_AV_SYNC_AUDIO_MASTER then
      if negb (is_null (audio_stream player)) then FF_AV_SYNC_AUDIO_MASTER
      else FF_AV_SYNC_EXTERNAL_CLOCK
    else sync_type in
  sync_type.

Definition get_master_clock (player : ff_player_t) (now : Z) : double :=
  match get_master_sync_type player with
  | FF_AV_SYNC_VIDEO_MASTER => Clock.ff_clock_get (live player) (video_clock player) now
  | FF_AV_SYNC_AUDIO_MASTER => Clock.ff_clock_get (live player) (audio_clock player) now
  | FF_AV_SYNC_EXTERNAL_CLOCK => Clock.ff_clock_get (live player) (external_clock player) now
  end.

(** [now_video] and [now_master] are the wall-clock readings taken inside
    the two calls of [ff_clock_get]. *)
Definition compute_target_delay (player : ff_player_t) (delay : double)
    (now_video now_master : Z) : double :=
  if negb (sync_eqb (get_master_sync_type player) FF_AV_SYNC_VIDEO_MASTER) then
    let diff := (Clock.ff_clock_get (live player) (video_clock player) now_video
                 - get_master_clock player now_master)%D in
    let sync_threshold := FFMAX AV_SYNC_THRESHOLD_MIN (FFMIN AV_SYNC_THRESHOLD_MAX delay) in
    if negb (isnan diff) && (fabs diff <? max_frame_duration player)%D then
      if (diff <=? - sync_threshold)%D then FFMAX (of_int 0) (delay + diff)%D
      else if (diff >=? sync_threshold)%D && (delay >? AV_SYNC_FRAMEDUP_THRESHOLD)%D
      then (delay + diff)%D
      else if (diff >=? sync_threshold)%D then (of_int 2 * delay)%D
      else delay
    else delay
  else delay.

(** [av_clip] of libavutil/common.h. *)
Definition av_clip (a amin amax : Z) : Z :=
  if a <? amin then amin
  else if a >? amax then amax
  else a.

(** Returns the wanted sample count and the player with its running
    average updated. Integer division is C's, truncating. *)
Definition synchronize_audio (player : ff_player_t) (sample_count : Z)
    (now_audio now_master : Z) : Z * ff_player_t :=
  let wanted_sample_count := sample_count in
  if negb (sync_eqb (get_master_sync_type player) FF_AV_SYNC_AUDIO_MASTER) then
    let diff := (Clock.ff_clock_get (live player) (audio_clock player) now_audio
                 - get_master_clock player now_master)%D in
    if negb (isnan diff) && (fabs diff <? AV_NOSYNC_THRESHOLD)%D then
      let cum := (diff + audio_diff_avg_coef player * audio_diff_cum player)%D in
      if audio_diff_avg_count player <? AUDIO_DIFF_AVG_NB then
        (wanted_sample_count,
         with_audio_diff player cum (wrap_int (audio_diff_avg_count player + 1)))
      else
        let player := with_audio_diff player cum (audio_diff_avg_count player) in
        let avg_diff := (audio_diff_cum player * (of_int 1 - audio_diff_avg_coef player))%D in
        if (fabs avg_diff >=? audio_diff_threshold player)%D then
          let wanted_sample_count :=
            wrap_int (sample_count + to_int (diff * of_int (audio_source_freq player))%D) in
          let min_nb_samples :=
            Z.quot (wrap_int (sample_count * (100 - SAMPLE_CORRECTION_PERCENT_MAX))) 100 in
          let max_nb_samples :=
            Z.quot (wrap_int (sample_count * (100 + SAMPLE_CORRECTION_PERCENT_MAX))) 100 in
          (av_clip wanted_sample_count min_nb_samples max_nb_samples, player)
        else (wanted_sample_count, player)
    else (wanted_sample_count, with_audio_diff player (of_int 0) 0)
  else (wanted_sample_count, player).

(** [now_get] and [now_set] are the two wall-clock readings of
    [ff_clock_set_speed]. *)
Definition check_external_clock_speed (player : ff_player_t) (now_get now_set : Z)
    : ff_player_t :=
  let set_speed s :=
    with_external_clock player
      (Clock.ff_clock_set_speed (live player) (external_clock player) s now_get now_set) in
  if ((video_stream_index player >=? 0)
      && (ff_packet_queue_get_packet_count (video_packet_queue player)
          <=? EXTERNAL_CLOCK_MIN_FRAMES))
     || ((audio_stream_index player >=? 0)
         && (ff_packet_queue_get_packet_count (audio_packet_queue player)
             <=? EXTERNAL_CLOCK_MIN_FRAMES))
  then
    set_speed (FFMAX EXTERNAL_CLOCK_SPEED_MIN
                 (Clock.speed (external_clock player) - EXTERNAL_CLOCK_SPEED_STEP)%D)
  else if ((video_stream_index player <? 0)
           || (ff_packet_queue_get_packet_count (video_packet_queue player)
               >? EXTERNAL_CLOCK_MAX_FRAMES))
          && ((audio_stream_index player <? 0)
              || (ff_packet_queue_get_packet_count (audio_packet_queue player)
                  >? EXTERNAL_CLOCK_MAX_FRAMES))
  then
    set_speed (FFMIN EXTERNAL_CLOCK_SPEED_MAX
                 (Clock.speed (external_clock player) + EXTERNAL_CLOCK_SPEED_STEP)%D)
  else
    let speed := Clock.speed (external_clock player) in
    if ne speed (of_int 1) then
      set_speed (speed + EXTERNAL_CLOCK_SPEED_STEP * (of_int 1 - speed)
                              / fabs (of_int 1 - speed))%D
    else player.

(** The guard of [ff_player_acquire_video_frame] around
    [check_external_clock_speed]. *)
Definition acquire_video_frame_clock_speed (player : ff_player_t) (now_get now_set : Z)
    : ff_player_t :=
  if negb (paused player)
     && sync_eqb (get_master_sync_type player) FF_AV_SYNC_EXTERNAL_CLOCK
     && realtime player
  then check_external_clock_speed player now_get now_set
  else player.

(** [av_q2d] of libavutil/rational.h: [a.num / (double) a.den]. *)
Definition av_q2d (a : Decoder.AVRational) : double :=
  (of_int (Decoder.num a) / of_int (Decoder.den a))%D.

(** [None] when the test dereferences a [NULL] stream. *)
Definition stream_has_enough_packets (stream : option AVStream) (stream_id : Z)
    (queue : ff_packet_queue_t) : option bool :=
  if stream_id <? 0 then Some true
  else if ff_packet_queue_get_aborted queue then Some true
  else
    match stream with
    | None => None
    | Some stream =>
        Some (negb (Z.land (disposition stream) AV_DISPOSITION_ATTACHED_PIC =? 0)
              || ((ff_packet_queue_get_packet_count queue >? MIN_FRAMES)
                  && ((ff_packet_queue_get_duration queue =? 0)
                      || (av_q2d (time_base stream)
                          * of_int (ff_packet_queue_get_duration queue) >? of_int 1)%D)))
    end.

(** The back-pressure test of the reader's main loop (lines 1329-1331). *)
Definition read_thread_queues_full (player : ff_player_t) : option bool :=
  if wrap_size_t (ff_packet_queue_get_size (audio_packet_queue player)
                  + ff_packet_queue_get_size (video_packet_queue player))
     >? MAX_QUEUE_SIZE
  then Some true
  else
    match stream_has_enough_packets (audio_stream player) (audio_stream_index player)
            (audio_packet_queue player) with
    | None => None
    | Some false => Some false
    | Some true =>
        stream_has_enough_packets (video_stream player) (video_stream_index player)
          (video_packet_queue player)
    end.

(** What the reader does at this point of a tick: sleep on the continue
    condition variable with a timeout given in nanoseconds and restart the
    loop, or go on to read a packet. *)
Inductive tick_action :=
| WaitAndContinue (timeout_ns : Z)
| ReadOn.

Definition read_thread_backpressure (player : ff_player_t) : option tick_action :=
  match read_thread_queues_full player with
  | None => None
  | Some true => Some (WaitAndContinue (10 * 1000 * 1000))
  | Some false => Some ReadOn
  end.

End Player.

(** ** The frame queue (src/ff_frame_queue.c) *)

Module FrameQueue.
Import PacketQueue.

(** The three capacities of include/frame_queue.h and the array length
    derived from them; [FFMAX] and [FFMIN] are libavutil's macros, here at
    type [int]. *)
Definition FF_VIDEO_PICTURE_QUEUE_SIZE : Z := 3.
Definition FF_SUBPICTURE_QUEUE_SIZE : Z := 16.
Definition FF_SAMPLE_QUEUE_SIZE : Z := 9.

Definition FFMAX_int (a b : Z) : Z := if a >? b then a else b.
Definition FFMIN_int (a b : Z) : Z := if a >? b then b else a.

Definition FF_FRAME_QUEUE_SIZE : Z :=
  FFMAX_int FF_SAMPLE_QUEUE_SIZE
            (FFMAX_int FF_VIDEO_PICTURE_QUEUE_SIZE FF_SUBPICTURE_QUEUE_SIZE).

(** What the [AVFrame* base] of a slot points to: nothing (the slot was
    never given a frame), a frame without data (fresh from [av_frame_alloc]
    or after [av_frame_unref]), or a frame holding decoded data. *)
Inductive frame_ptr :=
| NullFrame
| EmptyFrame
| DataFrame (f : Decoder.AVFrame).

(** [ff_frame_t] of include/ff_frame.h. *)
Record ff_frame_t := mk_ff_frame {
  base : frame_ptr;
  serial : Z;
  pts : double;
  duration : double;
  pos : Z;
  width : Z;
  height : Z;
  format : Z;
  sample_aspect_ratio : Decoder.AVRational;
  uploaded : bool;
  flip_v : Z
}.

(** A slot as [calloc] leaves it. *)
Definition zero_frame : ff_frame_t :=
  {| base := NullFrame; serial := 0; pts := S754_zero false;
     duration := S754_zero false; pos := 0; width := 0; height := 0;
     format := 0; sample_aspect_ratio := Decoder.mk_rational 0 0;
     uploaded := false; flip_v := 0 |}.

Definition with_base (f : ff_frame_t) (b : frame_ptr) : ff_frame_t :=
  {| base := b; serial := serial f; pts := pts f; duration := duration f;
     pos := pos f; width := width f; height := height f; format := format f;
     sample_aspect_ratio := sample_aspect_ratio f; uploaded := uploaded f;
     flip_v := flip_v f |}.

(** [av_frame_unref] on the frame a slot owns; a null pointer is left
    alone. *)
Definition av_frame_unref (b : frame_ptr) : frame_ptr :=
  match b with
  | NullFrame => NullFrame
  | EmptyFrame | DataFrame _ => EmptyFrame
  end.

(** [struct ff_frame_queue]. [frames] is the array of [FF_FRAME_QUEUE_SIZE]
    slots; a pointer [queue->frames + i] is the index [i]. The companion
    packet queue is shared with other threads, so the functions that read it
    take its current state as an argument. *)
Record ff_frame_queue_t := mk_frame_queue {
  frames : list ff_frame_t;
  rindex : Z;
  windex : Z;
  size : Z;
  max_size : Z;
  keep_last : bool;
  rindex_shown : Z
}.

(** Reading and writing [queue->frames[i]]. An index outside the array is
    undefined in C; here a read gives a zeroed slot and a write is lost. *)
Definition frame_at (queue : ff_frame_queue_t) (i : Z) : ff_frame_t :=
  match i with
  | Zneg _ => zero_frame
  | _ => nth (Z.to_nat i) (frames queue) zero_frame
  end.

Fixpoint set_nth (n : nat) (x : ff_frame_t) (l : list ff_frame_t) : list ff_frame_t :=
  match l, n with
  | [], _ => []
  | _ :: t, O => x :: t
  | h :: t, S n' => h :: set_nth n' x t
  end.

Definition store (queue : ff_frame_queue_t) (i : Z) (f : ff_frame_t) : ff_frame_queue_t :=
  {| frames := match i with
               | Zneg _ => frames queue
               | _ => set_nth (Z.to_nat i) f (frames queue)
               end;
     rindex := rindex queue; windex := windex queue; size := size queue;
     max_size := max_size queue; keep_last := keep_last queue;
     rindex_shown := rindex_shown queue |}.

(** *** ff_frame_queue_create *)

Inductive create_outcome :=
| Created (queue : ff_frame_queue_t)
| NoQueue (allocated freed : Z)     (* NULL; frames allocated, frames freed *)
| OutOfArray (i : Z).               (* the loop reached [frames[i]] past the array *)

(** The allocation loop from index [i] on: [done] are the slots already
    given a frame, [rest] the slots from [i] to the end of the array, and
    [alloc_ok j] tells whether the [av_frame_alloc] for slot [j] succeeds. *)
Fixpoint create_loop (done rest : list ff_frame_t) (i max_size : Z)
    (keep_last : bool) (alloc_ok : Z -> bool) : create_outcome :=
  if i =? max_size then
    Created {| frames := done ++ rest; rindex := 0; windex := 0; size := 0;
               max_size := max_size; keep_last := keep_last; rindex_shown := 0 |}
  else
    match rest with
    | [] => OutOfArray i
    | slot :: rest' =>
        if alloc_ok i then
          create_loop (done ++ [with_base slot EmptyFrame]) rest' (wrap_int (i + 1))
                      max_size keep_last alloc_ok
        else NoQueue (Z.of_nat (length done)) i
    end.

Definition ff_frame_queue_create (max_size : Z) (keep_last : bool)
    (calloc_ok mtx_ok cnd_ok : bool) (alloc_ok : Z -> bool) : create_outcome :=
  if calloc_ok then
    if mtx_ok then
      if cnd_ok then
        create_loop [] (repeat zero_frame (Z.to_nat FF_FRAME_QUEUE_SIZE)) 0
                    (FFMIN_int max_size FF_FRAME_QUEUE_SIZE) keep_last alloc_ok
      else NoQueue 0 0
    else NoQueue 0 0
  else NoQueue 0 0.

(** *** The peeks; each returns the index of a slot *)

Definition ff_frame_queue_peek (queue : ff_frame_queue_t) : Z :=
  Z.rem (wrap_int (rindex queue + rindex_shown queue)) (max_size queue).

Definition ff_frame_queue_peek_next (queue : ff_frame_queue_t) : Z :=
  Z.rem (wrap_int (wrap_int (rindex queue + rindex_shown queue) + 1)) (max_size queue).

Definition ff_frame_queue_peek_last (queue : ff_frame_queue_t) : Z := rindex queue.

(** *** ff_frame_queue_push and ff_frame_queue_next *)

Definition ff_frame_queue_push (queue : ff_frame_queue_t) : ff_frame_queue_t :=
  let windex1 := wrap_int (windex queue + 1) in
  let windex2 := if windex1 =? max_size queue then 0 else windex1 in
  {| frames := frames queue; rindex := rindex queue; windex := windex2;
     size := wrap_int (size queue + 1); max_size := max_size queue;
     keep_last := keep_last queue; rindex_shown := rindex_shown queue |}.

Definition ff_frame_queue_next (queue : ff_frame_queue_t) : ff_frame_queue_t :=
  if keep_last queue && (rindex_shown queue =? 0) then
    {| frames := frames queue; rindex := rindex queue; windex := windex queue;
       size := size queue; max_size := max_size queue;
       keep_last := keep_last queue; rindex_shown := 1 |}
  else
    let last := frame_at queue (rindex queue) in
    let queue1 := store queue (rindex queue) (with_base last (av_frame_unref (base last))) in
    let rindex1 := wrap_int (rindex queue + 1) in
    let rindex2 := if rindex1 =? max_size queue then 0 else rindex1 in
    {| frames := frames queue1; rindex := rindex2; windex := windex queue;
       size := wrap_int (size queue - 1); max_size := max_size queue;
       keep_last := keep_last queue; rindex_shown := rindex_shown queue |}.

Definition ff_frame_queue_get_frames_remaining (queue : ff_frame_queue_t) : Z :=
  wrap_int (size queue - rindex_shown queue).

Definition ff_frame_queue_get_last_pos (queue : ff_frame_queue_t)
    (packet_queue : ff_packet_queue_t) : Z :=
  let frame := frame_at queue (rindex queue) in
  if negb (rindex_shown queue =? 0)
     && (serial frame =? ff_packet_queue_get_serial packet_queue)
  then pos frame
  else -1.

Definition ff_frame_queue_rindex_shown (queue : ff_frame_queue_t) : Z :=
  rindex_shown queue.

(** *** The blocking peeks

    While a peek waits on the condition variable other threads run; each
    element of [wakeups] is what they did to the frame queue and to the
    packet queue before one return of [cnd_wait], and [late] is what they
    did between the unlock and the final reads. [None] means the caller is
    still waiting when [wakeups] is used up. *)
Definition shared : Type := ff_frame_queue_t * ff_packet_queue_t.

Record peek_outcome := mk_peek {
  peek_slot : option Z;          (* [None] is the null pointer *)
  peek_state : shared;
  peek_waits : nat
}.

Fixpoint wait_while (test : shared -> bool) (s : shared)
    (wakeups : list (shared -> shared)) (waits : nat) : option (shared * nat) :=
  if test s then
    match wakeups with
    | [] => None
    | others :: rest => wait_while test (others s) rest (S waits)
    end
  else Some (s, waits).

Definition ff_frame_queue_peek_writable (queue : ff_frame_queue_t)
    (packet_queue : ff_packet_queue_t) (wakeups : list (shared -> shared))
    (late : shared -> shared) : option peek_outcome :=
  match wait_while (fun s => (size (fst s) >=? max_size (fst s))
                             && negb (ff_packet_queue_get_aborted (snd s)))
                   (queue, packet_queue) wakeups 0 with
  | None => None
  | Some (s, waits) =>
      let s := late s in
      if ff_packet_queue_get_aborted (snd s) then Some (mk_peek None s waits)
      else Some (mk_peek (Some (windex (fst s))) s waits)
  end.

Definition ff_frame_queue_peek_readable (queue : ff_frame_queue_t)
    (packet_queue : ff_packet_queue_t) (wakeups : list (shared -> shared))
    (late : shared -> shared) : option peek_outcome :=
  match wait_while (fun s => (wrap_int (size (fst s) - rindex_shown (fst s)) <=? 0)
                             && negb (ff_packet_queue_get_aborted (snd s)))
                   (queue, packet_queue) wakeups 0 with
  | None => None
  | Some (s, waits) =>
      let s := late s in
      if ff_packet_queue_get_aborted (snd s) then Some (mk_peek None s waits)
      else Some (mk_peek (Some (ff_frame_queue_peek (fst s))) s waits)
  end.

(** *** Histories of the two sides

    The writer fills the slot [ff_frame_queue_peek_writable] gave it and
    calls [ff_frame_queue_push]; the reader calls [ff_frame_queue_next]. Both
    respect the protocol of src/ff_player.c: a write happens only into a
    queue with room, a [next] only when a frame remains. *)
Definition write_frame (queue : ff_frame_queue_t) (f : ff_frame_t) : ff_frame_queue_t :=
  ff_frame_queue_push (store queue (windex queue) f).

Inductive frame_op :=
| fop_write (f : ff_frame_t)
| fop_next.

Fixpoint run_frame_ops (queue : ff_frame_queue_t) (ops : list frame_op)
    : option ff_frame_queue_t :=
  match ops with
  | [] => Some queue
  | fop_write f :: rest =>
      if size queue <? max_size queue
      then run_frame_ops (write_frame queue f) rest
      else None
  | fop_next :: rest =>
      if 0 <? ff_frame_queue_get_frames_remaining queue
      then run_frame_ops (ff_frame_queue_next queue) rest
      else None
  end.

Definition written (ops : list frame_op) : list ff_frame_t :=
  flat_map (fun o => match o with fop_write f => [f] | fop_next => [] end) ops.

Definition nexts (ops : list frame_op) : nat :=
  length (filter (fun o => match o with fop_next => true | fop_write _ => false end) ops).

(** The frames not yet shown, oldest first: the slots from the read
    position up to the write position. *)
Definition unread (queue : ff_frame_queue_t) : list ff_frame_t :=
  map (fun k => frame_at queue
                  (Z.rem (rindex queue + rindex_shown queue + Z.of_nat k) (max_size queue)))
      (seq 0 (Z.to_nat (size queue - rindex_shown queue))).

(** What the operations keep true of a queue: the array has its 16 slots,
    the capacity is positive and within the array, both indices are below
    the capacity, at most one frame is marked as shown and only among the
    frames held, the write index is [size] slots after the read index, and
    only a queue with [keep_last] marks a frame as shown. *)
Definition consistent (queue : ff_frame_queue_t) : Prop :=
  length (frames queue) = Z.to_nat FF_FRAME_QUEUE_SIZE /\
  0 < max_size queue <= FF_FRAME_QUEUE_SIZE /\
  0 <= rindex queue < max_size queue /\
  0 <= windex queue < max_size queue /\
  0 <= rindex_shown queue <= 1 /\
  rindex_shown queue <= size queue <= max_size queue /\
  windex queue = (rindex queue + size queue) mod max_size queue /\
  (keep_last queue = false -> rindex_shown queue = 0).

End FrameQueue.

(** ** Accounting of the packet queue (src/packet_queue.c) *)

Module PacketAccounting.
Import PacketQueue.

(** What the three counters of a queue should read for the packets it
    holds: their number as an [int], the bytes of their payloads and entries
    as a [size_t], the sum of their durations as an [int64_t]. *)
Definition total (f : packet_t -> Z) (fifo : list packet_t) : Z :=
  fold_right (fun p acc => f p + acc) 0 fifo.

Definition accounted (queue : ff_packet_queue_t) : Prop :=
  packet_count queue = wrap_int (Z.of_nat (length (packets queue))) /\
  q_size queue = wrap_size_t (total (fun p => size (base p) + sizeof_packet_t) (packets queue)) /\
  q_duration queue = wrap_int64 (total (fun p => duration (base p)) (packets queue)).

End PacketAccounting.

(** ** Frame durations (src/ff_player.c) *)

Module Refresh.
Import Player.

(** [frame_duration] (lines 249-260): the time a frame stays on screen,
    from the timestamps of it and of its successor. *)
Definition frame_duration (player : ff_player_t) (frame next_frame : FrameQueue.ff_frame_t)
    : double :=
  let result := of_int 0 in
  if FrameQueue.serial frame =? FrameQueue.serial next_frame then
    let duration := (FrameQueue.pts next_frame - FrameQueue.pts frame)%D in
    if isnan duration || (duration <=? of_int 0)%D
       || (duration >? max_frame_duration player)%D
    then FrameQueue.duration frame
    else duration
  else result.

End Refresh.

(** ** Refreshing the video (src/ff_player.c) *)

Module VideoRefresh.
Import PacketQueue Player FrameQueue Refresh.

(** [AVERROR(ENOSYS)] (Linux). *)
Definition AVERROR_ENOSYS : Z := -38.

(** The fields of [struct ff_player] that the refresh of the video uses
    besides those of [Player.ff_player_t]. *)
Record video_refresh_t := mk_refresh {
  player : ff_player_t;
  picture_queue : ff_frame_queue_t;
  frame_timer : double;
  force_refresh : bool;
  step : bool;
  read_pause_return : Z
}.

Definition with_player (r : video_refresh_t) (p : ff_player_t) : video_refresh_t :=
  mk_refresh p (picture_queue r) (frame_timer r) (force_refresh r) (step r)
    (read_pause_return r).

Definition with_picture_queue (r : video_refresh_t) (q : ff_frame_queue_t)
    : video_refresh_t :=
  mk_refresh (player r) q (frame_timer r) (force_refresh r) (step r) (read_pause_return r).

Definition with_frame_timer (r : video_refresh_t) (t : double) : video_refresh_t :=
  mk_refresh (player r) (picture_queue r) t (force_refresh r) (step r)
    (read_pause_return r).

Definition with_force_refresh (r : video_refresh_t) (b : bool) : video_refresh_t :=
  mk_refresh (player r) (picture_queue r) (frame_timer r) b (step r) (read_pause_return r).

Definition with_clocks (p : ff_player_t) (paused' : bool)
    (audio video external : Clock.ff_clock_t) : ff_player_t :=
  mk_player paused' (realtime p) audio video external (av_sync_type p)
    (audio_stream_index p) (video_stream_index p) (audio_stream p) (video_stream p)
    (audio_packet_queue p) (video_packet_queue p) (audio_diff_cum p)
    (audio_diff_avg_coef p) (audio_diff_threshold p) (audio_diff_avg_count p)
    (audio_source_freq p) (max_frame_duration p).

(** [update_video_pts] (lines 224-227); the four readings of the wall clock
    are those of [ff_clock_set] and of the two [ff_clock_get] and the
    [ff_clock_set] inside [ff_clock_sync_to_slave]. *)
Definition update_video_pts (p : ff_player_t) (pts : double) (serial : Z)
    (now_set now_clock now_slave now_sync : Z) : ff_player_t :=
  let video := Clock.ff_clock_set (video_clock p) pts serial now_set in
  let external :=
    Clock.ff_clock_sync_to_slave (live p) (external_clock p) video AV_NOSYNC_THRESHOLD
      now_clock now_slave now_sync in
  with_clocks p (paused p) (audio_clock p) video external.

(** [stream_toggle_pause] (lines 1144-1154). The five readings are, in
    order: the one added to [frame_timer], those of the get and the set of
    the video clock, those of the get and the set of the external clock. *)
Definition stream_toggle_pause (r : video_refresh_t) (t0 t1 t2 t3 t4 : Z)
    : video_refresh_t :=
  let p := player r in
  let '(timer, video) :=
    if paused p then
      let timer := (frame_timer r
                    + (Clock.seconds t0 - Clock.last_updated (video_clock p)))%D in
      let video :=
        if negb (read_pause_return r =? AVERROR_ENOSYS)
        then Clock.store_paused (video_clock p) 0
        else video_clock p in
      (timer,
       Clock.ff_clock_set video (Clock.ff_clock_get (live p) video t1)
         (Clock.serial video) t2)
    else (frame_timer r, video_clock p) in
  let external :=
    Clock.ff_clock_set (external_clock p)
      (Clock.ff_clock_get (live p) (external_clock p) t3)
      (Clock.serial (external_clock p)) t4 in
  let flag := negb (paused p) in
  let as_int := if flag then 1 else 0 in
  mk_refresh
    (with_clocks p flag
       (Clock.store_paused (audio_clock p) as_int)
       (Clock.store_paused video as_int)
       (Clock.store_paused external as_int))
    (picture_queue r) timer (force_refresh r) (step r) (read_pause_return r).

(** One pass from the label [retry] of [ff_player_acquire_video_frame]
    (lines 1621-1671): either the pass popped a frame and jumps back to
    [retry], or control reaches the label [display]. [now] numbers the
    readings of the wall clock the pass can take, in the order of the
    source; a reading that a branch does not take is skipped. *)
Inductive pass_result :=
| Retry (r : video_refresh_t)
| Display (r : video_refresh_t) (remaining_time : option double).

Definition refresh_pass (r : video_refresh_t) (remaining_time : option double)
    (now : nat -> Z) : pass_result :=
  let queue := picture_queue r in
  if negb (ff_frame_queue_get_frames_remaining queue =? 0) then
    let last_frame := frame_at queue (ff_frame_queue_peek_last queue) in
    let frame := frame_at queue (ff_frame_queue_peek queue) in
    if negb (serial frame =? ff_packet_queue_get_serial (video_packet_queue (player r))) then
      Retry (with_picture_queue r (ff_frame_queue_next queue))
    else
      let r := if negb (serial last_frame =? serial frame)
               then with_frame_timer r (Clock.seconds (now 0%nat)) else r in
      if paused (player r) then Display r remaining_time
      else
        let last_duration := frame_duration (player r) last_frame frame in
        let delay := compute_target_delay (player r) last_duration (now 1%nat) (now 2%nat) in
        let time := Clock.seconds (now 3%nat) in
        if (time <? frame_timer r + delay)%D then
          Display r
            (match remaining_time with
             | Some budget => Some (FFMIN (frame_timer r + delay - time)%D budget)
             | None => None
             end)
        else
          let r := with_frame_timer r (frame_timer r + delay)%D in
          let r := if (delay >? of_int 0)%D
                      && (time - frame_timer r >? AV_SYNC_THRESHOLD_MAX)%D
                   then with_frame_timer r time else r in
          let r := if negb (isnan (pts frame))
                   then with_player r
                          (update_video_pts (player r) (pts frame) (serial frame)
                             (now 4%nat) (now 5%nat) (now 6%nat) (now 7%nat))
                   else r in
          let late :=
            if ff_frame_queue_get_frames_remaining queue >? 1 then
              let next_frame := frame_at queue (ff_frame_queue_peek_next queue) in
              let duration := frame_duration (player r) frame next_frame in
              negb (step r)
              && negb (sync_eqb (get_master_sync_type (player r)) FF_AV_SYNC_VIDEO_MASTER)
              && (time >? frame_timer r + duration)%D
            else false in
          if late then Retry (with_picture_queue r (ff_frame_queue_next queue))
          else
            let r := with_picture_queue r (ff_frame_queue_next queue) in
            let r := with_force_refresh r true in
            let r := if step r && negb (paused (player r))
                     then stream_toggle_pause r (now 8%nat) (now 9%nat) (now 10%nat)
                            (now 11%nat) (now 12%nat)
                     else r in
            Display r remaining_time
  else Display r remaining_time.

(** The readings one pass can take. *)
Definition readings_per_pass : nat := 13.

(** The passes of the [goto retry] loop, cut off after [fuel] of them;
    the count of the passes made comes with the result. *)
Fixpoint retry_loop (fuel : nat) (r : video_refresh_t) (remaining_time : option double)
    (now : nat -> Z) (passes : nat)
    : option (video_refresh_t * option double * nat) :=
  match fuel with
  | O => None
  | S fuel =>
      match refresh_pass r remaining_time
              (fun i => now (passes * readings_per_pass + i)%nat) with
      | Retry r => retry_loop fuel r remaining_time now (S passes)
      | Display r remaining_time => Some (r, remaining_time, S passes)
      end
  end.

(** What a call of [ff_player_acquire_video_frame] gives: the slot returned
    ([None] is the null pointer), the player, what [*remaining_time] holds
    ([None] when the pointer is null), and the passes made. *)
Record acquired := mk_acquired {
  shown_slot : option Z;
  after : video_refresh_t;
  remaining_after : option double;
  passes_made : nat
}.

(** [ff_player_acquire_video_frame] (lines 1613-1679), for a call during
    which no other thread touches the queues. [now_get] and [now_set] are
    the readings of [check_external_clock_speed]; [now] gives those of the
    passes. [None] when [fuel] passes do not reach the end. *)
Definition ff_player_acquire_video_frame (fuel : nat) (r : video_refresh_t)
    (remaining_time : option double) (now_get now_set : Z) (now : nat -> Z)
    : option acquired :=
  let r := with_player r (acquire_video_frame_clock_speed (player r) now_get now_set) in
  if negb (is_null (video_stream (player r))) then
    match retry_loop fuel r remaining_time now 0 with
    | None => None
    | Some (r, remaining_time, passes) =>
        if force_refresh r
           && negb (ff_frame_queue_rindex_shown (picture_queue r) =? 0)
        then Some (mk_acquired (Some (ff_frame_queue_peek_last (picture_queue r)))
                     r remaining_time passes)
        else Some (mk_acquired None (with_force_refresh r false) remaining_time passes)
    end
  else Some (mk_acquired None (with_force_refresh r false) remaining_time 0).

(** The unread frames without the leading ones whose serial is not
    [current]. *)
Fixpoint drop_stale (current : Z) (unread : list ff_frame_t) : list ff_frame_t :=
  match unread with
  | [] => []
  | frame :: rest =>
      if serial frame =? current then unread else drop_stale current rest
  end.

End VideoRefresh.

(** ** Starting and stopping a decoder (src/decoder.c) *)

Module DecoderThread.
Import PacketQueue Decoder.

(** [ff_decoder_start] (lines 63-70): the queue is started before the
    thread is created; [thrd_ok] tells whether [thrd_create] succeeded. *)
Definition ff_decoder_start (queue : ff_packet_queue_t) (thrd_ok : bool)
    : Z * ff_packet_queue_t :=
  let queue := ff_packet_queue_start queue in
  if negb thrd_ok then (AVERROR_ENOMEM, queue) else (0, queue).

(** [ff_decoder_abort] (lines 72-78): abort the queue, wait for the decoder
    thread, flush. [while_joining] is what the other threads did to the
    queue before [thrd_join] returned. It gives the queue and the packets
    the flush freed. *)
Definition ff_decoder_abort (queue : ff_packet_queue_t) (while_joining : list queue_op)
    : ff_packet_queue_t * list AVPacket :=
  let queue := ff_packet_queue_abort queue in
  let queue := run_ops queue while_joining in
  ff_packet_queue_flush queue.

End DecoderThread.

(** ** Seeking by chapter (src/ff_player.c) *)

Module Seek.
Import Player.

Definition AV_TIME_BASE : Z := 1000000.
Definition AV_TIME_BASE_Q : Decoder.AVRational := Decoder.mk_rational 1 AV_TIME_BASE.
Definition AVSEEK_FLAG_BYTE : Z := 2.
Definition INT64_MAX : Z := 9223372036854775807.

(** [(int64_t)x]; as for [to_int], the value outside the range is the one
    [cvttsd2si] produces. *)
Definition to_int64 (x : double) : Z :=
  match trunc x with
  | Some z => if (INT64_MIN <=? z) && (z <=? INT64_MAX) then z else INT64_MIN
  | None => INT64_MIN
  end.

(** [AVChapter]: the fields the player reads. *)
Record AVChapter := mk_chapter {
  start : Z;
  time_base : Decoder.AVRational
}.

(** The seek request the reader thread picks up: [seek_req], [seek_pos],
    [seek_rel] and [seek_flags] of [ff_player_t]. *)
Record seek_request := mk_seek {
  seek_req : bool;
  seek_pos : Z;
  seek_rel : Z;
  seek_flags : Z
}.

(** [stream_seek] (lines 1131-1142). *)
Definition stream_seek (request : seek_request) (pos rel : Z) (by_bytes : bool)
    : seek_request :=
  if negb (seek_req request) then
    let flags := Z.land (seek_flags request) (Z.lnot AVSEEK_FLAG_BYTE) in
    let flags := if by_bytes then Z.lor flags AVSEEK_FLAG_BYTE else flags in
    {| seek_req := true; seek_pos := pos; seek_rel := rel; seek_flags := flags |}
  else request.

Section Chapters.

(** [av_compare_ts] and [av_rescale_q] of libavutil/mathematics.h. *)
Variable av_compare_ts : Z -> Decoder.AVRational -> Z -> Decoder.AVRational -> Z.
Variable av_rescale_q : Z -> Decoder.AVRational -> Decoder.AVRational -> Z.

(** The test of the loop: the chapter starts after [pos]. *)
Definition starts_after (pos : Z) (chapter : AVChapter) : bool :=
  av_compare_ts pos AV_TIME_BASE_Q (start chapter) (time_base chapter) <? 0.

(** The loop of [ff_player_seek_chapter] from index [i] on, over the
    chapters not yet visited; the result is [i] when the loop is left. *)
Fixpoint chapter_loop (pos : Z) (chapters : list AVChapter) (i : Z) : Z :=
  match chapters with
  | [] => i
  | chapter :: rest =>
      if starts_after pos chapter then wrap_int (i - 1)
      else chapter_loop pos rest (wrap_int (i + 1))
  end.

(** [ff_player_seek_chapter] (lines 1897-1923); [chapters] is
    [format_context->chapters], of length [nb_chapters]. *)
Definition ff_player_seek_chapter (player : ff_player_t) (chapters : list AVChapter)
    (request : seek_request) (incr : Z) (now : Z) : seek_request :=
  let pos := to_int64 (get_master_clock player now * of_int AV_TIME_BASE)%D in
  let nb_chapters := Z.of_nat (length chapters) in
  if nb_chapters =? 0 then request
  else
    let i := chapter_loop pos chapters 0 in
    let i := wrap_int (i + incr) in
    let i := if i >? 0 then i else 0 in
    if i >=? nb_chapters then request
    else
      match nth_error chapters (Z.to_nat i) with
      | Some chapter =>
          stream_seek request
            (av_rescale_q (start chapter) (time_base chapter) AV_TIME_BASE_Q) 0 false
      | None => request
      end.

(** The index of the first chapter that starts after [pos], if there is
    one. *)
Fixpoint first_after (pos : Z) (chapters : list AVChapter) : option nat :=
  match chapters with
  | [] => None
  | chapter :: rest =>
      if starts_after pos chapter then Some 0%nat
      else option_map S (first_after pos rest)
  end.

(** What a seek to the start of chapter number [k] leaves in the request. *)
Definition seeks_to (chapters : list AVChapter) (k : nat) (request result : seek_request)
    : Prop :=
  exists chapter,
    nth_error chapters k = Some chapter /\
    result = stream_seek request
               (av_rescale_q (start chapter) (time_base chapter) AV_TIME_BASE_Q) 0 false.

End Chapters.
End Seek.

(** ** Queueing a picture (src/ff_player.c) *)

Module PictureWriter.
Import PacketQueue.

(** A decoded picture as [queue_picture] receives it: the [AVFrame] and
    the fields of it that are copied into the slot. *)
Record picture_t := mk_picture {
  data : Decoder.AVFrame;
  width : Z;
  height : Z;
  format : Z;
  sample_aspect_ratio : Decoder.AVRational
}.

(** [av_frame_move_ref(dst, src)]: the data of [src] moves into the frame
    [dst] points to. A null [dst] is undefined in C; here nothing moves. *)
Definition av_frame_move_ref (dst : FrameQueue.frame_ptr) (src : Decoder.AVFrame)
    : FrameQueue.frame_ptr :=
  match dst with
  | FrameQueue.NullFrame => FrameQueue.NullFrame
  | _ => FrameQueue.DataFrame src
  end.

(** The slot after the assignments of lines 648-657; [base] and [flip_v]
    are not assigned. *)
Definition fill (old : FrameQueue.ff_frame_t) (src_frame : picture_t)
    (pts duration : double) (pos serial : Z) : FrameQueue.ff_frame_t :=
  {| FrameQueue.base := FrameQueue.base old;
     FrameQueue.serial := serial;
     FrameQueue.pts := pts;
     FrameQueue.duration := duration;
     FrameQueue.pos := pos;
     FrameQueue.width := width src_frame;
     FrameQueue.height := height src_frame;
     FrameQueue.format := format src_frame;
     FrameQueue.sample_aspect_ratio := sample_aspect_ratio src_frame;
     FrameQueue.uploaded := false;
     FrameQueue.flip_v := FrameQueue.flip_v old |}.

(** [queue_picture] (lines 636-674). [meta_cb] is the callback of the
    video stream parameters, [None] when it is null. The result is the
    return value and the two queues, or [None] while the call is still
    waiting for room. *)
Definition queue_picture (queue : FrameQueue.ff_frame_queue_t)
    (packet_queue : ff_packet_queue_t)
    (wakeups : list (FrameQueue.shared -> FrameQueue.shared))
    (late : FrameQueue.shared -> FrameQueue.shared)
    (meta_cb : option (Z -> Z -> Decoder.AVRational -> Z))
    (src_frame : picture_t) (pts duration : double) (pos serial : Z)
    : option (Z * FrameQueue.shared) :=
  match FrameQueue.ff_frame_queue_peek_writable queue packet_queue wakeups late with
  | None => None
  | Some o =>
      match FrameQueue.peek_slot o with
      | None => Some (-1, FrameQueue.peek_state o)
      | Some slot =>
          let queue := fst (FrameQueue.peek_state o) in
          let frame := fill (FrameQueue.frame_at queue slot) src_frame pts duration pos serial in
          let queue := FrameQueue.store queue slot frame in
          let refused :=
            match meta_cb with
            | Some cb =>
                let ret := cb (FrameQueue.width frame) (FrameQueue.height frame)
                              (FrameQueue.sample_aspect_ratio frame) in
                if ret <? 0 then Some ret else None
            | None => None
            end in
          match refused with
          | Some ret => Some (ret, (queue, snd (FrameQueue.peek_state o)))
          | None =>
              let frame :=
                FrameQueue.with_base frame
                  (av_frame_move_ref (FrameQueue.base frame) (data src_frame)) in
              let queue := FrameQueue.store queue slot frame in
              Some (0, (FrameQueue.ff_frame_queue_push queue, snd (FrameQueue.peek_state o)))
          end
      end
  end.

End PictureWriter.

(** ** Cycling through the streams (src/ff_player.c) *)

Module CycleChannel.
Import Decoder.

(** The value of an [int] converted to [unsigned int], as the comparisons
    with [stream_count] do. *)
Definition to_unsigned (z : Z) : Z := z mod 2 ^ 32.

(** How a call of [ff_player_cycle_channel] ends: it returns from inside
    the loop, having looked at the streams at the positions listed; it
    reaches the code after the loop, which closes the stream [old_index] and
    opens [stream_index]; or it is still in the loop after [fuel] passes. *)
Inductive cycle_outcome :=
| Returned (looked : list Z)
| Switched (old_index stream_index : Z)
| Cycling (looked : list Z).

(** [for (start_index = 0; start_index < stream_count; start_index++)]
    over the stream indexes of the program, leaving at the first one equal
    to [stream_index]; the result is [start_index] after the loop. *)
Fixpoint find_in_program (indexes : list Z) (stream_index : Z) (start_index : Z) : Z :=
  match indexes with
  | [] => start_index
  | index :: rest =>
      if index =? to_unsigned stream_index then start_index
      else find_in_program rest stream_index (wrap_int (start_index + 1))
  end.

(** The [for (;;)] loop (lines 1851-1880). Its body has no [break] of its
    own, the one in the source leaves the [switch]: the loop is left only
    by a [return]. *)
Fixpoint cycle_loop (fuel : nat) (stream_index start_index stream_count : Z)
    (looked : list Z) : cycle_outcome :=
  match fuel with
  | O => Cycling looked
  | S fuel =>
      let stream_index := wrap_int (stream_index + 1) in
      let past_end := to_unsigned stream_index >=? stream_count in
      if past_end && (start_index =? -1) then Returned looked
      else
        let stream_index := if past_end then 0 else stream_index in
        if stream_index =? start_index then Returned looked
        else cycle_loop fuel stream_index start_index stream_count (looked ++ [stream_index])
  end.

(** [ff_player_cycle_channel] (lines 1815-1895). [program] is what
    [av_find_program_from_stream] finds for the video stream: the stream
    indexes of the program, or [None]. *)
Definition ff_player_cycle_channel (fuel : nat) (media_type : AVMediaType)
    (last_video_stream_index last_audio_stream_index : Z)
    (video_stream_index audio_stream_index : Z)
    (nb_streams : Z) (program : option (list Z)) : cycle_outcome :=
  let selected :=
    match media_type with
    | AVMEDIA_TYPE_VIDEO => Some (last_video_stream_index, video_stream_index)
    | AVMEDIA_TYPE_AUDIO => Some (last_audio_stream_index, audio_stream_index)
    | AVMEDIA_TYPE_OTHER => None
    end in
  match selected with
  | None => Returned []
  | Some (start_index, old_index) =>
      let stream_index := start_index in
      let stream_count := nb_streams in
      let '(start_index, stream_index, stream_count) :=
        match media_type, negb (video_stream_index =? -1), program with
        | AVMEDIA_TYPE_VIDEO, _, _ | _, false, _ | _, _, None =>
            (start_index, stream_index, stream_count)
        | _, true, Some indexes =>
            let stream_count := Z.of_nat (length indexes) in
            let start_index := find_in_program indexes stream_index 0 in
            let start_index :=
              if to_unsigned start_index =? stream_count then -1 else start_index in
            (start_index, start_index, stream_count)
        end in
      cycle_loop fuel stream_index start_index stream_count []
  end.

(** The positions still to look at from [stream_index] on. *)
Definition to_look (stream_index start_index stream_count : Z) : Z :=
  if stream_index <? start_index then start_index - stream_index - 1
  else if start_index =? -1 then stream_count - 1 - stream_index
  else stream_count - 1 - stream_index + start_index.

End CycleChannel.

(** ** Vocabulary of the design document *)

Module Spec.

(** [clamp(x, lo, hi)]. *)
Definition clamp (x lo hi : double) : double :=
  if (x <? lo)%D then lo else if (x >? hi)%D then hi else x.

(** [max(a, b)], the way the code base writes it ([FFMAX]). *)
Definition max (a b : double) : double := FFMAX a b.

(** The value of an unpaused clock projected at wall time [t]:
    [pts_drift + t - (t - last_updated) * (1 - speed)]. *)
Definition projection (clock : Clock.ff_clock_t) (t : double) : double :=
  (Clock.pts_drift clock + t
   - (t - Clock.last_updated clock) * (of_int 1 - Clock.speed clock))%D.

(** Some open stream (index >= 0) has a packet count that satisfies [test]. *)
Definition some_open_stream (player : Player.ff_player_t) (test : Z -> bool) : bool :=
  ((Player.video_stream_index player >=? 0)
   && test (PacketQueue.packet_count (Player.video_packet_queue player)))
  || ((Player.audio_stream_index player >=? 0)
      && test (PacketQueue.packet_count (Player.audio_packet_queue player))).

(** Every open stream has a packet count that satisfies [test]. *)
Definition every_open_stream (player : Player.ff_player_t) (test : Z -> bool) : bool :=
  ((Player.video_stream_index player <? 0)
   || test (PacketQueue.packet_count (Player.video_packet_queue player)))
  && ((Player.audio_stream_index player <? 0)
      || test (PacketQueue.packet_count (Player.audio_packet_queue player))).

(** [sign(x)] as a double: 1, -1, or the zero or NaN [x] is. *)
Definition sign (x : double) : double :=
  if (x >? of_int 0)%D then of_int 1
  else if (x <? of_int 0)%D then of_int (-1)
  else x.

(** The speed of the external clock after [check_external_clock_speed], as
    the design document words it: streams below [EXTERNAL_CLOCK_MIN_FRAMES]
    slow the clock down. *)
Definition external_speed_as_worded (player : Player.ff_player_t) : double :=
  let speed := Clock.speed (Player.external_clock player) in
  if some_open_stream player (fun n => n <? Player.EXTERNAL_CLOCK_MIN_FRAMES) then
    max Player.EXTERNAL_CLOCK_SPEED_MIN (speed - Player.EXTERNAL_CLOCK_SPEED_STEP)%D
  else if every_open_stream player (fun n => n >? Player.EXTERNAL_CLOCK_MAX_FRAMES) then
    FFMIN Player.EXTERNAL_CLOCK_SPEED_MAX (speed + Player.EXTERNAL_CLOCK_SPEED_STEP)%D
  else if eq speed (of_int 1) then speed
  else (speed + Player.EXTERNAL_CLOCK_SPEED_STEP * sign (of_int 1 - speed))%D.

(** A queue has "enough" packets as the design document words it in its
    section on the packet queue: more than 10 packets, and a queued duration
    that translates to more than 1 s of media. *)
Definition enough_as_worded (stream : option Player.AVStream)
    (queue : PacketQueue.ff_packet_queue_t) : bool :=
  (PacketQueue.packet_count queue >? 10)
  && match stream with
     | Some st => (Player.av_q2d (Player.time_base st)
                   * of_int (PacketQueue.q_duration queue) >? of_int 1)%D
     | None => false
     end.

(** The aggregate byte size of the two packet queues. *)
Definition aggregate_size (player : Player.ff_player_t) : Z :=
  wrap_size_t (PacketQueue.q_size (Player.audio_packet_queue player)
               + PacketQueue.q_size (Player.video_packet_queue player)).

(** The reader suspends, as worded: the aggregate exceeds 15 MiB or either
    queue has enough packets. *)
Definition suspends_as_worded (player : Player.ff_player_t) : bool :=
  (aggregate_size player >? 15 * 1024 * 1024)
  || enough_as_worded (Player.audio_stream player) (Player.audio_packet_queue player)
  || enough_as_worded (Player.video_stream player) (Player.video_packet_queue player).

(** A stream needs no more packets, as the code decides it: the stream is
    not open, or its queue is aborted, or it is an attached picture, or its
    queue holds more than [MIN_FRAMES] packets whose duration is unknown (0)
    or translates to more than 1 s. *)
Definition stream_is_served (stream : option Player.AVStream) (stream_id : Z)
    (queue : PacketQueue.ff_packet_queue_t) : bool :=
  (stream_id <? 0)
  || PacketQueue.aborted queue
  || match stream with
     | Some st =>
         negb (Z.land (Player.disposition st) Player.AV_DISPOSITION_ATTACHED_PIC =? 0)
         || ((PacketQueue.packet_count queue >? Player.MIN_FRAMES)
             && ((PacketQueue.q_duration queue =? 0)
                 || (Player.av_q2d (Player.time_base st)
                     * of_int (PacketQueue.q_duration queue) >? of_int 1)%D))
     | None => false
     end.

(** An open stream (index >= 0) has its [AVStream]. *)
Definition streams_present (player : Player.ff_player_t) : Prop :=
  (0 <= Player.audio_stream_index player -> Player.audio_stream player <> None)
  /\ (0 <= Player.video_stream_index player -> Player.video_stream player <> None).

(** [round(x)]: the nearest integer, halves away from zero. *)
Definition round_nearest (x : double) : Z :=
  match x with
  | S754_finite s m e =>
      cond_Zopp s
        (match e with
         | Z0 => Zpos m
         | Zpos p => Z.shiftl (Zpos m) (Zpos p)
         | Zneg p => Z.shiftr (Zpos m + 2 ^ (Zpos p - 1)) (Zpos p)
         end)
  | _ => 0
  end.

(** The sample count the design document words for a corrected frame: the
    nominal count adjusted by [round(diff * source_sample_rate)], clamped to
    90%..110% of the nominal count. *)
Definition wanted_samples_as_worded (sample_count : Z) (diff : double) (freq : Z) : Z :=
  Player.av_clip (sample_count + round_nearest (diff * of_int freq)%D)
    (sample_count * 90 / 100) (sample_count * 110 / 100).

(** The codec reported end of stream to [avcodec_receive_frame]. *)
Definition eof_reported (l : list Decoder.call) : Prop :=
  In (Decoder.avcodec_receive_frame Decoder.AVERROR_EOF) l.

(** Where a run of [ff_decoder_decode] may stand with respect to end of
    stream. While it runs, and when it stops for another reason, no end of
    stream has been reported. When it returns 0, the report of end of stream
    and the flush of the codec are the last two calls, and [finished] holds
    the packet serial. *)
Definition eof_handled (o : Decoder.outcome) : Prop :=
  match o with
  | Decoder.Goto _ c =>
      Decoder.ret c <> Decoder.AVERROR_EOF /\ ~ eof_reported (Decoder.calls (Decoder.env c))
  | Decoder.Return v c =>
      (v = 0
       /\ Decoder.finished (Decoder.decoder c) = Decoder.packet_serial (Decoder.decoder c)
       /\ exists before,
           Decoder.calls (Decoder.env c)
           = before ++ [Decoder.avcodec_receive_frame Decoder.AVERROR_EOF;
                        Decoder.avcodec_flush_buffers]
           /\ ~ eof_reported before)
      \/ ((v = -1 \/ v = 1 \/ v = PacketQueue.AVERROR_ENOMEM)
          /\ ~ eof_reported (Decoder.calls (Decoder.env c)))
  | Decoder.Blocked c | Decoder.NoAnswer c =>
      ~ eof_reported (Decoder.calls (Decoder.env c))
  end.

(** The shift record after [k] right shifts of [M]. *)
Definition shifted (M k : Z) (mrs : shr_record) : Prop :=
  exists lo,
    M = shr_m mrs * 2 ^ k + (if shr_r mrs then 2 ^ (k - 1) else 0) + lo
    /\ 0 <= lo
    /\ (lo < 2 ^ (k - 1) \/ lo = 0)
    /\ shr_s mrs = (0 <? lo)
    /\ (k = 0 -> shr_r mrs = false)
    /\ 0 <= shr_m mrs.

(** The outcome of an operation whose exact result, scaled, is [V]: overflow
    of a huge value, or a double within [2^-53] of [V], relatively. *)
Definition rounds_to (z : spec_float) (V : Z) : Prop :=
  (is_finite z = false /\ 2 ^ 2097 <= Z.abs V)
  \/ (is_finite z = true /\ wf z /\ Z.abs (scaled z - V) * 2 ^ 53 <= Z.abs V).

(** A finite double of magnitude below [2^1021]. *)
Definition ordinary (x : double) : Prop :=
  is_finite x = true /\ wf x /\ Z.abs (scaled x) < 2 ^ 2095.

(** [a] is [b] within float epsilon: the same double, or two finite doubles
    that differ by at most two machine epsilons ([2^-51]) of the larger of
    [|b|] and the wall time [|t|] the value was anchored to. *)
Definition within_epsilon (a b t : double) : Prop :=
  a = b
  \/ (is_finite a = true /\ is_finite b = true
      /\ 2 ^ 51 * Z.abs (scaled a - scaled b)
         <= Z.max (Z.abs (scaled b)) (Z.abs (scaled t))).

(** A finite double above zero. *)
Definition positive_finite (x : double) : Prop :=
  exists m e, x = S754_finite false m e.

End Spec.
Import Spec.

(** ** Sample states *)

Module Sample.
Import PacketQueue Player.

(** A wall-clock reading: 100 s after the origin of the monotonic clock. *)
Definition t100 : Z := 100000000.

(** A started, empty packet queue (serial 1). *)
Definition started_queue : ff_packet_queue_t :=
  {| packets := []; packet_count := 0; q_size := 0; q_duration := 0;
     aborted := false; q_serial := 1 |}.

(** A running clock bound to the queue of stream [k], set to [pts] at
    [t100] under serial 1. *)
Definition clock_at (k : Clock.stream_kind) (pts : double) : Clock.ff_clock_t :=
  Clock.ff_clock_set (Clock.ff_clock_init (Clock.PtrQueueSerial k) 0) pts 1 t100.

Definition stream_25fps : AVStream :=
  {| time_base := Decoder.mk_rational 1 25; disposition := 0 |}.

(** Audio is the master; the video clock is 200 ms ahead of the audio
    clock. *)
Definition video_ahead : ff_player_t :=
  {| paused := false; realtime := false;
     audio_clock := clock_at Clock.Audio (dec 10 10);
     video_clock := clock_at Clock.Video (dec 12 10);
     external_clock := Clock.ff_clock_init Clock.PtrOwnSerial 0;
     av_sync_type := FF_AV_SYNC_AUDIO_MASTER;
     audio_stream_index := 1; video_stream_index := 0;
     audio_stream := Some stream_25fps; video_stream := Some stream_25fps;
     audio_packet_queue := started_queue; video_packet_queue := started_queue;
     audio_diff_cum := of_int 0;
     audio_diff_avg_coef := dec 794328234724281 1000000000000000;
     audio_diff_threshold := dec 8192 176400;
     audio_diff_avg_count := 0;
     audio_source_freq := 44100;
     max_frame_duration := of_int 3600 |}.

(** The external clock after a seek by bytes: the reader resets it with
    [ff_clock_set(&player->external_clock, NAN, 0)]. *)
Definition byte_seek : list Clock.clock_call := [Clock.call_set NAN 0 t100].

Definition external_clock_after_byte_seek : Clock.ff_clock_t :=
  Clock.run_calls (Clock.ff_clock_init Clock.PtrOwnSerial 0) byte_seek.

Definition sample_packet : AVPacket :=
  {| stream_index := 0; size := 1000; duration := 40; pos := 4096;
     has_buf := true; opaque_ref := None |}.

(** A queue as [ff_packet_queue_create] returns it. *)
Definition fresh_queue : ff_packet_queue_t :=
  {| packets := []; packet_count := 0; q_size := 0; q_duration := 0;
     aborted := true; q_serial := 0 |}.

(** Start, two packets in, a seek (flush), one more packet. *)
Definition sample_history : list queue_op :=
  [op_start; op_put sample_packet true 0; op_put sample_packet true 0;
   op_flush; op_put sample_packet true 0].

(** An aborted queue that still holds a packet. *)
Definition aborted_with_packet : ff_packet_queue_t :=
  run_ops fresh_queue [op_start; op_put sample_packet true 0; op_abort].

(** A queue that holds [n] video packets of [sample_packet]'s size. *)
Definition queue_of (n : nat) : ff_packet_queue_t :=
  run_ops fresh_queue (op_start :: repeat (op_put sample_packet true 0) n).

(** A realtime source played on the external clock at speed 1.0, with two
    video packets and five audio packets queued. *)
Definition realtime_at_min_frames : ff_player_t :=
  {| paused := false; realtime := true;
     audio_clock := clock_at Clock.Audio (dec 10 10);
     video_clock := clock_at Clock.Video (dec 10 10);
     external_clock :=
       Clock.ff_clock_set (Clock.ff_clock_init Clock.PtrOwnSerial 0) (dec 10 10) 1 t100;
     av_sync_type := FF_AV_SYNC_EXTERNAL_CLOCK;
     audio_stream_index := 1; video_stream_index := 0;
     audio_stream := Some stream_25fps; video_stream := Some stream_25fps;
     audio_packet_queue := queue_of 5; video_packet_queue := queue_of 2;
     audio_diff_cum := of_int 0;
     audio_diff_avg_coef := dec 794328234724281 1000000000000000;
     audio_diff_threshold := dec 8192 176400;
     audio_diff_avg_count := 0;
     audio_source_freq := 44100;
     max_frame_duration := of_int 3600 |}.

(** Twelve audio packets (19.2 s at the 1/25 time base) are queued, the
    video queue is empty and waits for data. *)
Definition video_starved : ff_player_t :=
  {| paused := false; realtime := false;
     audio_clock := clock_at Clock.Audio (dec 10 10);
     video_clock := clock_at Clock.Video (dec 10 10);
     external_clock := Clock.ff_clock_init Clock.PtrOwnSerial 0;
     av_sync_type := FF_AV_SYNC_AUDIO_MASTER;
     audio_stream_index := 1; video_stream_index := 0;
     audio_stream := Some stream_25fps; video_stream := Some stream_25fps;
     audio_packet_queue := queue_of 12; video_packet_queue := queue_of 0;
     audio_diff_cum := of_int 0;
     audio_diff_avg_coef := dec 794328234724281 1000000000000000;
     audio_diff_threshold := dec 8192 176400;
     audio_diff_avg_count := 0;
     audio_source_freq := 44100;
     max_frame_duration := of_int 3600 |}.

(** Video is the master. The audio clock is 0.58 ms ahead of it after a
    stretch of larger drift: twenty observations are in, and with this one
    folded in the running sum averages to about 39 ms, above the 5.8 ms
    threshold of a 1024-byte device buffer at 176400 bytes per second. *)
Definition audio_drifting : ff_player_t :=
  {| paused := false; realtime := false;
     audio_clock := clock_at Clock.Audio (dec 100058 100000);
     video_clock := clock_at Clock.Video (dec 10 10);
     external_clock := Clock.ff_clock_init Clock.PtrOwnSerial 0;
     av_sync_type := FF_AV_SYNC_VIDEO_MASTER;
     audio_stream_index := 1; video_stream_index := 0;
     audio_stream := Some stream_25fps; video_stream := Some stream_25fps;
     audio_packet_queue := started_queue; video_packet_queue := started_queue;
     audio_diff_cum := dec 24 100;
     audio_diff_avg_coef := dec 794328234724281 1000000000000000;
     audio_diff_threshold := dec 1024 176400;
     audio_diff_avg_count := 20;
     audio_source_freq := 44100;
     max_frame_duration := of_int 3600 |}.

(** A stand-in for [av_rescale_q] that rounds down. *)
Definition rescale_down (a : Z) (bq cq : Decoder.AVRational) : Z :=
  a * (Decoder.num bq * Decoder.den cq) / (Decoder.den bq * Decoder.num cq).

Definition blank_frame : Decoder.AVFrame := Decoder.mk_frame 0 0 0 0 0.

(** A video decoder that has consumed the packets of serial 1, the null
    packet included. *)
Definition draining_decoder : Decoder.ff_decoder_t :=
  {| Decoder.packet := blank_packet;
     Decoder.codec_context :=
       Decoder.mk_codec_context Decoder.AVMEDIA_TYPE_VIDEO (Decoder.mk_rational 1 25);
     Decoder.packet_serial := 1;
     Decoder.finished := 0;
     Decoder.packet_pending := false;
     Decoder.start_pts := Decoder.AV_NOPTS_VALUE;
     Decoder.start_pts_time_base := Decoder.mk_rational 0 0;
     Decoder.next_pts := 0;
     Decoder.next_pts_tb := Decoder.mk_rational 0 0;
     Decoder.reorder_pts := true |}.

(** The reader has queued the null packet. The codec wants input, takes
    the null packet and then reports end of stream. *)
Definition end_of_stream : Decoder.world :=
  {| Decoder.queue :=
       run_ops fresh_queue [op_start; op_put_nullpacket blank_packet 0 true 0];
     Decoder.others := [];
     Decoder.receive_answers :=
       [(Decoder.AVERROR_EAGAIN, blank_frame); (Decoder.AVERROR_EOF, blank_frame)];
     Decoder.send_answers := [0];
     Decoder.alloc_answers := [];
     Decoder.calls := [] |}.

(** An external clock anchored at 5.1 s at [t100] and slowed to 0.999, and
    a reading of the wall clock 733333 microseconds later. *)
Definition slowed_clock : Clock.ff_clock_t :=
  Clock.ff_clock_set_speed (fun _ => 1)
    (Clock.ff_clock_set (Clock.ff_clock_init Clock.PtrOwnSerial 0) (dec 51 10) 1 t100)
    (dec 999 1000) t100 t100.

Definition later : Z := 100733333.

End Sample.

(** ** Further sample states *)

Module Demo.
Import PacketQueue Player FrameQueue.

(** A decoded picture of serial 1 shown for 40 ms from [n] seconds on. *)
Definition picture (n : Z) : ff_frame_t :=
  {| base := DataFrame Sample.blank_frame; serial := 1; pts := of_int n;
     duration := dec 4 100; pos := 4096 * n; width := 640; height := 480;
     format := 0; sample_aspect_ratio := Decoder.mk_rational 1 1;
     uploaded := false; flip_v := 0 |}.

(** The picture queue as [frame_queues_init] creates it: three slots,
    the last shown frame kept. *)
Definition fresh_pictures : ff_frame_queue_t :=
  {| frames := repeat (with_base zero_frame EmptyFrame) 3 ++ repeat zero_frame 13;
     rindex := 0; windex := 0; size := 0; max_size := 3; keep_last := true;
     rindex_shown := 0 |}.

(** Two pictures in, one shown, a third in, the next shown. *)
Definition picture_history : list frame_op :=
  [fop_write (picture 1); fop_write (picture 2); fop_next;
   fop_write (picture 3); fop_next].

Definition pictures_after : ff_frame_queue_t :=
  match run_frame_ops fresh_pictures picture_history with
  | Some queue => queue
  | None => fresh_pictures
  end.

(** An external clock that runs at speed 1 and was never given a value,
    and a video clock set to 7.5 s at [Sample.t100]. *)
Definition unset_external_clock : Clock.ff_clock_t :=
  Clock.ff_clock_init Clock.PtrOwnSerial 0.

Definition video_clock_7s : Clock.ff_clock_t :=
  Sample.clock_at Clock.Video (dec 75 10).

(** A decoder whose packets are of an older serial than its queue, with
    a packet that the codec has refused still pending, and the world it
    lives in once the queue is aborted. *)
Definition stale_decoder : Decoder.ff_decoder_t :=
  {| Decoder.packet := Sample.sample_packet;
     Decoder.codec_context :=
       Decoder.mk_codec_context Decoder.AVMEDIA_TYPE_VIDEO (Decoder.mk_rational 1 25);
     Decoder.packet_serial := 0;
     Decoder.finished := 0;
     Decoder.packet_pending := true;
     Decoder.start_pts := Decoder.AV_NOPTS_VALUE;
     Decoder.start_pts_time_base := Decoder.mk_rational 0 0;
     Decoder.next_pts := 0;
     Decoder.next_pts_tb := Decoder.mk_rational 0 0;
     Decoder.reorder_pts := true |}.

Definition aborted_world : Decoder.world :=
  {| Decoder.queue := run_ops Sample.fresh_queue [op_start; op_abort; op_flush];
     Decoder.others := [];
     Decoder.receive_answers := [(0, Sample.blank_frame)];
     Decoder.send_answers := [0];
     Decoder.alloc_answers := [true];
     Decoder.calls := [] |}.

(** Three chapters that start at 0 s, 60 s and 120 s, in milliseconds, and
    a comparison of timestamps that is exact for them. *)
Definition chapters : list Seek.AVChapter :=
  [Seek.mk_chapter 0 (Decoder.mk_rational 1 1000);
   Seek.mk_chapter 60000 (Decoder.mk_rational 1 1000);
   Seek.mk_chapter 120000 (Decoder.mk_rational 1 1000)].

Definition compare_ts (a : Z) (a_tb : Decoder.AVRational) (b : Z) (b_tb : Decoder.AVRational)
    : Z :=
  match a * Decoder.num a_tb * Decoder.den b_tb ?= b * Decoder.num b_tb * Decoder.den a_tb with
  | Lt => -1
  | Eq => 0
  | Gt => 1
  end.

Definition no_seek : Seek.seek_request :=
  {| Seek.seek_req := false; Seek.seek_pos := 0; Seek.seek_rel := 0; Seek.seek_flags := 0 |}.

End Demo.

Module Playback.
Import PacketQueue Player FrameQueue VideoRefresh.

(** The player of [Sample.video_ahead] in the middle of playback: the
    pictures of [pictures_after] are queued, the last frame was due at
    [Sample.t100]. *)
Definition playing : video_refresh_t :=
  {| player := Sample.video_ahead;
     picture_queue := Demo.pictures_after;
     frame_timer := Clock.seconds Sample.t100;
     force_refresh := false;
     step := false;
     read_pause_return := 0 |}.

(** The same player, paused. *)
Definition paused_player : ff_player_t :=
  with_clocks Sample.video_ahead true
    (Clock.store_paused (audio_clock Sample.video_ahead) 1)
    (Clock.store_paused (video_clock Sample.video_ahead) 1)
    (Clock.store_paused (external_clock Sample.video_ahead) 1).

Definition halted : video_refresh_t :=
  {| player := paused_player;
     picture_queue := Demo.pictures_after;
     frame_timer := Clock.seconds Sample.t100;
     force_refresh := false;
     step := false;
     read_pause_return := 0 |}.

(** Every reading of the wall clock is [Sample.later]. *)
Definition frozen_time : nat -> Z := fun _ => Sample.later.

End Playback.

Module Decoded.
Import PacketQueue FrameQueue PictureWriter.

(** A decoded picture of 640 by 480 and the state of the two queues after
    the video thread has queued it, at 1 s and for 40 ms, into the fresh
    picture queue. *)
Definition decoded : picture_t :=
  {| data := Sample.blank_frame; width := 640; height := 480; format := 0;
     sample_aspect_ratio := Decoder.mk_rational 1 1 |}.

Definition queued : shared :=
  match queue_picture Demo.fresh_pictures Sample.started_queue [] (fun s => s) None
          decoded (of_int 1) (dec 4 100) 4096 1 with
  | Some (_, s) => s
  | None => (Demo.fresh_pictures, Sample.started_queue)
  end.

End Decoded.

(** * Properties *)

(** ** Order facts of binary64 *)

Section DoubleOrder.

Lemma SFcompare_antisym (x y : double) :
  SFcompare y x = option_map CompOpp (SFcompare x y).
Proof.
  destruct x as [[]|[]| |[] mx ex], y as [[]|[]| |[] my ey]; simpl; try reflexivity;
    rewrite (Z.compare_antisym ex ey);
    destruct (ex ?= ey); simpl; try reflexivity;
    rewrite (Pos.compare_cont_antisym mx my Eq); simpl;
    try rewrite CompOpp_involutive; reflexivity.
Qed.

Lemma SFcompare_nan (x y : double) :
  SFcompare x y = None <-> isnan x = true \/ isnan y = true.
Proof.
  destruct x as [[]|[]| |[] mx ex], y as [[]|[]| |[] my ey]; simpl;
    split; intros H; try discriminate; auto;
    destruct H; discriminate.
Qed.

(** Between two numbers, [x < y] fails exactly when [x >= y]. *)
Lemma lt_false_ge (x y : double) :
  isnan x = false -> isnan y = false -> lt x y = negb (ge x y).
Proof.
  intros Hx Hy. unfold lt, ge, SFltb, SFleb.
  rewrite (SFcompare_antisym x y).
  destruct (SFcompare x y) as [[]|] eqn:E; simpl; try reflexivity.
  apply SFcompare_nan in E. destruct E; congruence.
Qed.

Lemma gt_false_le (x y : double) :
  isnan x = false -> isnan y = false -> gt x y = negb (le x y).
Proof.
  intros Hx Hy. unfold gt, le. fold (lt y x). fold (ge y x).
  apply lt_false_ge; assumption.
Qed.

Lemma lt_asym (x y : double) : lt x y = true -> lt y x = false.
Proof.
  unfold lt, SFltb. rewrite (SFcompare_antisym x y).
  destruct (SFcompare x y) as [[]|]; simpl; congruence.
Qed.

(** [<] is transitive on the whole of [spec_float]. *)
Lemma lt_trans (x y z : double) : lt x y = true -> lt y z = true -> lt x z = true.
Proof.
  unfold lt, SFltb.
  destruct x as [[]|[]| |[] mx ex], y as [[]|[]| |[] my ey], z as [[]|[]| |[] mz ez];
    simpl; try discriminate; try reflexivity;
    rewrite ?Pos.compare_cont_spec; simpl;
    destruct (Z.compare_spec ex ey), (Z.compare_spec ey ez), (Z.compare_spec ex ez);
    simpl; try discriminate; try reflexivity; try lia; subst;
    destruct (Pos.compare_spec mx my), (Pos.compare_spec my mz), (Pos.compare_spec mx mz);
    simpl; try discriminate; try reflexivity; lia.
Qed.

(** Two numbers that compare equal, one of them finite and non-zero, are
    the same float. *)
Lemma compare_Eq_finite (x : double) (s : bool) (m : positive) (e : Z) :
  SFcompare x (S754_finite s m e) = Some Eq -> x = S754_finite s m e.
Proof.
  destruct x as [[]|[]| |[] mx ex], s; simpl; try discriminate;
    destruct (Z.compare_spec ex e); try discriminate; subst;
    rewrite Pos.compare_cont_spec; simpl;
    destruct (Pos.compare_spec mx m); simpl; try discriminate; subst; reflexivity.
Qed.

End DoubleOrder.

(** ** Video target delay *)

Section TargetDelay.
Import Player.

Lemma le_true_gt_false (x y : double) : le x y = true -> gt x y = false.
Proof.
  unfold le, gt, SFleb, SFltb. rewrite (SFcompare_antisym x y).
  destruct (SFcompare x y) as [[]|]; simpl; congruence.
Qed.

(** The threshold the code computes is the clamp of the design document
    whenever the delay is a number. *)
Lemma sync_threshold_clamp (d : double) :
  isnan d = false ->
  FFMAX AV_SYNC_THRESHOLD_MIN (FFMIN AV_SYNC_THRESHOLD_MAX d)
  = Spec.clamp d AV_SYNC_THRESHOLD_MIN AV_SYNC_THRESHOLD_MAX.
Proof.
  intros Hd. unfold FFMAX, FFMIN, Spec.clamp, gt. fold (lt d AV_SYNC_THRESHOLD_MIN).
  fold (lt d AV_SYNC_THRESHOLD_MAX). fold (lt AV_SYNC_THRESHOLD_MAX d).
  destruct (lt d AV_SYNC_THRESHOLD_MIN) eqn:Hlo.
  - assert (Hhi : lt d AV_SYNC_THRESHOLD_MAX = true)
      by (apply (lt_trans _ _ _ Hlo); reflexivity).
    rewrite Hhi. fold (lt d AV_SYNC_THRESHOLD_MIN). rewrite Hlo. reflexivity.
  - destruct (lt AV_SYNC_THRESHOLD_MAX d) eqn:Hhi.
    + rewrite (lt_asym _ _ Hhi). reflexivity.
    + destruct (lt d AV_SYNC_THRESHOLD_MAX) eqn:Hlt.
      * fold (lt d AV_SYNC_THRESHOLD_MIN). rewrite Hlo. reflexivity.
      * assert (E : d = AV_SYNC_THRESHOLD_MAX).
        { unfold lt, SFltb in Hlt, Hhi.
          rewrite (SFcompare_antisym d AV_SYNC_THRESHOLD_MAX) in Hhi.
          destruct (SFcompare d AV_SYNC_THRESHOLD_MAX) as [[]|] eqn:E;
            simpl in *; try discriminate.
          - apply (compare_Eq_finite d) in E. exact E.
          - apply SFcompare_nan in E. destruct E as [E|E]; [congruence|discriminate]. }
        rewrite E. reflexivity.
Qed.

Definition positive_finite (x : double) : Prop :=
  exists m e, x = S754_finite false m e.

(** Whatever the delay, NaN included, the threshold of the code is a
    positive finite number. *)
Lemma sync_threshold_positive (d : double) :
  positive_finite (FFMAX AV_SYNC_THRESHOLD_MIN (FFMIN AV_SYNC_THRESHOLD_MAX d)).
Proof.
  unfold FFMAX, FFMIN, gt.
  destruct (SFltb d AV_SYNC_THRESHOLD_MAX) eqn:H1.
  - destruct (SFltb d AV_SYNC_THRESHOLD_MIN) eqn:H2.
    + eexists _, _. reflexivity.
    + destruct d as [[]|[]| |[] m e]; try discriminate; try (eexists _, _; reflexivity).
  - eexists _, _.
    match goal with |- (if ?c then _ else _) = _ => change c with false end.
    reflexivity.
Qed.

Lemma ge_positive_not_le_opp (x t : double) :
  positive_finite t -> ge x t = true -> le x (- t)%D = false.
Proof.
  intros (m & e & ->). unfold ge, le, SFleb.
  destruct x as [[]|[]| |[] mx ex]; simpl; try discriminate; reflexivity.
Qed.

(** With a NaN delay every branch of the code returns NaN. *)
Lemma compute_target_delay_nan (player : ff_player_t) (now_video now_master : Z) :
  compute_target_delay player NAN now_video now_master = NAN.
Proof.
  unfold compute_target_delay.
  repeat match goal with
         | |- context [if ?c then _ else _] => destruct c
         end; reflexivity.
Qed.

Lemma sync_eqb_eq (a b : ff_av_sync_t) : sync_eqb a b = true <-> a = b.
Proof. destruct a, b; simpl; split; intros H; congruence. Qed.

(** C1. [compute_target_delay] returns the nominal delay [d] unchanged when
    the effective master is the video clock, and also when
    [diff = video_clock - master_clock] is NaN or [|diff| >= max_frame_duration];
    otherwise, with [T = clamp(d, 0.04, 0.10)], it returns [max(0, d + diff)]
    when [diff <= -T], [d + diff] when [diff >= T] and [d > 0.10], [2 * d] when
    [diff >= T] and [d <= 0.10], and [d] in every remaining case. The frame
    duration bound of the player is a number (the reader only ever stores 10
    or 3600 in it). *)
Theorem compute_target_delay_cases
    (player : ff_player_t) (d : double) (now_video now_master : Z) :
  isnan (max_frame_duration player) = false ->
  let diff := (Clock.ff_clock_get (live player) (video_clock player) now_video
               - get_master_clock player now_master)%D in
  let T := Spec.clamp d AV_SYNC_THRESHOLD_MIN AV_SYNC_THRESHOLD_MAX in
  let r := compute_target_delay player d now_video now_master in
  (get_master_sync_type player = FF_AV_SYNC_VIDEO_MASTER -> r = d)
  /\ (get_master_sync_type player <> FF_AV_SYNC_VIDEO_MASTER ->
      (isnan diff = true \/ (fabs diff >=? max_frame_duration player)%D = true -> r = d)
      /\ (isnan diff = false ->
          (fabs diff >=? max_frame_duration player)%D = false ->
          ((diff <=? - T)%D = true -> r = Spec.max (of_int 0) (d + diff)%D)
          /\ ((diff >=? T)%D = true -> (d >? AV_SYNC_FRAMEDUP_THRESHOLD)%D = true ->
              r = (d + diff)%D)
          /\ ((diff >=? T)%D = true -> (d <=? AV_SYNC_FRAMEDUP_THRESHOLD)%D = true ->
              r = (of_int 2 * d)%D)
          /\ ((diff <=? - T)%D = false ->
              (diff >=? T)%D && ((d >? AV_SYNC_FRAMEDUP_THRESHOLD)%D
                                 || (d <=? AV_SYNC_FRAMEDUP_THRESHOLD)%D) = false ->
              r = d))).
Proof.
  intros Hmfd diff T r.
  destruct (isnan d) eqn:Hd.
  - (* a NaN delay: the code returns NaN, and no comparison with T holds *)
    assert (d = NAN) by (destruct d; try discriminate; reflexivity). subst d.
    assert (Hr : r = NAN) by apply compute_target_delay_nan.
    assert (HT : T = NAN) by reflexivity.
    rewrite Hr, HT. repeat split; intros; reflexivity.
  - pose proof (sync_threshold_clamp d Hd) as HT. fold T in HT.
    pose proof (sync_threshold_positive d) as Hpos. rewrite HT in Hpos.
    subst r. unfold compute_target_delay. fold diff. rewrite HT.
    split.
    + intros Hm. rewrite Hm. reflexivity.
    + intros Hm.
      destruct (sync_eqb (get_master_sync_type player) FF_AV_SYNC_VIDEO_MASTER) eqn:E.
      { apply sync_eqb_eq in E. contradiction. }
      simpl negb. cbv iota.
      split.
      * intros [Hnan | Hbig].
        -- rewrite Hnan. reflexivity.
        -- destruct (isnan diff) eqn:Hnan; [reflexivity|].
           rewrite lt_false_ge, Hbig by (destruct diff; try discriminate; assumption).
           reflexivity.
      * intros Hnan Hsmall.
        rewrite Hnan, lt_false_ge, Hsmall by (destruct diff; try discriminate; assumption).
        simpl negb. simpl andb. cbv iota.
        repeat split.
        -- intros H1. rewrite H1. reflexivity.
        -- intros H2 H3. rewrite (ge_positive_not_le_opp _ _ Hpos H2), H2, H3. reflexivity.
        -- intros H2 H3.
           rewrite (ge_positive_not_le_opp _ _ Hpos H2), H2, (le_true_gt_false _ _ H3).
           reflexivity.
        -- intros H1 H4. rewrite H1.
           destruct (diff >=? T)%D eqn:H2; [|reflexivity].
           simpl in H4. apply orb_false_iff in H4. destruct H4 as [H4 H5].
           rewrite gt_false_le in H4 by (try assumption; reflexivity).
           rewrite H5 in H4. discriminate.
Qed.

Lemma compute_target_delay_cases_witness :
  compute_target_delay Sample.video_ahead (dec 4 100) Sample.t100 Sample.t100
  = (of_int 2 * dec 4 100)%D.
Proof.
  pose proof (compute_target_delay_cases Sample.video_ahead (dec 4 100)
                Sample.t100 Sample.t100) as H.
  assert (Hmfd : isnan (max_frame_duration Sample.video_ahead) = false) by reflexivity.
  destruct (H Hmfd) as [_ H1].
  assert (Hm : get_master_sync_type Sample.video_ahead <> FF_AV_SYNC_VIDEO_MASTER)
    by (vm_compute; discriminate).
  destruct (H1 Hm) as [_ H2].
  assert (Hnan : isnan (Clock.ff_clock_get (live Sample.video_ahead)
                          (video_clock Sample.video_ahead) Sample.t100
                        - get_master_clock Sample.video_ahead Sample.t100)%D = false)
    by (vm_compute; reflexivity).
  assert (Hsmall : (fabs (Clock.ff_clock_get (live Sample.video_ahead)
                            (video_clock Sample.video_ahead) Sample.t100
                          - get_master_clock Sample.video_ahead Sample.t100)
                    >=? max_frame_duration Sample.video_ahead)%D = false)
    by (vm_compute; reflexivity).
  destruct (H2 Hnan Hsmall) as (_ & _ & H3 & _).
  apply H3; vm_compute; reflexivity.
Defined.

End TargetDelay.


(** ** Reading a clock *)

Section ClockGet.
Import Clock.

(** A clock whose value is NaN reads NaN, whatever the serials, the pause
    flag and the time. *)
Lemma ff_clock_get_unset (live : serials) (clock : ff_clock_t) (now : Z) :
  pts clock = NAN -> pts_drift clock = NAN -> ff_clock_get live clock now = NAN.
Proof.
  intros Hpts Hdrift. unfold ff_clock_get.
  destruct (negb (deref live clock =? serial clock)); [reflexivity|].
  destruct (truthy (paused clock)); [assumption|].
  rewrite Hdrift. reflexivity.
Qed.

(** Calls that do not set the clock keep its value NaN. *)
Lemma never_set_keeps_nan (ks : list clock_call) (clock : ff_clock_t) :
  never_set ks = true -> pts clock = NAN -> pts_drift clock = NAN ->
  pts (run_calls clock ks) = NAN /\ pts_drift (run_calls clock ks) = NAN.
Proof.
  revert clock. induction ks as [|k ks IH]; intros clock Hks Hpts Hdrift.
  - split; assumption.
  - simpl in Hks. apply andb_true_iff in Hks. destruct Hks as [Hk Hks].
    simpl. apply IH; [assumption| |];
      destruct k; try discriminate Hk; simpl;
      try assumption;
      rewrite (ff_clock_get_unset _ _ _ Hpts Hdrift); reflexivity.
Qed.

(** C2, as the code has it. [ff_clock_get] returns NaN whenever the stored
    serial differs from the live [*queue_serial], and whenever the clock was
    never set since [ff_clock_init]; when the serials agree it returns the
    stored [pts] if the clock is paused, and otherwise the projection
    [pts_drift + t - (t - last_updated) * (1 - speed)] at the current wall
    time [t]. *)
Theorem ff_clock_get_cases
    (ptr : serial_ptr) (now_init : Z) (ks : list clock_call) (live : serials) (now : Z) :
  let clock := run_calls (ff_clock_init ptr now_init) ks in
  let v := ff_clock_get live clock now in
  (deref live clock <> serial clock -> v = NAN)
  /\ (never_set ks = true -> v = NAN)
  /\ (deref live clock = serial clock ->
      (paused clock <> 0 -> v = pts clock)
      /\ (paused clock = 0 -> v = Spec.projection clock (seconds now))).
Proof.
  intros clock v. subst v. split; [|split; [|intros Hs; split]].
  - intros H. unfold ff_clock_get.
    apply Z.eqb_neq in H. rewrite H. reflexivity.
  - intros H. apply ff_clock_get_unset;
      apply (never_set_keeps_nan ks (ff_clock_init ptr now_init) H); reflexivity.
  - intros Hp. unfold ff_clock_get, truthy.
    apply Z.eqb_eq in Hs. apply Z.eqb_neq in Hp. rewrite Hs, Hp. reflexivity.
  - intros Hp. unfold ff_clock_get, truthy.
    apply Z.eqb_eq in Hs. rewrite Hs, Hp. reflexivity.
Qed.

(** C2, as stated, fails: the external clock after a seek by bytes reads
    NaN although its serial is the live one and it has been set. *)
Lemma ff_clock_get_nan_not_only_if :
  let clock := Sample.external_clock_after_byte_seek in
  let live := fun _ : stream_kind => 1 in
  isnan (ff_clock_get live clock Sample.t100) = true
  /\ deref live clock = serial clock
  /\ never_set Sample.byte_seek = false.
Proof. repeat split. Qed.

End ClockGet.


(** ** Packet queue: flush, serial stamps, the unstarted queue *)

Section PacketQueueFacts.
Import PacketQueue.

Lemma wrap_int_id (z : Z) : in_int z -> wrap_int z = z.
Proof.
  unfold in_int, wrap_int, INT_MIN, INT_MAX. intros H.
  rewrite Z.mod_small; lia.
Qed.

Lemma flush_loop_drains (fifo : list packet_t) (freed : list AVPacket) :
  fst (flush_loop fifo freed) = [].
Proof.
  revert freed. induction fifo as [|pkt1 rest IH]; intros freed; simpl.
  - reflexivity.
  - apply IH.
Qed.

(** The loop frees every packet that was queued, oldest first. *)
Lemma flush_loop_frees (fifo : list packet_t) (freed : list AVPacket) :
  snd (flush_loop fifo freed) = freed ++ map base fifo.
Proof.
  revert freed. induction fifo as [|pkt1 rest IH]; intros freed; simpl.
  - symmetry. apply app_nil_r.
  - rewrite IH, <- app_assoc. reflexivity.
Qed.

(** C6. After [ff_packet_queue_flush] the queue holds no packets, its packet
    count, byte size and duration are 0, and its serial is strictly greater
    than before the call. The serial is an [int] that has not reached
    [INT_MAX], where its increment would overflow. *)
Theorem ff_packet_queue_flush_resets (queue : ff_packet_queue_t) :
  in_int (q_serial queue) -> q_serial queue < INT_MAX ->
  let queue' := fst (ff_packet_queue_flush queue) in
  packets queue' = []
  /\ packet_count queue' = 0
  /\ q_size queue' = 0
  /\ q_duration queue' = 0
  /\ q_serial queue < q_serial queue'.
Proof.
  intros Hint Hmax. unfold ff_packet_queue_flush.
  pose proof (flush_loop_drains (packets queue) []) as Hdrain.
  destruct (flush_loop (packets queue) []) as [fifo freed]. simpl in *.
  repeat split; try assumption.
  rewrite wrap_int_id; [lia|]. unfold in_int in *. lia.
Qed.

Lemma ff_packet_queue_flush_resets_witness :
  let queue' := fst (ff_packet_queue_flush Sample.aborted_with_packet) in
  packets queue' = []
  /\ packet_count queue' = 0
  /\ q_size queue' = 0
  /\ q_duration queue' = 0
  /\ q_serial Sample.aborted_with_packet < q_serial queue'.
Proof.
  apply (ff_packet_queue_flush_resets Sample.aborted_with_packet).
  - vm_compute. split; discriminate.
  - vm_compute. reflexivity.
Defined.

Lemma stamps_bounded_mono (ps : list packet_t) (a b : Z) :
  a <= b -> Forall (fun p => serial p <= a) ps -> Forall (fun p => serial p <= b) ps.
Proof.
  intros Hab H. induction H as [|p ps Hp _ IH]; constructor; [lia | exact IH].
Qed.

(** [ff_packet_queue_put] appends the packet stamped with the current
    serial, or leaves the queue as it was. *)
Lemma ff_packet_queue_put_cases (queue : ff_packet_queue_t) (src : AVPacket)
    (alloc_ok : bool) (fifo_ret : Z) :
  let '(r, queue') := ff_packet_queue_put queue src alloc_ok fifo_ret in
  (r = 0 /\ packets queue' = packets queue ++ [mk_packet src (q_serial queue)]
   /\ q_serial queue' = q_serial queue /\ aborted queue = false)
  \/ (r < 0 /\ queue' = queue).
Proof.
  unfold ff_packet_queue_put, packet_queue_put_private.
  destruct alloc_ok; simpl; [|right; split; [reflexivity|reflexivity]].
  destruct (aborted queue) eqn:Ha; [right; split; [lia|reflexivity]|].
  destruct (fifo_ret <? 0) eqn:Hf.
  - right. apply Z.ltb_lt in Hf. split; [exact Hf|reflexivity].
  - left. simpl. repeat split; reflexivity.
Qed.

(** Without a wake-up, [ff_packet_queue_get] removes the oldest packet or
    leaves the queue as it was; the serial stays. *)
Lemma ff_packet_queue_get_cases (queue : ff_packet_queue_t) (block : Z) :
  let queue' := get_queue (ff_packet_queue_get queue block []) in
  q_serial queue' = q_serial queue
  /\ (packets queue' = packets queue \/ packets queue' = tl (packets queue)).
Proof.
  unfold ff_packet_queue_get, get_loop.
  destruct (aborted queue); simpl; [auto|].
  destruct (packets queue) as [|p rest] eqn:E; simpl.
  - destruct (block =? 0); simpl; rewrite E; auto.
  - auto.
Qed.

(** One operation keeps the stamps bounded and never lowers the serial;
    only [start] and [flush] change it. *)
Lemma apply_op_invariant (queue : ff_packet_queue_t) (o : queue_op) :
  0 <= q_serial queue ->
  (bumps_serial o = true -> q_serial queue < INT_MAX) ->
  stamps_bounded queue ->
  stamps_bounded (apply_op queue o)
  /\ q_serial (apply_op queue o)
     = q_serial queue + (if bumps_serial o then 1 else 0).
Proof.
  intros H0 Hmax Hinv. unfold stamps_bounded in *.
  assert (Hwrap : bumps_serial o = true -> wrap_int (q_serial queue + 1) = q_serial queue + 1).
  { intros Hb. apply wrap_int_id. specialize (Hmax Hb).
    unfold in_int, INT_MIN, INT_MAX in *. lia. }
  destruct o; simpl.
  - rewrite (Hwrap eq_refl). split; [|reflexivity].
    apply (stamps_bounded_mono _ (q_serial queue)); [lia|exact Hinv].
  - split; [exact Hinv|lia].
  - unfold ff_packet_queue_flush.
    pose proof (flush_loop_drains (packets queue) []) as Hd.
    destruct (flush_loop (packets queue) []) as [fifo freed]. simpl in *.
    rewrite Hd, (Hwrap eq_refl). split; [constructor|reflexivity].
  - pose proof (ff_packet_queue_put_cases queue src alloc_ok fifo_ret) as H.
    destruct (ff_packet_queue_put queue src alloc_ok fifo_ret) as [r queue']. simpl.
    destruct H as [(_ & Hp & Hs & _) | (_ & ->)]; [|split; [exact Hinv|lia]].
    rewrite Hp, Hs. split; [|lia].
    apply Forall_app. split; [exact Hinv|].
    constructor; [simpl; lia|constructor].
  - unfold ff_packet_queue_put_nullpacket.
    match goal with
    | |- context [ff_packet_queue_put queue ?pk alloc_ok fifo_ret] =>
        pose proof (ff_packet_queue_put_cases queue pk alloc_ok fifo_ret) as H;
        destruct (ff_packet_queue_put queue pk alloc_ok fifo_ret) as [r queue']
    end. simpl.
    destruct H as [(_ & Hp & Hs & _) | (_ & ->)]; [|split; [exact Hinv|lia]].
    rewrite Hp, Hs. split; [|lia].
    apply Forall_app. split; [exact Hinv|].
    constructor; [simpl; lia|constructor].
  - destruct (ff_packet_queue_get_cases queue block) as [Hs [Hp | Hp]];
      rewrite Hs, Hp; split; try lia; try exact Hinv.
    destruct (packets queue) as [|p rest]; simpl; [constructor|].
    inversion Hinv; assumption.
Qed.

Lemma serial_bumps_cons (o : queue_op) (ops : list queue_op) :
  serial_bumps (o :: ops) = (if bumps_serial o then 1 else 0) + serial_bumps ops.
Proof.
  unfold serial_bumps. simpl. destruct (bumps_serial o); simpl length; lia.
Qed.

Lemma serial_bumps_nonneg (ops : list queue_op) : 0 <= serial_bumps ops.
Proof. unfold serial_bumps. lia. Qed.

(** A history keeps the stamps bounded, and the serial counts its starts
    and flushes. *)
Lemma run_ops_invariant (ops : list queue_op) (queue : ff_packet_queue_t) :
  0 <= q_serial queue ->
  q_serial queue + serial_bumps ops <= INT_MAX ->
  stamps_bounded queue ->
  stamps_bounded (run_ops queue ops)
  /\ q_serial (run_ops queue ops) = q_serial queue + serial_bumps ops.
Proof.
  revert queue. induction ops as [|o ops IH]; intros queue H0 Hmax Hinv.
  - simpl. unfold serial_bumps. simpl. split; [exact Hinv|lia].
  - rewrite serial_bumps_cons in Hmax. pose proof (serial_bumps_nonneg ops) as Hn.
    destruct (apply_op_invariant queue o H0) as [Hinv' Hs'];
      [destruct (bumps_serial o); [lia|discriminate] | exact Hinv |].
    simpl. destruct (IH (apply_op queue o)) as [Hinv'' Hs''];
      [destruct (bumps_serial o); lia | destruct (bumps_serial o); lia | exact Hinv' |].
    split; [exact Hinv''|]. rewrite Hs'', Hs', serial_bumps_cons. lia.
Qed.

Lemma ff_packet_queue_create_fresh (calloc_ok fifo_ok mtx_ok cnd_ok : bool)
    (queue : ff_packet_queue_t) :
  ff_packet_queue_create calloc_ok fifo_ok mtx_ok cnd_ok = Some queue ->
  queue = Sample.fresh_queue.
Proof.
  unfold ff_packet_queue_create.
  destruct calloc_ok, fifo_ok, mtx_ok, cnd_ok; intros H; try discriminate.
  injection H as <-. reflexivity.
Qed.

(** C7. In every state a packet queue reaches from [ff_packet_queue_create]
    by a history of operations, each stored packet carries a serial no
    greater than the queue's serial: [put] stamps the packet with the serial
    at enqueue time, and an operation never lowers the serial ([start] and
    [flush] increment it, the others leave it alone), so every operation
    preserves the bound. The history increments the serial at most [INT_MAX]
    times, beyond which the [int] would overflow. *)
Theorem packet_serial_stamps_bounded
    (calloc_ok fifo_ok mtx_ok cnd_ok : bool) (queue0 : ff_packet_queue_t)
    (ops : list queue_op) :
  ff_packet_queue_create calloc_ok fifo_ok mtx_ok cnd_ok = Some queue0 ->
  serial_bumps ops <= INT_MAX ->
  let queue := run_ops queue0 ops in
  stamps_bounded queue
  /\ (forall src alloc_ok fifo_ret,
        fst (ff_packet_queue_put queue src alloc_ok fifo_ret) = 0 ->
        packets (snd (ff_packet_queue_put queue src alloc_ok fifo_ret))
        = packets queue ++ [mk_packet src (q_serial queue)])
  /\ (forall o, (bumps_serial o = true -> q_serial queue < INT_MAX) ->
        q_serial queue <= q_serial (apply_op queue o)
        /\ (q_serial queue < q_serial (apply_op queue o) <-> bumps_serial o = true)
        /\ stamps_bounded (apply_op queue o)).
Proof.
  intros Hc Hmax queue.
  apply ff_packet_queue_create_fresh in Hc. subst queue0.
  destruct (run_ops_invariant ops Sample.fresh_queue) as [Hinv Hs];
    [simpl; lia | simpl; lia | constructor |].
  fold queue in Hinv, Hs. simpl in Hs.
  pose proof (serial_bumps_nonneg ops) as Hn.
  split; [exact Hinv|]. split.
  - intros src alloc_ok fifo_ret Hr.
    pose proof (ff_packet_queue_put_cases queue src alloc_ok fifo_ret) as H.
    destruct (ff_packet_queue_put queue src alloc_ok fifo_ret) as [r queue']. simpl in *.
    destruct H as [(_ & Hp & _) | (Hneg & _)]; [exact Hp|lia].
  - intros o Ho.
    destruct (apply_op_invariant queue o) as [Hinv' Hs']; [lia | exact Ho | exact Hinv |].
    rewrite Hs'. destruct (bumps_serial o); repeat split; try lia; try exact Hinv';
      intros; try reflexivity; try discriminate; lia.
Qed.

Lemma packet_serial_stamps_bounded_witness :
  stamps_bounded (run_ops Sample.fresh_queue Sample.sample_history).
Proof.
  apply (packet_serial_stamps_bounded true true true true Sample.fresh_queue
           Sample.sample_history).
  - reflexivity.
  - vm_compute. discriminate.
Defined.

(** On an aborted queue [ff_packet_queue_get] returns -1 at once: it hands
    out nothing, never waits and leaves the queue as it is, whether or not
    the caller asked to block and whatever is still queued. *)
Lemma ff_packet_queue_get_aborted_at_once (queue : ff_packet_queue_t) (block : Z)
    (wakeups : list (ff_packet_queue_t -> ff_packet_queue_t)) :
  aborted queue = true ->
  ff_packet_queue_get queue block wakeups = mk_get (Some (-1)) None queue 0.
Proof.
  intros Ha. unfold ff_packet_queue_get.
  destruct wakeups; simpl; rewrite Ha; reflexivity.
Qed.

(** On an aborted queue [ff_packet_queue_put] fails and changes nothing. *)
Lemma ff_packet_queue_put_aborted (queue : ff_packet_queue_t) (src : AVPacket)
    (alloc_ok : bool) (fifo_ret : Z) :
  aborted queue = true ->
  fst (ff_packet_queue_put queue src alloc_ok fifo_ret) < 0
  /\ snd (ff_packet_queue_put queue src alloc_ok fifo_ret) = queue.
Proof.
  intros Ha. unfold ff_packet_queue_put, packet_queue_put_private.
  destruct alloc_ok; simpl; [rewrite Ha|]; split; reflexivity.
Qed.

(** A history without [start] leaves the queue aborted. *)
Lemma never_started_aborted (ops : list queue_op) (queue : ff_packet_queue_t) :
  never_started ops = true -> aborted queue = true -> aborted (run_ops queue ops) = true.
Proof.
  revert queue. induction ops as [|o ops IH]; intros queue H Ha; simpl in *.
  - exact Ha.
  - apply andb_true_iff in H. destruct H as [Ho Hops].
    apply IH; [exact Hops|].
    destruct o as [ | | |src ok r|pkt idx ok r|block]; try discriminate Ho; simpl.
    + reflexivity.
    + unfold ff_packet_queue_flush.
      destruct (flush_loop (packets queue) []). exact Ha.
    + rewrite (proj2 (ff_packet_queue_put_aborted queue src ok r Ha)). exact Ha.
    + unfold ff_packet_queue_put_nullpacket.
      match goal with
      | |- context [ff_packet_queue_put queue ?pk ok r] =>
          rewrite (proj2 (ff_packet_queue_put_aborted queue pk ok r Ha))
      end. exact Ha.
    + rewrite ff_packet_queue_get_aborted_at_once by exact Ha. exact Ha.
Qed.

(** C10. A queue returned by [ff_packet_queue_create] starts aborted: before
    the first [ff_packet_queue_start], whatever else was called on it, every
    [ff_packet_queue_put] fails with a negative result and leaves the queue
    (count, size and duration included) unchanged, and every
    [ff_packet_queue_get] returns -1 at once without waiting, with [block = 1]
    too; the latter holds of every aborted queue, with packets still queued
    or not. *)
Theorem unstarted_queue_refuses
    (calloc_ok fifo_ok mtx_ok cnd_ok : bool) (queue0 : ff_packet_queue_t)
    (ops : list queue_op) :
  ff_packet_queue_create calloc_ok fifo_ok mtx_ok cnd_ok = Some queue0 ->
  never_started ops = true ->
  let queue := run_ops queue0 ops in
  aborted queue = true
  /\ (forall src alloc_ok fifo_ret,
        fst (ff_packet_queue_put queue src alloc_ok fifo_ret) < 0
        /\ snd (ff_packet_queue_put queue src alloc_ok fifo_ret) = queue)
  /\ (forall block wakeups,
        ff_packet_queue_get queue block wakeups = mk_get (Some (-1)) None queue 0)
  /\ (forall queued block wakeups,
        aborted queued = true ->
        get_ret (ff_packet_queue_get queued block wakeups) = Some (-1)
        /\ get_waits (ff_packet_queue_get queued block wakeups) = O
        /\ packets (get_queue (ff_packet_queue_get queued block wakeups)) = packets queued).
Proof.
  intros Hc Hops queue.
  apply ff_packet_queue_create_fresh in Hc. subst queue0.
  assert (Hq : aborted queue = true)
    by (apply never_started_aborted; [exact Hops|reflexivity]).
  split; [exact Hq|]. split; [|split].
  - intros src alloc_ok fifo_ret. apply ff_packet_queue_put_aborted. exact Hq.
  - intros block wakeups. apply ff_packet_queue_get_aborted_at_once. exact Hq.
  - intros queued block wakeups Ha.
    rewrite (ff_packet_queue_get_aborted_at_once queued block wakeups Ha).
    repeat split.
Qed.

Lemma unstarted_queue_refuses_witness :
  fst (ff_packet_queue_put
         (run_ops Sample.fresh_queue [op_flush; op_get 1; op_abort])
         Sample.sample_packet true 0) < 0.
Proof.
  apply (unstarted_queue_refuses true true true true Sample.fresh_queue
           [op_flush; op_get 1; op_abort]); reflexivity.
Defined.

End PacketQueueFacts.


(** ** External clock speed control *)

Section ExternalClockSpeed.
Import Player.

Lemma lt_irrefl (x : double) : lt x x = false.
Proof.
  destruct (lt x x) eqn:H; [|reflexivity].
  rewrite (lt_asym _ _ H) in H. discriminate.
Qed.

Lemma FFMAX_not_below (lo x : double) : lt (FFMAX lo x) lo = false.
Proof.
  unfold FFMAX, gt. fold (lt x lo).
  destruct (lt x lo) eqn:H; [apply lt_irrefl|exact H].
Qed.

Lemma FFMIN_not_above (hi x : double) : gt (FFMIN hi x) hi = false.
Proof.
  unfold FFMIN, gt. fold (lt x hi).
  destruct (lt x hi) eqn:H.
  - apply lt_asym. exact H.
  - apply lt_irrefl.
Qed.

(** C4, as the code has it. In [check_external_clock_speed]: if some open
    stream's packet count is at or below [EXTERNAL_CLOCK_MIN_FRAMES] (2), the
    external clock's speed becomes [FFMAX(0.900, speed - 0.001)], which is
    never below 0.900; else if every open stream's count is above
    [EXTERNAL_CLOCK_MAX_FRAMES] (10), it becomes [FFMIN(1.010, speed + 0.001)],
    never above 1.010; otherwise the player is left unchanged when the speed
    is exactly 1.0, and else the speed becomes
    [speed + 0.001 * (1 - speed) / |1 - speed|], one step toward 1.0. *)
Theorem check_external_clock_speed_cases (player : ff_player_t) (now_get now_set : Z) :
  let speed := Clock.speed (external_clock player) in
  let player' := check_external_clock_speed player now_get now_set in
  let speed' := Clock.speed (external_clock player') in
  (Spec.some_open_stream player (fun n => n <=? EXTERNAL_CLOCK_MIN_FRAMES) = true ->
   speed' = FFMAX EXTERNAL_CLOCK_SPEED_MIN (speed - EXTERNAL_CLOCK_SPEED_STEP)%D
   /\ (speed' <? EXTERNAL_CLOCK_SPEED_MIN)%D = false)
  /\ (Spec.some_open_stream player (fun n => n <=? EXTERNAL_CLOCK_MIN_FRAMES) = false ->
      (Spec.every_open_stream player (fun n => n >? EXTERNAL_CLOCK_MAX_FRAMES) = true ->
       speed' = FFMIN EXTERNAL_CLOCK_SPEED_MAX (speed + EXTERNAL_CLOCK_SPEED_STEP)%D
       /\ (speed' >? EXTERNAL_CLOCK_SPEED_MAX)%D = false)
      /\ (Spec.every_open_stream player (fun n => n >? EXTERNAL_CLOCK_MAX_FRAMES) = false ->
          (eq speed (of_int 1) = true -> player' = player)
          /\ (eq speed (of_int 1) = false ->
              speed' = (speed + EXTERNAL_CLOCK_SPEED_STEP * (of_int 1 - speed)
                                / fabs (of_int 1 - speed))%D))).
Proof.
  intros speed player' speed'. subst speed' player'.
  unfold check_external_clock_speed, Spec.some_open_stream, Spec.every_open_stream,
    PacketQueue.ff_packet_queue_get_packet_count.
  split.
  - intros H. rewrite H. simpl. split; [reflexivity|apply FFMAX_not_below].
  - intros H1. rewrite H1. split.
    + intros H2. rewrite H2. simpl. split; [reflexivity|apply FFMIN_not_above].
    + intros H2. rewrite H2. unfold ne, eq. fold speed. split.
      * intros H3. unfold eq in H3. rewrite H3. reflexivity.
      * intros H3. unfold eq in H3. rewrite H3. reflexivity.
Qed.

(** C4, as stated, fails on a stream with exactly two packets queued: the
    wording leaves the speed at 1.0, the code lowers it. *)
Lemma check_external_clock_speed_at_min_frames :
  let player := Sample.realtime_at_min_frames in
  let player' := check_external_clock_speed player Sample.t100 Sample.t100 in
  PacketQueue.packet_count (video_packet_queue player) = 2
  /\ Spec.external_speed_as_worded player = of_int 1
  /\ Clock.speed (external_clock player') = dec 999 1000
  /\ Clock.speed (external_clock player') <> Spec.external_speed_as_worded player.
Proof.
  vm_compute. repeat split. discriminate.
Qed.

End ExternalClockSpeed.


(** ** Reader back-pressure *)

Section Backpressure.
Import Player.

Lemma stream_has_enough_packets_served (stream : option AVStream) (stream_id : Z)
    (queue : PacketQueue.ff_packet_queue_t) :
  (0 <= stream_id -> stream <> None) ->
  stream_has_enough_packets stream stream_id queue
  = Some (Spec.stream_is_served stream stream_id queue).
Proof.
  intros Hs. unfold stream_has_enough_packets, Spec.stream_is_served,
    PacketQueue.ff_packet_queue_get_aborted, PacketQueue.ff_packet_queue_get_packet_count,
    PacketQueue.ff_packet_queue_get_duration.
  destruct (stream_id <? 0) eqn:Hid; [reflexivity|].
  destruct (PacketQueue.aborted queue); [reflexivity|].
  destruct stream as [st|]; [reflexivity|].
  apply Z.ltb_ge in Hid. exfalso. apply (Hs Hid). reflexivity.
Qed.

(** C5, as the code has it. On a tick of its main loop the reader suspends
    (a timed wait of 10 ms on the continue condition variable, then the loop
    restarts) exactly when the aggregate byte size of the two packet queues
    exceeds 15 MiB or both streams are served; otherwise it reads on. A
    stream is served when it is not open, or its queue is aborted, or it is
    an attached picture, or its queue holds more than 10 packets whose
    duration is 0 or translates to more than 1 s of media. *)
Theorem read_thread_backpressure_cases (player : ff_player_t) :
  Spec.streams_present player ->
  let full :=
    (Spec.aggregate_size player >? MAX_QUEUE_SIZE)
    || (Spec.stream_is_served (audio_stream player) (audio_stream_index player)
          (audio_packet_queue player)
        && Spec.stream_is_served (video_stream player) (video_stream_index player)
             (video_packet_queue player)) in
  MAX_QUEUE_SIZE = 15 * 1024 * 1024
  /\ (full = true ->
      read_thread_backpressure player = Some (WaitAndContinue (10 * 1000 * 1000)))
  /\ (full = false -> read_thread_backpressure player = Some ReadOn).
Proof.
  intros [Ha Hv] full. subst full.
  unfold read_thread_backpressure, read_thread_queues_full, Spec.aggregate_size,
    PacketQueue.ff_packet_queue_get_size.
  rewrite (stream_has_enough_packets_served _ _ _ Ha),
    (stream_has_enough_packets_served _ _ _ Hv).
  split; [reflexivity|].
  destruct (_ >? MAX_QUEUE_SIZE); simpl.
  - split; intros H; [reflexivity|discriminate].
  - destruct (Spec.stream_is_served (audio_stream player) _ _); simpl.
    + destruct (Spec.stream_is_served (video_stream player) _ _); simpl;
        split; intros H; try reflexivity; discriminate.
    + split; intros H; [discriminate|reflexivity].
Qed.

Lemma read_thread_backpressure_cases_witness :
  read_thread_backpressure Sample.video_starved = Some ReadOn.
Proof.
  apply (read_thread_backpressure_cases Sample.video_starved).
  - split; intros _; discriminate.
  - vm_compute. reflexivity.
Defined.

(** C5, as stated, fails when one queue alone has enough packets: with
    twelve audio packets queued and none for video the wording suspends the
    reader, the code reads on. *)
Lemma read_thread_reads_on_for_starved_stream :
  Spec.enough_as_worded (audio_stream Sample.video_starved)
    (audio_packet_queue Sample.video_starved) = true
  /\ Spec.suspends_as_worded Sample.video_starved = true
  /\ read_thread_backpressure Sample.video_starved = Some ReadOn.
Proof. vm_compute. repeat split. Qed.

End Backpressure.


(** ** Audio drift correction *)

Section SynchronizeAudio.
Import Player.

(** C3, as the code has it. When the effective master is not the audio
    clock, [synchronize_audio] folds each usable observation
    [diff = audio_clock - master_clock] (a number, below the 10 s no-sync
    threshold in magnitude) into the running sum
    [audio_diff_cum = diff + audio_diff_avg_coef * audio_diff_cum], and resets
    the sum and the count on an unusable one. The first 20 usable
    observations are only counted. From then on, when
    [|audio_diff_cum * (1 - audio_diff_avg_coef)| >= audio_diff_threshold], it
    returns the nominal count plus [diff * source_sample_rate] truncated
    toward zero by the cast to [int], clipped to
    [[count * 90 / 100, count * 110 / 100]]. In every other case, and whenever
    the master is the audio clock, it returns the nominal count. *)
Theorem synchronize_audio_cases
    (player : ff_player_t) (sample_count : Z) (now_audio now_master : Z) :
  let diff := (Clock.ff_clock_get (live player) (audio_clock player) now_audio
               - get_master_clock player now_master)%D in
  let usable := negb (isnan diff) && (fabs diff <? AV_NOSYNC_THRESHOLD)%D in
  let wanted := fst (synchronize_audio player sample_count now_audio now_master) in
  let player' := snd (synchronize_audio player sample_count now_audio now_master) in
  let avg_diff := (audio_diff_cum player' * (of_int 1 - audio_diff_avg_coef player))%D in
  (get_master_sync_type player = FF_AV_SYNC_AUDIO_MASTER ->
   wanted = sample_count /\ player' = player)
  /\ (get_master_sync_type player <> FF_AV_SYNC_AUDIO_MASTER ->
      (usable = false ->
       wanted = sample_count
       /\ audio_diff_cum player' = of_int 0 /\ audio_diff_avg_count player' = 0)
      /\ (usable = true ->
          audio_diff_cum player'
          = (diff + audio_diff_avg_coef player * audio_diff_cum player)%D
          /\ (audio_diff_avg_count player < AUDIO_DIFF_AVG_NB ->
              wanted = sample_count
              /\ audio_diff_avg_count player' = wrap_int (audio_diff_avg_count player + 1))
          /\ (AUDIO_DIFF_AVG_NB <= audio_diff_avg_count player ->
              audio_diff_avg_count player' = audio_diff_avg_count player
              /\ ((fabs avg_diff >=? audio_diff_threshold player)%D = true ->
                  wanted
                  = av_clip
                      (wrap_int (sample_count
                                 + to_int (diff * of_int (audio_source_freq player))%D))
                      (Z.quot (wrap_int (sample_count * 90)) 100)
                      (Z.quot (wrap_int (sample_count * 110)) 100))
              /\ ((fabs avg_diff >=? audio_diff_threshold player)%D = false ->
                  wanted = sample_count)))).
Proof.
  intros diff usable wanted player' avg_diff.
  subst avg_diff wanted player'. unfold synchronize_audio. fold diff. fold usable.
  split.
  - intros Hm. rewrite Hm. simpl. split; reflexivity.
  - intros Hm.
    destruct (sync_eqb (get_master_sync_type player) FF_AV_SYNC_AUDIO_MASTER) eqn:E.
    { apply sync_eqb_eq in E. contradiction. }
    simpl negb. cbv iota. split.
    + intros Hu. rewrite Hu. simpl. repeat split.
    + intros Hu. rewrite Hu.
      destruct (audio_diff_avg_count player <? AUDIO_DIFF_AVG_NB) eqn:Hc.
      * simpl. apply Z.ltb_lt in Hc. split; [reflexivity|]. split.
        -- intros _. split; reflexivity.
        -- intros Hge. lia.
      * apply Z.ltb_ge in Hc. cbn [audio_diff_cum audio_diff_avg_coef audio_diff_threshold
                                    with_audio_diff audio_source_freq].
        destruct (fabs _ >=? audio_diff_threshold player)%D eqn:Ht;
          cbn [fst snd audio_diff_cum audio_diff_avg_count with_audio_diff];
          rewrite ?Ht.
        -- split; [reflexivity|]. split; [intros Hlt; lia|].
           intros _. split; [reflexivity|]. split; [intros _; reflexivity|].
           intros Hf. discriminate.
        -- split; [reflexivity|]. split; [intros Hlt; lia|].
           intros _. split; [reflexivity|]. split; [intros Hf; discriminate|].
           intros _. reflexivity.
Qed.

(** C3, as stated, fails where the product has a fractional part of one
    half or more: for [diff * 44100 = 25.578...] the code adds 25 samples to
    the nominal 1024, rounding would add 26. *)
Lemma synchronize_audio_truncates :
  let player := Sample.audio_drifting in
  let diff := (Clock.ff_clock_get (live player) (audio_clock player) Sample.t100
               - get_master_clock player Sample.t100)%D in
  trunc (diff * of_int (audio_source_freq player))%D = Some 25
  /\ Spec.round_nearest (diff * of_int (audio_source_freq player))%D = 26
  /\ Spec.wanted_samples_as_worded 1024 diff (audio_source_freq player) = 1050
  /\ fst (synchronize_audio player 1024 Sample.t100 Sample.t100) = 1049.
Proof. vm_compute. repeat split. Qed.

End SynchronizeAudio.


(** ** End of stream in the decoder pump *)

Section DecoderEof.
Import PacketQueue Decoder.

Variable av_rescale_q : Z -> AVRational -> AVRational -> Z.

Lemma calls_interleave (w : world) : calls (interleave w) = calls w.
Proof. unfold interleave. destruct (others w); reflexivity. Qed.

Lemma eof_reported_app (l : list call) (k : call) :
  ~ Spec.eof_reported l -> k <> avcodec_receive_frame AVERROR_EOF ->
  ~ Spec.eof_reported (l ++ [k]).
Proof.
  unfold Spec.eof_reported. intros Hl Hk H. apply in_app_or in H.
  destruct H as [H | [H | []]]; [exact (Hl H) | exact (Hk H)].
Qed.

Lemma receive_not_eof (r : Z) :
  (r =? AVERROR_EOF) = false -> avcodec_receive_frame r <> avcodec_receive_frame AVERROR_EOF.
Proof. intros H E. injection E as ->. rewrite Z.eqb_refl in H. discriminate. Qed.

(** What the receive step does once the codec has answered [r]. *)
Lemma receive_answered (d : ff_decoder_t) (r : Z) (f : AVFrame) (w : world) :
  ~ Spec.eof_reported (calls w) ->
  Spec.eof_handled
    (let c := mk_config d r f (record_call w (avcodec_receive_frame r)) in
     if ret c =? AVERROR_EOF then
       Return 0
         (mk_config (with_finished (decoder c) (packet_serial (decoder c)))
            (ret c) (frame c) (record_call (env c) avcodec_flush_buffers))
     else if ret c >=? 0 then Return 1 c
     else if negb (ret c =? AVERROR_EAGAIN) then Goto AtReceive c
     else Goto AtFetch c).
Proof.
  intros Hlog. cbn [ret decoder frame env].
  destruct (r =? AVERROR_EOF) eqn:He.
  - apply Z.eqb_eq in He. subst r. left. split; [reflexivity|]. split; [reflexivity|].
    exists (calls w). split; [|exact Hlog].
    simpl. rewrite <- app_assoc. reflexivity.
  - assert (Hcalls : ~ Spec.eof_reported (calls (record_call w (avcodec_receive_frame r)))).
    { simpl. apply eof_reported_app; [exact Hlog|apply receive_not_eof; exact He]. }
    apply Z.eqb_neq in He.
    destruct (r >=? 0); [right; split; [auto|exact Hcalls]|].
    destruct (negb (r =? AVERROR_EAGAIN)); simpl; split; assumption.
Qed.

Lemma receive_step_eof (c : config) :
  Spec.eof_handled (Goto AtReceive c) -> Spec.eof_handled (receive_step av_rescale_q c).
Proof.
  intros [Hret Hlog]. unfold receive_step.
  pose proof (calls_interleave (env c)) as Hi.
  set (w := interleave (env c)) in *. rewrite <- Hi in Hlog.
  destruct (ff_packet_queue_get_aborted (queue w)).
  { right. split; [auto|exact Hlog]. }
  destruct (codec_type (codec_context (decoder c))).
  - destruct (receive_answers w) as [|[r f] rest]; [exact Hlog|].
    destruct (r >=? 0); apply (receive_answered _ r _
      (mk_world (queue w) (others w) rest (send_answers w) (alloc_answers w) (calls w)));
      exact Hlog.
  - destruct (receive_answers w) as [|[r f] rest]; [exact Hlog|].
    destruct (r >=? 0);
      [destruct (audio_timestamps av_rescale_q (decoder c) f) as [d' f']|];
      apply (receive_answered _ r _
        (mk_world (queue w) (others w) rest (send_answers w) (alloc_answers w) (calls w)));
      exact Hlog.
  - cbn [ret decoder frame env].
    apply Z.eqb_neq in Hret. rewrite Hret. apply Z.eqb_neq in Hret.
    destruct (ret c >=? 0); [right; split; [auto|exact Hlog]|].
    destruct (negb (ret c =? AVERROR_EAGAIN)); split; assumption.
Qed.

Lemma decoder_get_calls (d : ff_decoder_t) (w : world) :
  calls (snd (decoder_get d w)) = calls w.
Proof. unfold decoder_get. simpl. apply calls_interleave. Qed.

Ltac not_eof :=
  repeat first
    [ assumption
    | apply eof_reported_app; [|discriminate]
    | progress cbn [calls record_call env with_queue ret decoder frame] ].

Lemma fetch_step_eof (c : config) :
  Spec.eof_handled (Goto AtFetch c) -> Spec.eof_handled (fetch_step c).
Proof.
  intros [Hret Hlog]. unfold fetch_step.
  pose proof (calls_interleave (env c)) as Hi.
  set (w := interleave (env c)) in *. rewrite <- Hi in Hlog.
  set (w' := if ff_packet_queue_get_packet_count (queue w) =? 0
             then record_call w cnd_signal_empty_queue else w).
  assert (Hw' : ~ Spec.eof_reported (calls w')).
  { subst w'. destruct (_ =? 0); not_eof. }
  clearbody w'.
  destruct (packet_pending (decoder c)).
  - cbn [env decoder ret frame]. rewrite <- (calls_interleave w') in Hw'.
    destruct (_ =? _); cbn; split; assumption.
  - pose proof (decoder_get_calls (decoder c) w') as Hg.
    destruct (decoder_get (decoder c) w') as [[r d] w'']. simpl in Hg.
    rewrite <- Hg in Hw'.
    destruct r as [r|]; [|exact Hw'].
    destruct (r <? 0); [right; split; [auto|exact Hw']|].
    destruct (negb (packet_serial (decoder c) =? packet_serial d));
      cbn [env decoder ret frame];
      match goal with
      | |- context [interleave ?x] =>
          pose proof (calls_interleave x) as Hi';
          assert (Hx : ~ Spec.eof_reported (calls (interleave x)))
            by (rewrite Hi'; not_eof)
      end;
      destruct (_ =? _); cbn; split; assumption.
Qed.

Lemma send_step_eof (c : config) :
  Spec.eof_handled (Goto AtSend c) -> Spec.eof_handled (send_step c).
Proof.
  intros [Hret Hlog]. unfold send_step.
  destruct (has_buf (packet (decoder c))
            && match opaque_ref (packet (decoder c)) with
               | None => true
               | Some _ => false
               end).
  - destruct (alloc_answers (env c)) as [|ok rest]; [exact Hlog|].
    destruct ok; [|right; split; [auto|exact Hlog]].
    cbn [env decoder ret frame send_answers calls].
    destruct (send_answers (env c)) as [|r rest']; [exact Hlog|].
    destruct (r =? AVERROR_EAGAIN); cbn; split; not_eof.
  - destruct (send_answers (env c)) as [|r rest']; [exact Hlog|].
    destruct (r =? AVERROR_EAGAIN); cbn; split; not_eof.
Qed.

Lemma step_eof (p : point) (c : config) :
  Spec.eof_handled (Goto p c) -> Spec.eof_handled (step av_rescale_q p c).
Proof.
  intros H. destruct p; simpl.
  - destruct H as [Hret Hlog]. rewrite <- (calls_interleave (env c)) in Hlog.
    destruct (_ =? _); split; assumption.
  - apply receive_step_eof. exact H.
  - apply fetch_step_eof. exact H.
  - apply send_step_eof. exact H.
Qed.

Lemma run_eof (fuel : nat) (p : point) (c : config) :
  Spec.eof_handled (Goto p c) -> Spec.eof_handled (run av_rescale_q fuel p c).
Proof.
  revert p c. induction fuel as [|fuel IH]; intros p c H; simpl.
  - exact H.
  - pose proof (step_eof p c H) as Hs.
    destruct (step av_rescale_q p c) as [v c'|p' c'|c'|c']; try exact Hs.
    apply IH. exact Hs.
Qed.

(** C8. Whenever the codec reports end of stream to the receive phase of
    [ff_decoder_decode], the decoder sets [finished] to the current packet
    serial, flushes the codec's buffers and returns 0: a run in which end of
    stream was reported has returned 0 with these two calls as its last. End
    of stream is never surfaced as an error: the function only ever returns
    -1, 0, 1 or [AVERROR(ENOMEM)]. *)
Theorem ff_decoder_decode_eof
    (fuel : nat) (d : ff_decoder_t) (frame0 : AVFrame) (w : world) :
  calls w = [] ->
  let o := ff_decoder_decode av_rescale_q fuel d frame0 w in
  (Spec.eof_reported (calls (env (config_of o))) ->
   exists c before,
     o = Return 0 c
     /\ finished (decoder c) = packet_serial (decoder c)
     /\ calls (env c)
        = before ++ [avcodec_receive_frame AVERROR_EOF; avcodec_flush_buffers])
  /\ (forall v c, o = Return v c ->
        v <> AVERROR_EOF /\ (v = -1 \/ v = 0 \/ v = 1 \/ v = AVERROR_ENOMEM)).
Proof.
  intros Hw o.
  assert (H : Spec.eof_handled o).
  { apply run_eof. split; [discriminate|]. simpl. rewrite Hw. intros []. }
  clearbody o. split.
  - intros Hlog. destruct o as [v c|p c|c|c]; simpl in *.
    + destruct H as [(-> & Hf & before & Hc & _) | (_ & Hn)]; [|contradiction].
      exists c, before. repeat split; assumption.
    + destruct H as [_ Hn]. contradiction.
    + contradiction.
    + contradiction.
  - intros v c ->. simpl in H.
    destruct H as [(-> & _) | ([-> | [-> | ->]] & _)];
      (split; [discriminate|auto]).
Qed.

End DecoderEof.

Lemma ff_decoder_decode_eof_witness :
  exists c before,
    Decoder.ff_decoder_decode Sample.rescale_down 8 Sample.draining_decoder
      Sample.blank_frame Sample.end_of_stream
    = Decoder.Return 0 c
    /\ Decoder.finished (Decoder.decoder c) = Decoder.packet_serial (Decoder.decoder c)
    /\ Decoder.calls (Decoder.env c)
       = before ++ [Decoder.avcodec_receive_frame Decoder.AVERROR_EOF;
                    Decoder.avcodec_flush_buffers].
Proof.
  apply (ff_decoder_decode_eof Sample.rescale_down 8 Sample.draining_decoder
           Sample.blank_frame Sample.end_of_stream).
  - reflexivity.
  - vm_compute. tauto.
Defined.


(** ** Rounding of binary64 addition and subtraction *)

Section Rounding.
Import Spec.

Lemma pow2_pred (d : Z) : 0 < d -> 2 ^ d = 2 * 2 ^ (d - 1).
Proof.
  intros H. replace d with (Z.succ (d - 1)) at 1 by lia.
  rewrite Z.pow_succ_r by lia. reflexivity.
Qed.

Lemma digits2_pos_bounds (m : positive) :
  2 ^ (Zpos (digits2_pos m) - 1) <= Zpos m < 2 ^ Zpos (digits2_pos m).
Proof.
  induction m as [m IH|m IH|]; cbn [digits2_pos].
  - rewrite Pos2Z.inj_succ.
    replace (Z.succ (Zpos (digits2_pos m)) - 1) with (Zpos (digits2_pos m)) by lia.
    rewrite Z.pow_succ_r by lia.
    rewrite (pow2_pred (Zpos (digits2_pos m))) in * by lia. lia.
  - rewrite Pos2Z.inj_succ.
    replace (Z.succ (Zpos (digits2_pos m)) - 1) with (Zpos (digits2_pos m)) by lia.
    rewrite Z.pow_succ_r by lia.
    rewrite (pow2_pred (Zpos (digits2_pos m))) in * by lia. lia.
  - simpl. lia.
Qed.

(** The number of digits is determined by the bounds. *)
Lemma digits2_pos_unique (m : positive) (d : Z) :
  2 ^ (d - 1) <= Zpos m < 2 ^ d -> Zpos (digits2_pos m) = d.
Proof.
  intros [Hlo Hhi]. pose proof (digits2_pos_bounds m) as [Hlo' Hhi'].
  assert (0 < d).
  { destruct (Z_lt_le_dec 0 d); [assumption|]. 
    assert (2 ^ d <= 2 ^ 0) by (destruct (Z.eq_dec d 0); [subst; lia|rewrite Z.pow_neg_r by lia; simpl; lia]).
    simpl in *. lia. }
  destruct (Z.lt_trichotomy (Zpos (digits2_pos m)) d) as [H1|[H1|H1]]; [|assumption|].
  - assert (2 ^ Zpos (digits2_pos m) <= 2 ^ (d - 1)) by (apply Z.pow_le_mono_r; lia). lia.
  - assert (2 ^ d <= 2 ^ (Zpos (digits2_pos m) - 1)) by (apply Z.pow_le_mono_r; lia). lia.
Qed.

Lemma iter_xO_value (m : positive) (k : positive) :
  Zpos (Pos.iter xO m k) = Zpos m * 2 ^ Zpos k.
Proof.
  revert m. induction k using Pos.peano_ind; intros m.
  - simpl. lia.
  - rewrite Pos.iter_succ, Pos2Z.inj_xO, IHk, Pos2Z.inj_succ, Z.pow_succ_r by lia. lia.
Qed.

Lemma shifted_0 (M : Z) : 0 <= M -> shifted M 0 (Build_shr_record M false false).
Proof.
  intros H. exists 0. simpl. repeat split; lia.
Qed.

Lemma shr_1_shifted (M k : Z) (mrs : shr_record) :
  0 <= k -> shifted M k mrs -> shifted M (k + 1) (shr_1 mrs).
Proof.
  intros Hk (lo & HM & Hlo & Hlt & Hs & Hr & Hm).
  destruct mrs as [m r s]. cbn [shr_m shr_r shr_s] in *.
  assert (Hpow : 2 ^ (k + 1) = 2 * 2 ^ k) by (rewrite Z.pow_add_r, Z.pow_1_r by lia; lia).
  assert (Hp : 0 < 2 ^ k) by (apply Z.pow_pos_nonneg; lia).
  set (h := if r then 2 ^ (k - 1) else 0) in *.
  assert (Hh : h + lo < 2 ^ k /\ 0 <= h /\ (r = true -> 0 < h)).
  { subst h. destruct (Z.eq_dec k 0) as [->|Hk0].
    - rewrite (Hr eq_refl). simpl in *. split; [lia|]. split; [lia|discriminate].
    - pose proof (pow2_pred k ltac:(lia)) as Hkk.
      assert (0 < 2 ^ (k - 1)) by (apply Z.pow_pos_nonneg; lia).
      destruct r; split; try split; try lia; auto. }
  destruct Hh as (Hh1 & Hh2 & Hh3).
  assert (Hs' : (r || s)%bool = (0 <? h + lo)).
  { destruct r; simpl.
    - specialize (Hh3 eq_refl). symmetry. apply Z.ltb_lt. lia.
    - rewrite Hs. subst h. reflexivity. }
  clearbody h.
  exists (h + lo). replace (k + 1 - 1) with k by lia. rewrite Hpow.
  set (X := 2 ^ k) in *. clearbody X. clear Hr Hlt Hs Hh3 Hpow.
  destruct m as [|[p|p|]|p]; cbn [shr_1 shr_m shr_r shr_s]; rewrite Hs';
    try rewrite Pos2Z.inj_xI in HM; try rewrite Pos2Z.inj_xO in HM.
  - split; [lia|]. split; [lia|]. split; [left; lia|]. split; [reflexivity|]. split; lia.
  - split; [lia|]. split; [lia|]. split; [left; lia|]. split; [reflexivity|]. split; lia.
  - split; [lia|]. split; [lia|]. split; [left; lia|]. split; [reflexivity|]. split; lia.
  - split; [lia|]. split; [lia|]. split; [left; lia|]. split; [reflexivity|]. split; lia.
  - lia.
Qed.

Lemma iter_pos_shifted (p : positive) (M k : Z) (mrs : shr_record) :
  0 <= k -> shifted M k mrs -> shifted M (k + Zpos p) (iter_pos shr_1 p mrs).
Proof.
  revert k mrs. induction p as [p IH|p IH|]; intros k mrs Hk H; cbn [iter_pos].
  - replace (k + Zpos p~1) with (k + 1 + Zpos p + Zpos p) by lia.
    apply IH; [lia|]. apply IH; [lia|]. apply shr_1_shifted; assumption.
  - replace (k + Zpos p~0) with (k + Zpos p + Zpos p) by lia.
    apply IH; [lia|]. apply IH; assumption.
  - apply shr_1_shifted; assumption.
Qed.

Lemma fexp_eq (e : Z) : fexp prec emax e = Z.max (e - 53) emin64.
Proof. reflexivity. Qed.

(** [shr] by a non-positive amount does nothing. *)
Lemma shr_nonpos (mrs : shr_record) (e n : Z) : n <= 0 -> shr mrs e n = (mrs, e).
Proof. destruct n; try reflexivity. lia. Qed.

(** No rounding when the mantissa already fits. *)
Lemma binary_round_aux_fits (s : bool) (m : positive) (E : Z) :
  fexp prec emax (Zpos (digits2_pos m) + E) <= E ->
  binary_round_aux prec emax s (Zpos m) E loc_Exact
  = if E <=? emax - prec then S754_finite s m E else S754_infinity s.
Proof.
  intros Hf. unfold binary_round_aux, shr_fexp.
  cbn [Zdigits2 shr_record_of_loc].
  rewrite shr_nonpos by lia.
  cbn [shr_m loc_of_shr_record round_nearest_even Zdigits2 shr_record_of_loc].
  rewrite shr_nonpos by lia. reflexivity.
Qed.

(** Rounding to nearest even moves the mantissa by at most half a unit. *)
Lemma round_nearest_even_error (M k : Z) (mrs : shr_record) :
  0 < k -> shifted M k mrs ->
  let m2 := round_nearest_even (shr_m mrs) (loc_of_shr_record mrs) in
  (m2 = shr_m mrs \/ m2 = shr_m mrs + 1)
  /\ Z.abs (m2 * 2 ^ k - M) * 2 <= 2 ^ k.
Proof.
  intros Hk (lo & HM & Hlo & Hlt & Hs & Hr & Hm).
  destruct mrs as [m r s]. cbn [shr_m shr_r shr_s] in *.
  pose proof (pow2_pred k Hk) as Hkk.
  assert (Hh : 0 < 2 ^ (k - 1)) by (apply Z.pow_pos_nonneg; lia).
  set (X := 2 ^ (k - 1)) in *. clearbody X. rewrite Hkk in *. clear Hkk Hr.
  destruct Hlt as [Hlt|Hlt]; [|subst lo].
  - destruct r, s; cbn [loc_of_shr_record round_nearest_even];
      try destruct (Z.even m); split; auto;
      try (symmetry in Hs; apply Z.ltb_lt in Hs);
      try (symmetry in Hs; apply Z.ltb_ge in Hs); lia.
  - destruct r, s; cbn [loc_of_shr_record round_nearest_even];
      try destruct (Z.even m); split; auto; try discriminate; lia.
Qed.

(** Rounding a mantissa that is too long: the result is within half a unit
    in the last place, that is within [2^-53] of the value, relatively. *)
Lemma binary_round_aux_shift (s : bool) (m : positive) (E : Z) :
  emin64 <= E ->
  E < fexp prec emax (Zpos (digits2_pos m) + E) ->
  exists m3 e3,
    binary_round_aux prec emax s (Zpos m) E loc_Exact
    = (if e3 <=? emax - prec then S754_finite s m3 e3 else S754_infinity s)
    /\ E < e3 /\ e3 <= Zpos (digits2_pos m) + E - 52
    /\ Z.abs (Zpos m3 * 2 ^ (e3 - E) - Zpos m) * 2 ^ 53 <= Zpos m.
Proof.
  intros HE Hf. rewrite fexp_eq in Hf.
  pose proof (digits2_pos_bounds m) as [Hlo Hhi].
  set (d := Zpos (digits2_pos m)) in *.
  assert (Hn : fexp prec emax (d + E) - E = d - 53) by (rewrite fexp_eq; unfold emin64 in *; lia).
  assert (Hd : 53 < d) by (unfold emin64 in *; lia).
  unfold binary_round_aux, shr_fexp. cbn [Zdigits2 shr_record_of_loc]. fold d. rewrite Hn.
  destruct (d - 53) as [|p|p] eqn:Hp; try lia.
  cbn [shr].
  pose proof (iter_pos_shifted p (Zpos m) 0 (Build_shr_record (Zpos m) false false)
                (Z.le_refl 0) (shifted_0 (Zpos m) ltac:(lia))) as Hsh.
  rewrite Z.add_0_l in Hsh.
  set (mrs := iter_pos shr_1 p (Build_shr_record (Zpos m) false false)) in *.
  pose proof (round_nearest_even_error (Zpos m) (Zpos p) mrs ltac:(lia) Hsh) as [Hm2 Herr].
  cbv zeta in Hm2, Herr.
  set (m2 := round_nearest_even (shr_m mrs) (loc_of_shr_record mrs)) in *.
  (* the truncated mantissa has exactly 53 digits *)
  assert (Hpd : 2 ^ d = 2 ^ 53 * 2 ^ Zpos p)
    by (rewrite <- Z.pow_add_r by lia; f_equal; lia).
  assert (Hpd1 : 2 ^ (d - 1) = 2 ^ 52 * 2 ^ Zpos p)
    by (rewrite <- Z.pow_add_r by lia; f_equal; lia).
  assert (Hpp : 0 < 2 ^ Zpos p) by (apply Z.pow_pos_nonneg; lia).
  assert (Hm1 : 2 ^ 52 <= shr_m mrs < 2 ^ 53).
  { destruct Hsh as (lo & HM & Hlo' & Hlt & _ & _ & Hm0).
    pose proof (pow2_pred (Zpos p) ltac:(lia)) as Hpp'.
    assert (0 < 2 ^ (Zpos p - 1)) by (apply Z.pow_pos_nonneg; lia).
    assert (Hrest : 0 <= (if shr_r mrs then 2 ^ (Zpos p - 1) else 0) + lo < 2 ^ Zpos p)
      by (destruct (shr_r mrs); lia).
    set (rest := (if shr_r mrs then 2 ^ (Zpos p - 1) else 0) + lo) in *.
    assert (HM' : Zpos m = shr_m mrs * 2 ^ Zpos p + rest) by (subst rest; lia).
    clearbody rest. rewrite Hpd in Hhi. rewrite Hpd1 in Hlo.
    set (X := 2 ^ Zpos p) in *. clearbody X. split; nia. }
  assert (Hm2' : 2 ^ 52 <= m2 <= 2 ^ 53) by lia.
  destruct m2 as [|q2|q2] eqn:Hq2; try (simpl in Hm2'; lia).
  destruct (Z.eq_dec (Zpos q2) (2 ^ 53)) as [Hcarry|Hnocarry].
  - (* the rounding carried into a 54th digit: one more exact shift *)
    assert (q2 = 9007199254740992%positive) by (simpl in Hcarry; lia). subst q2.
    exists 4503599627370496%positive, (E + Zpos p + 1).
    split.
    { cbn [Zdigits2 digits2_pos Pos.succ].
      replace (fexp prec emax (Z.pos 54 + (E + Z.pos p)) - (E + Z.pos p)) with 1
        by (rewrite fexp_eq; unfold emin64 in *; lia).
      reflexivity. }
    split; [lia|]. split; [lia|].
    replace (E + Zpos p + 1 - E) with (Zpos p + 1) by lia.
    rewrite Z.pow_add_r, Z.pow_1_r by lia.
    change (Zpos 4503599627370496) with (2 ^ 52).
    change (Zpos 9007199254740992) with (2 ^ 53) in Herr.
    rewrite Hpd1 in Hlo.
    set (X := 2 ^ Zpos p) in *. clearbody X.
    change (2 ^ 52) with 4503599627370496 in *. change (2 ^ 53) with 9007199254740992 in *.
    lia.
  - exists q2, (E + Zpos p).
    assert (Hdig : Zpos (digits2_pos q2) = 53).
    { apply digits2_pos_unique. simpl (53 - 1). lia. }
    split.
    { cbn [Zdigits2]. rewrite Hdig.
      replace (fexp prec emax (53 + (E + Z.pos p)) - (E + Z.pos p)) with 0
        by (rewrite fexp_eq; unfold emin64 in *; lia).
      reflexivity. }
    split; [lia|]. split; [lia|].
    replace (E + Zpos p - E) with (Zpos p) by lia.
    rewrite Hpd1 in Hlo.
    set (X := 2 ^ Zpos p) in *. clearbody X.
    change (2 ^ 52) with 4503599627370496 in *. change (2 ^ 53) with 9007199254740992 in *.
    lia.
Qed.

Lemma shl_align_value (m : positive) (e e' : Z) :
  e' <= e ->
  Zpos (fst (shl_align m e e')) = Zpos m * 2 ^ (e - e')
  /\ snd (shl_align m e e') = e'.
Proof.
  intros H. unfold shl_align.
  destruct (e' - e) as [|d|d] eqn:Hd; try lia; cbn [fst snd].
  - replace (e - e') with 0 by lia. rewrite Z.pow_0_r. split; lia.
  - rewrite iter_xO_value. replace (e - e') with (Zpos d) by lia. split; reflexivity.
Qed.

Lemma shl_align_id (m : positive) (e e' : Z) : e <= e' -> shl_align m e e' = (m, e).
Proof.
  intros H. unfold shl_align. destruct (e' - e) as [|d|d] eqn:Hd; try reflexivity. lia.
Qed.

(** [binary_round] is correct to [2^-53] relatively; values are scaled by
    [2^1074], which makes every binary64 number an integer. *)
Lemma binary_round_scaled (s : bool) (m : positive) (E : Z) :
  emin64 <= E ->
  let V := Zpos m * 2 ^ (E + 1074) in
  let x := binary_round prec emax s m E in
  (x = S754_infinity s /\ 2 ^ 2097 <= V)
  \/ (exists m3 e3, x = S754_finite s m3 e3 /\ emin64 <= e3
                    /\ Z.abs (Zpos m3 * 2 ^ (e3 + 1074) - V) * 2 ^ 53 <= V).
Proof.
  intros HE V x. subst x. unfold binary_round.
  pose proof (digits2_pos_bounds m) as [Hlo Hhi].
  set (d := Zpos (digits2_pos m)) in *.
  set (f := fexp prec emax (d + E)).
  assert (Hfe : emin64 <= f) by (subst f; rewrite fexp_eq; lia).
  assert (HV : 0 < V) by (subst V; apply Z.mul_pos_pos; [lia|apply Z.pow_pos_nonneg; unfold emin64 in *; lia]).
  (* the size of the value bounds the exponent of the result *)
  assert (Hbig : forall e3, e3 <= Z.max (d + E - 52) emin64 -> emax - prec < e3 -> 2 ^ 2097 <= V).
  { intros e3 H1 H2. unfold emax, prec, emin64 in *.
    assert (1023 < d + E) by lia.
    subst V. apply Z.le_trans with (2 ^ (d - 1) * 2 ^ (E + 1074)).
    - rewrite <- Z.pow_add_r by lia. apply Z.pow_le_mono_r; lia.
    - apply Z.mul_le_mono_nonneg_r; [apply Z.pow_nonneg; lia|exact Hlo]. }
  destruct (Z_lt_le_dec E f) as [Hlt|Hge].
  - (* the mantissa is too long *)
    rewrite shl_align_id by lia.
    destruct (binary_round_aux_shift s m E HE Hlt) as (m3 & e3 & Hx & He3 & He3' & Herr).
    fold d in He3'. rewrite Hx.
    destruct (e3 <=? emax - prec) eqn:Hov.
    + right. exists m3, e3. split; [reflexivity|]. split; [lia|].
      subst V.
      assert (Hsplit : Zpos m3 * 2 ^ (e3 + 1074) = Zpos m3 * 2 ^ (e3 - E) * 2 ^ (E + 1074)).
      { rewrite <- Z.mul_assoc, <- Z.pow_add_r by (unfold emin64 in *; lia).
        f_equal. f_equal. lia. }
      rewrite Hsplit.
      assert (0 < 2 ^ (E + 1074)) by (apply Z.pow_pos_nonneg; unfold emin64 in *; lia).
      set (Y := 2 ^ (E + 1074)) in *. clearbody Y.
      set (A := Zpos m3 * 2 ^ (e3 - E)) in *. clearbody A.
      replace (A * Y - Zpos m * Y) with ((A - Zpos m) * Y) by lia.
      rewrite Z.abs_mul, (Z.abs_eq Y) by lia. nia.
    + left. split; [reflexivity|]. apply Z.leb_gt in Hov. apply (Hbig e3); lia.
  - (* the mantissa fits: pad it, nothing is lost *)
    destruct (shl_align_value m E f Hge) as [Hmz Hez].
    destruct (shl_align m E f) as [mz ez]. cbn [fst snd] in *. subst ez.
    assert (Hdz : Zpos (digits2_pos mz) = d + (E - f)).
    { apply digits2_pos_unique. rewrite Hmz.
      replace (d + (E - f) - 1) with ((d - 1) + (E - f)) by lia.
      rewrite !Z.pow_add_r by lia.
      assert (0 < 2 ^ (E - f)) by (apply Z.pow_pos_nonneg; lia). nia. }
    rewrite binary_round_aux_fits
      by (rewrite Hdz; replace (d + (E - f) + f) with (d + E) by lia; fold f; lia).
    destruct (f <=? emax - prec) eqn:Hov.
    + right. exists mz, f. split; [reflexivity|]. split; [lia|].
      subst V. rewrite Hmz.
      replace (Zpos m * 2 ^ (E - f) * 2 ^ (f + 1074)) with (Zpos m * 2 ^ (E + 1074)).
      * rewrite Z.sub_diag. change (Z.abs 0) with 0. lia.
      * rewrite <- Z.mul_assoc, <- Z.pow_add_r by (unfold emin64 in *; lia).
        f_equal. f_equal. lia.
    + left. split; [reflexivity|]. apply Z.leb_gt in Hov. apply (Hbig f); [|lia].
      subst f. rewrite fexp_eq. lia.
Qed.

Lemma binary_normalize_scaled (M E : Z) :
  emin64 <= E ->
  rounds_to (binary_normalize prec emax M E false) (M * 2 ^ (E + 1074)).
Proof.
  intros HE. unfold rounds_to.
  assert (Hp : 0 < 2 ^ (E + 1074)) by (apply Z.pow_pos_nonneg; unfold emin64 in *; lia).
  destruct M as [|m|m]; cbn [binary_normalize].
  - right. simpl. repeat split; lia.
  - destruct (binary_round_scaled false m E HE) as [[-> Hbig] | (m3 & e3 & -> & He3 & Herr)].
    + left. split; [reflexivity|]. rewrite Z.abs_eq by lia. exact Hbig.
    + right. split; [reflexivity|]. split; [exact He3|].
      cbn [scaled cond_Zopp]. rewrite (Z.abs_eq (Zpos m * _)) by lia. exact Herr.
  - destruct (binary_round_scaled true m E HE) as [[-> Hbig] | (m3 & e3 & -> & He3 & Herr)].
    + left. split; [reflexivity|].
      replace (Z.neg m * 2 ^ (E + 1074)) with (- (Zpos m * 2 ^ (E + 1074))) by lia.
      rewrite Z.abs_opp, Z.abs_eq by lia. exact Hbig.
    + right. split; [reflexivity|]. split; [exact He3|].
      cbn [scaled cond_Zopp].
      replace (Z.neg m * 2 ^ (E + 1074)) with (- (Zpos m * 2 ^ (E + 1074))) by lia.
      rewrite Z.abs_opp, (Z.abs_eq (Zpos m * _)) by lia.
      replace (- (Zpos m3 * 2 ^ (e3 + 1074)) - - (Zpos m * 2 ^ (E + 1074)))
        with (- (Zpos m3 * 2 ^ (e3 + 1074) - Zpos m * 2 ^ (E + 1074))) by lia.
      rewrite Z.abs_opp. exact Herr.
Qed.

Lemma aligned_scaled (s : bool) (m : positive) (e ez : Z) :
  emin64 <= ez -> ez <= e ->
  cond_Zopp s (Zpos (fst (shl_align m e ez))) * 2 ^ (ez + 1074)
  = scaled (S754_finite s m e).
Proof.
  intros Hz He. destruct (shl_align_value m e ez He) as [-> _].
  cbn [scaled].
  assert (H : 2 ^ (e - ez) * 2 ^ (ez + 1074) = 2 ^ (e + 1074)).
  { rewrite <- Z.pow_add_r by (unfold emin64 in *; lia). f_equal. lia. }
  destruct s; cbn [cond_Zopp]; rewrite <- H; lia.
Qed.

Lemma rounds_to_exact (z : spec_float) : is_finite z = true -> wf z -> rounds_to z (scaled z).
Proof.
  intros Hn Hw. right. split; [exact Hn|]. split; [exact Hw|].
  rewrite Z.sub_diag. change (Z.abs 0) with 0. lia.
Qed.

Lemma SFadd_scaled (x y : spec_float) :
  is_finite x = true -> is_finite y = true -> wf x -> wf y ->
  rounds_to (SFadd prec emax x y) (scaled x + scaled y).
Proof.
  intros Hx Hy Wx Wy.
  destruct x as [sx|sx| |sx mx ex], y as [sy|sy| |sy my ey]; try discriminate.
  - destruct sx, sy; apply (rounds_to_exact (S754_zero _)); try reflexivity; exact I.
  - cbn [SFadd]. rewrite Z.add_0_l. apply rounds_to_exact; assumption.
  - cbn [SFadd]. rewrite Z.add_0_r. apply rounds_to_exact; assumption.
  - cbn [SFadd wf] in *.
    rewrite <- (aligned_scaled sx mx ex (Z.min ex ey)) by lia.
    rewrite <- (aligned_scaled sy my ey (Z.min ex ey)) by lia.
    rewrite <- Z.mul_add_distr_r.
    apply binary_normalize_scaled. lia.
Qed.

Lemma SFsub_scaled (x y : spec_float) :
  is_finite x = true -> is_finite y = true -> wf x -> wf y ->
  rounds_to (SFsub prec emax x y) (scaled x - scaled y).
Proof.
  intros Hx Hy Wx Wy.
  destruct x as [sx|sx| |sx mx ex], y as [sy|sy| |sy my ey]; try discriminate.
  - destruct sx, sy; apply (rounds_to_exact (S754_zero _)); try reflexivity; exact I.
  - cbn [SFsub]. 
    replace (scaled (S754_zero sx) - scaled (S754_finite sy my ey))
      with (scaled (S754_finite (negb sy) my ey))
      by (cbn [scaled]; destruct sy; cbn [cond_Zopp negb]; lia).
    apply rounds_to_exact; [reflexivity|exact Wy].
  - cbn [SFsub]. rewrite Z.sub_0_r. apply rounds_to_exact; assumption.
  - cbn [SFsub wf] in *.
    rewrite <- (aligned_scaled sx mx ex (Z.min ex ey)) by lia.
    rewrite <- (aligned_scaled sy my ey (Z.min ex ey)) by lia.
    rewrite <- Z.mul_sub_distr_r.
    apply binary_normalize_scaled. lia.
Qed.

(** Whatever it is given, [shr_fexp] ends on an exponent of at least [emin]. *)
Lemma shr_fexp_exponent (m e : Z) (l : location) : emin64 <= snd (shr_fexp prec emax m e l).
Proof.
  unfold shr_fexp, shr.
  pose proof (fexp_eq (Zdigits2 m + e)) as Hf.
  destruct (fexp prec emax (Zdigits2 m + e) - e) as [|p|p] eqn:Hn; cbn [snd]; lia.
Qed.

Lemma binary_round_aux_wf (s : bool) (m e : Z) (l : location) :
  wf (binary_round_aux prec emax s m e l).
Proof.
  unfold binary_round_aux.
  destruct (shr_fexp prec emax m e l) as [mrs' e'].
  pose proof (shr_fexp_exponent
                (round_nearest_even (shr_m mrs') (loc_of_shr_record mrs')) e' loc_Exact) as H.
  destruct (shr_fexp prec emax _ e' loc_Exact) as [mrs'' e'']. cbn [snd] in H.
  destruct (shr_m mrs''); try exact I.
  destruct (e'' <=? emax - prec); [exact H|exact I].
Qed.

Lemma binary_normalize_wf (m e : Z) (sz : bool) : wf (binary_normalize prec emax m e sz).
Proof.
  destruct m; cbn [binary_normalize]; try exact I;
    unfold binary_round; destruct (shl_align _ _ _); apply binary_round_aux_wf.
Qed.

Lemma SFmul_wf (x y : spec_float) : wf (SFmul prec emax x y).
Proof.
  destruct x, y; cbn [SFmul]; try exact I. apply binary_round_aux_wf.
Qed.

Lemma SFdiv_wf (x y : spec_float) : wf (SFdiv prec emax x y).
Proof.
  destruct x as [sx|sx| |sx mx ex], y as [sy|sy| |sy my ey]; cbn [SFdiv]; try exact I.
  destruct (SFdiv_core_binary prec emax (Zpos mx) ex (Zpos my) ey) as [[mz ez] lz].
  apply binary_round_aux_wf.
Qed.

Lemma SFadd_wf (x y : spec_float) : wf x -> wf y -> wf (SFadd prec emax x y).
Proof.
  intros Hx Hy.
  destruct x as [sx|sx| |sx mx ex], y as [sy|sy| |sy my ey]; cbn [SFadd]; try exact I;
    try assumption.
  - destruct sx, sy; exact I.
  - destruct sx, sy; exact I.
  - apply binary_normalize_wf.
Qed.

Lemma SFsub_wf (x y : spec_float) : wf x -> wf y -> wf (SFsub prec emax x y).
Proof.
  intros Hx Hy.
  destruct x as [sx|sx| |sx mx ex], y as [sy|sy| |sy my ey]; cbn [SFsub]; try exact I;
    try assumption.
  - destruct sx, sy; exact I.
  - destruct sx, sy; exact I.
  - apply binary_normalize_wf.
Qed.

(** Re-anchoring a value: subtract the wall time, add it back. *)
Lemma reanchor_error (v t : spec_float) :
  is_finite v = true -> is_finite t = true -> wf v -> wf t ->
  Z.abs (scaled v) < 2 ^ 2095 -> Z.abs (scaled t) < 2 ^ 2095 ->
  let r := SFadd prec emax (SFsub prec emax v t) t in
  is_finite r = true /\ wf r
  /\ 2 ^ 51 * Z.abs (scaled r - scaled v) <= Z.max (Z.abs (scaled v)) (Z.abs (scaled t)).
Proof.
  intros Nv Nt Wv Wt Bv Bt r. subst r.
  pose proof (SFsub_scaled v t Nv Nt Wv Wt) as Hw.
  set (w := SFsub prec emax v t) in *.
  destruct Hw as [[_ Hbig] | (Nw & Ww & Ew)].
  { change (2 ^ 2097) with (4 * 2 ^ 2095) in Hbig. lia. }
  destruct (SFadd_scaled w t Nw Nt Ww Wt) as [[_ Hbig] | (Nr & Wr & Er)].
  { change (2 ^ 2097) with (4 * 2 ^ 2095) in Hbig.
    change (2 ^ 53) with 9007199254740992 in Ew. lia. }
  split; [exact Nr|]. split; [exact Wr|].
  set (R := scaled (SFadd prec emax w t)) in *. set (W := scaled w) in *.
  set (V := scaled v) in *. set (T := scaled t) in *.
  clearbody R W V T. clear -Ew Er.
  change (2 ^ 53) with (4 * 2 ^ 51) in *.
  set (P := 2 ^ 51) in *. assert (HP : 4 <= P) by (subst P; simpl; lia). clearbody P.
  nia.
Qed.

End Rounding.

(** ** Changing the speed of a clock *)

Section SetSpeed.
Import Clock.

Lemma sub_self_zero (t : double) : is_finite t = true -> (t - t)%D = S754_zero false.
Proof.
  destruct t as [[]|[]| |s m e]; intros H; try discriminate; try reflexivity.
  unfold sub. cbn [SFsub]. rewrite Z.sub_diag. reflexivity.
Qed.

(** [1 - s] is a finite number for every ordinary speed [s]. *)
Lemma one_minus_finite (s : double) : Spec.ordinary s -> is_finite (of_int 1 - s)%D = true.
Proof.
  intros (Hf & Hw & Hb).
  destruct (SFsub_scaled (of_int 1) s eq_refl Hf) as [[_ Hbig] | (Hn & _)];
    [vm_compute; discriminate | exact Hw | | exact Hn].
  change (scaled (of_int 1)) with (2 ^ 1074) in Hbig.
  assert (2 ^ 1074 < 2 ^ 2095) by (apply Z.pow_lt_mono_r; lia).
  change (2 ^ 2097) with (4 * 2 ^ 2095) in Hbig. lia.
Qed.

Lemma mul_zero_finite (x : double) :
  is_finite x = true -> exists sz, (S754_zero false * x)%D = S754_zero sz.
Proof.
  destruct x as [sx|sx| |sx m e]; intros H; try discriminate; eexists; reflexivity.
Qed.

(** Subtracting a zero keeps a finite value. *)
Lemma sub_zero_scaled (r : double) (sz : bool) :
  is_finite r = true ->
  is_finite (r - S754_zero sz)%D = true /\ scaled (r - S754_zero sz)%D = scaled r.
Proof.
  destruct r as [[]|[]| |s m e]; intros H; try discriminate;
    destruct sz; split; reflexivity.
Qed.

(** The pointer of a clock and the serial it stores survive [ff_clock_set_speed]. *)
Lemma ff_clock_set_speed_fields (live : serials) (clock : ff_clock_t) (s : double)
    (now_get now_set : Z) :
  let clock' := ff_clock_set_speed live clock s now_get now_set in
  deref live clock' = deref live clock
  /\ serial clock' = serial clock
  /\ paused clock' = paused clock
  /\ pts clock' = ff_clock_get live clock now_get
  /\ last_updated clock' = seconds now_set
  /\ pts_drift clock' = (ff_clock_get live clock now_get - seconds now_set)%D
  /\ speed clock' = s.
Proof.
  unfold ff_clock_set_speed, ff_clock_set, ff_clock_set_at, deref. simpl.
  repeat split.
Qed.

(** C9. For every clock state whose drift is a binary64 number, every
    ordinary speed [s] and every ordinary wall time, the sequence
    [set_speed(s); get()] returns the value [get()] returned immediately
    before (the same reading [now] of the wall clock throughout) within float
    epsilon: exactly that value when the clock is stale, paused or reads an
    infinity, and otherwise a value within [2^-51] of the larger of the
    reading and the wall time. The reason is the re-anchoring
    [set(get(), serial)] that precedes the store of the new speed. *)
Theorem ff_clock_set_speed_keeps_reading
    (live : serials) (clock : ff_clock_t) (s : double) (now : Z) :
  Spec.ordinary s ->
  Spec.ordinary (seconds now) ->
  wf (pts_drift clock) ->
  let before := ff_clock_get live clock now in
  let after := ff_clock_get live (ff_clock_set_speed live clock s now now) now in
  (is_finite before = true -> Z.abs (scaled before) < 2 ^ 2095) ->
  Spec.within_epsilon after before (seconds now)
  /\ ff_clock_set_speed live clock s now now
     = mk_clock before (before - seconds now)%D (seconds now) s
         (serial clock) (paused clock) (queue_serial clock).
Proof.
  intros Hs (Nt & Wt & Bt) Wd before after Hb.
  split; [|reflexivity].
  destruct (ff_clock_set_speed_fields live clock s now now)
    as (Hderef & Hserial & Hpaused & Hpts & Hlu & Hdrift & Hspeed).
  fold before in Hpts, Hdrift.
  set (clock' := ff_clock_set_speed live clock s now now) in *.
  subst after. unfold ff_clock_get at 1. rewrite Hderef, Hserial, Hpaused.
  assert (Hbefore : before = ff_clock_get live clock now) by reflexivity.
  unfold ff_clock_get in Hbefore.
  destruct (negb (deref live clock =? serial clock)).
  { left. symmetry. exact Hbefore. }
  destruct (truthy (paused clock)).
  { left. exact Hpts. }
  rewrite Hdrift, Hlu, Hspeed.
  set (t := seconds now) in *.
  rewrite (sub_self_zero t Nt).
  destruct (mul_zero_finite (of_int 1 - s)%D (one_minus_finite s Hs)) as [sz ->].
  destruct (is_finite before) eqn:Nb.
  - (* a finite reading: two roundings *)
    assert (Wb : wf before).
    { rewrite Hbefore. apply SFsub_wf; [apply SFadd_wf; assumption|apply SFmul_wf]. }
    destruct (reanchor_error before t Nb Nt Wb Wt (Hb eq_refl) Bt) as (Nr & Wr & Er).
    destruct (sub_zero_scaled _ sz Nr) as [Na Ea].
    right. split; [exact Na|]. split; [exact Nb|].
    unfold add, sub in *. rewrite Ea. exact Er.
  - (* NaN or an infinity stays what it is *)
    left. clear Hbefore Hb Hpts Hdrift.
    destruct before as [|sb| |]; try discriminate.
    + destruct t as [[]|[]| |st mt et]; try discriminate; destruct sb, sz; reflexivity.
    + reflexivity.
Qed.

End SetSpeed.

Lemma ff_clock_set_speed_keeps_reading_witness :
  Spec.within_epsilon
    (Clock.ff_clock_get (fun _ => 1)
       (Clock.ff_clock_set_speed (fun _ => 1) Sample.slowed_clock (dec 998 1000)
          Sample.later Sample.later)
       Sample.later)
    (Clock.ff_clock_get (fun _ => 1) Sample.slowed_clock Sample.later)
    (Clock.seconds Sample.later).
Proof.
  apply (ff_clock_set_speed_keeps_reading (fun _ => 1) Sample.slowed_clock (dec 998 1000)
           Sample.later).
  - repeat split; vm_compute; try reflexivity; discriminate.
  - repeat split; vm_compute; try reflexivity; discriminate.
  - vm_compute. discriminate.
  - intros _. vm_compute. reflexivity.
Defined.

(** The tolerance is needed: on the sample clock the reading after
    [set_speed] is the next double above the reading before. *)
Example ff_clock_set_speed_moves_one_ulp :
  Clock.ff_clock_get (fun _ => 1) Sample.slowed_clock Sample.later
  = S754_finite false 6566923421725615 (-50)
  /\ Clock.ff_clock_get (fun _ => 1)
       (Clock.ff_clock_set_speed (fun _ => 1) Sample.slowed_clock (dec 998 1000)
          Sample.later Sample.later)
       Sample.later
     = S754_finite false 6566923421725616 (-50).
Proof. split; vm_compute; reflexivity. Qed.

(** * Further properties of the code *)

(** ** The frame queue *)

Section FrameQueueFacts.
Import FrameQueue.

Lemma set_nth_length (n : nat) (x : ff_frame_t) (l : list ff_frame_t) :
  length (set_nth n x l) = length l.
Proof.
  revert n; induction l as [|h t IH]; intros [|n]; simpl; auto.
Qed.

Lemma nth_set_nth_same (n : nat) (x d : ff_frame_t) (l : list ff_frame_t) :
  (n < length l)%nat -> nth n (set_nth n x l) d = x.
Proof.
  revert n; induction l as [|h t IH]; intros [|n] H; simpl in *; try lia; auto.
  apply IH; lia.
Qed.

Lemma nth_set_nth_other (n m : nat) (x d : ff_frame_t) (l : list ff_frame_t) :
  n <> m -> nth m (set_nth n x l) d = nth m l d.
Proof.
  revert n m; induction l as [|h t IH]; intros [|n] [|m] H; simpl; auto; try congruence.
Qed.

Lemma frame_at_store_same (queue : ff_frame_queue_t) (i : Z) (f : ff_frame_t) :
  0 <= i < Z.of_nat (length (frames queue)) ->
  frame_at (store queue i f) i = f.
Proof.
  intros H. unfold frame_at, store; cbn [frames].
  destruct i as [|p|p]; try lia; apply nth_set_nth_same; lia.
Qed.

Lemma frame_at_store_other (queue : ff_frame_queue_t) (i j : Z) (f : ff_frame_t) :
  i <> j -> frame_at (store queue i f) j = frame_at queue j.
Proof.
  intros H. unfold frame_at, store; cbn [frames].
  destruct j as [|q|q]; auto; destruct i as [|p|p]; auto;
    apply nth_set_nth_other; lia.
Qed.

(** Two offsets less than a full turn apart land on different slots. *)
Lemma slots_apart (a b n : Z) :
  0 < b - a < n -> a mod n <> b mod n.
Proof.
  intros H E.
  assert (D : (b - a) mod n = 0).
  { rewrite Zminus_mod, E, Z.sub_diag. apply Z.mod_0_l. lia. }
  rewrite Z.mod_small in D; lia.
Qed.

Lemma step_index (i n : Z) :
  0 <= i < n -> n <= 16 ->
  (if wrap_int (i + 1) =? n then 0 else wrap_int (i + 1)) = (i + 1) mod n.
Proof.
  intros H Hn. rewrite wrap_int_id by (unfold in_int, INT_MIN, INT_MAX; lia).
  destruct (Z.eqb_spec (i + 1) n) as [E|E].
  - rewrite E. symmetry. apply Z.mod_same. lia.
  - symmetry. apply Z.mod_small. lia.
Qed.


Lemma FF_FRAME_QUEUE_SIZE_value : FF_FRAME_QUEUE_SIZE = 16.
Proof. reflexivity. Qed.

Lemma unread_length (queue : ff_frame_queue_t) :
  length (unread queue) = Z.to_nat (size queue - rindex_shown queue).
Proof. unfold unread. now rewrite length_map, length_seq. Qed.

(** Writing one frame and pushing appends it to the unread frames. *)
Lemma write_frame_tracks (queue : ff_frame_queue_t) (f : ff_frame_t) :
  consistent queue -> size queue < max_size queue ->
  consistent (write_frame queue f) /\
  unread (write_frame queue f) = unread queue ++ [f].
Proof.
  intros (L & M & R & W & Sh & Sz & Ew & K) Room.
  rewrite FF_FRAME_QUEUE_SIZE_value in *.
  assert (Wi : (if wrap_int (windex queue + 1) =? max_size queue then 0
                else wrap_int (windex queue + 1)) = (rindex queue + (size queue + 1)) mod max_size queue).
  { rewrite step_index by lia. rewrite Ew, Zplus_mod_idemp_l. f_equal; lia. }
  assert (Si : wrap_int (size queue + 1) = size queue + 1).
  { apply wrap_int_id; unfold in_int, INT_MIN, INT_MAX; lia. }
  split.
  - unfold consistent, write_frame, ff_frame_queue_push, store;
      cbn [frames rindex windex size max_size keep_last rindex_shown].
    rewrite Wi, Si, FF_FRAME_QUEUE_SIZE_value.
    repeat split; try lia; auto.
    + destruct (windex queue); try lia; now rewrite set_nth_length.
    + apply Z.mod_pos_bound; lia.
    + apply Z.mod_pos_bound; lia.
  - unfold unread, write_frame, ff_frame_queue_push;
      cbn [frames rindex windex size max_size keep_last rindex_shown store].
    rewrite Si.
    replace (Z.to_nat (size queue + 1 - rindex_shown queue))
      with (Z.to_nat (size queue - rindex_shown queue) + 1)%nat by lia.
    rewrite seq_app, map_app. f_equal.
    + apply map_ext_in. intros k Hk. apply in_seq in Hk.
      rewrite !Z.rem_mod_nonneg by lia.
      change (frame_at (store queue (windex queue) f)
                ((rindex queue + rindex_shown queue + Z.of_nat k) mod max_size queue)
              = frame_at queue
                  ((rindex queue + rindex_shown queue + Z.of_nat k) mod max_size queue)).
      apply frame_at_store_other. rewrite Ew. apply not_eq_sym, slots_apart. lia.
    + cbn [seq map]. f_equal.
      rewrite Z.rem_mod_nonneg by lia.
      replace (rindex queue + rindex_shown queue
               + Z.of_nat (0 + Z.to_nat (size queue - rindex_shown queue)))
        with (rindex queue + size queue) by lia.
      rewrite <- Ew.
      change (frame_at (store queue (windex queue) f) (windex queue) = f).
      apply frame_at_store_same. rewrite L. lia.
Qed.

Lemma tl_map_seq (A : Type) (g : nat -> A) (n : nat) :
  tl (map g (seq 0 n)) = map (fun k => g (S k)) (seq 0 (n - 1)).
Proof.
  destruct n as [|n]; [reflexivity|].
  cbn [seq map tl]. rewrite <- seq_shift, map_map.
  replace (S n - 1)%nat with n by lia. reflexivity.
Qed.

(** Dropping the frame on show removes the oldest unread frame and no
    other. *)
Lemma ff_frame_queue_next_tracks (queue : ff_frame_queue_t) :
  consistent queue -> 0 < ff_frame_queue_get_frames_remaining queue ->
  consistent (ff_frame_queue_next queue) /\
  unread (ff_frame_queue_next queue) = tl (unread queue).
Proof.
  intros (L & M & R & W & Sh & Sz & Ew & K) Rem.
  rewrite FF_FRAME_QUEUE_SIZE_value in *.
  unfold ff_frame_queue_get_frames_remaining in Rem.
  rewrite wrap_int_id in Rem by (unfold in_int, INT_MIN, INT_MAX; lia).
  unfold ff_frame_queue_next.
  destruct (keep_last queue && (rindex_shown queue =? 0)) eqn:Flip.
  - apply andb_true_iff in Flip. destruct Flip as [Kl Z0]. apply Z.eqb_eq in Z0.
    split.
    + unfold consistent; cbn [frames rindex windex size max_size keep_last rindex_shown].
      rewrite FF_FRAME_QUEUE_SIZE_value. repeat split; try lia; auto; congruence.
    + unfold unread; cbn [frames rindex windex size max_size keep_last rindex_shown].
      rewrite tl_map_seq. rewrite Z0.
      replace (Z.to_nat (size queue - 0) - 1)%nat with (Z.to_nat (size queue - 1)) by lia.
      apply map_ext. intros k. unfold frame_at; cbn [frames].
      replace (rindex queue + 1 + Z.of_nat k) with (rindex queue + 0 + Z.of_nat (S k)) by lia.
      reflexivity.
  - assert (Ri : (if wrap_int (rindex queue + 1) =? max_size queue then 0
                  else wrap_int (rindex queue + 1)) = (rindex queue + 1) mod max_size queue)
      by (apply step_index; lia).
    assert (Si : wrap_int (size queue - 1) = size queue - 1).
    { apply wrap_int_id; unfold in_int, INT_MIN, INT_MAX; lia. }
    assert (Kshown : rindex_shown queue = 0 -> keep_last queue = false).
    { intros Z0. rewrite Z0 in Flip. destruct (keep_last queue); auto. }
    cbv zeta. rewrite Ri, Si.
    set (unref := with_base (frame_at queue (rindex queue))
                    (av_frame_unref (base (frame_at queue (rindex queue))))).
    split.
    + unfold consistent; cbn [frames rindex windex size max_size keep_last rindex_shown store].
      rewrite FF_FRAME_QUEUE_SIZE_value.
      assert (B := Z.mod_pos_bound (rindex queue + 1) (max_size queue) ltac:(lia)).
      repeat split; try lia; auto.
      * destruct (rindex queue); try lia; now rewrite set_nth_length.
      * rewrite Zplus_mod_idemp_l, Ew. f_equal; lia.
    + unfold unread; cbn [rindex windex size max_size keep_last rindex_shown].
      rewrite tl_map_seq.
      replace (Z.to_nat (size queue - rindex_shown queue) - 1)%nat
        with (Z.to_nat (size queue - 1 - rindex_shown queue)) by lia.
      apply map_ext_in. intros k Hk. apply in_seq in Hk.
      assert (B := Z.mod_pos_bound (rindex queue + 1) (max_size queue) ltac:(lia)).
      rewrite !Z.rem_mod_nonneg by lia.
      assert (Ei : ((rindex queue + 1) mod max_size queue + rindex_shown queue + Z.of_nat k)
                     mod max_size queue
                   = (rindex queue + rindex_shown queue + Z.of_nat (S k)) mod max_size queue).
      { rewrite <- Z.add_assoc, Zplus_mod_idemp_l. f_equal; lia. }
      rewrite Ei.
      change (frame_at (store queue (rindex queue) unref)
                ((rindex queue + rindex_shown queue + Z.of_nat (S k)) mod max_size queue)
              = frame_at queue
                ((rindex queue + rindex_shown queue + Z.of_nat (S k)) mod max_size queue)).
      apply frame_at_store_other.
      rewrite <- (Z.mod_small (rindex queue) (max_size queue)) at 1 by lia.
      apply slots_apart. lia.
Qed.

Lemma run_frame_ops_tracks (ops : list frame_op) :
  forall queue queue',
    consistent queue -> run_frame_ops queue ops = Some queue' ->
    consistent queue' /\
    unread queue' = skipn (nexts ops) (unread queue ++ written ops).
Proof.
  induction ops as [|[f|] rest IH]; intros queue queue' C Run; cbn [run_frame_ops] in Run.
  - injection Run as <-. split; [exact C|]. cbn. now rewrite app_nil_r.
  - destruct (size queue <? max_size queue) eqn:Room; [|discriminate].
    apply Z.ltb_lt in Room.
    destruct (write_frame_tracks queue f C Room) as [C1 U1].
    destruct (IH _ _ C1 Run) as [C2 U2]. split; [exact C2|].
    rewrite U2, U1, <- app_assoc. reflexivity.
  - destruct (0 <? ff_frame_queue_get_frames_remaining queue) eqn:Rem; [|discriminate].
    apply Z.ltb_lt in Rem.
    destruct (ff_frame_queue_next_tracks queue C Rem) as [C1 U1].
    destruct (IH _ _ C1 Run) as [C2 U2]. split; [exact C2|].
    rewrite U2, U1.
    assert (Len := unread_length queue).
    destruct C as (_ & M & _ & _ & Sh & Sz & _).
    rewrite FF_FRAME_QUEUE_SIZE_value in M.
    unfold ff_frame_queue_get_frames_remaining in Rem.
    rewrite wrap_int_id in Rem by (unfold in_int, INT_MIN, INT_MAX; lia).
    destruct (unread queue) as [|h t]; [cbn [length] in Len; lia|].
    reflexivity.
Qed.

Lemma create_loop_outcomes (rest : list ff_frame_t) :
  forall done i max keep alloc_ok,
    Z.of_nat (length done) = i -> Z.of_nat (length rest) = FF_FRAME_QUEUE_SIZE - i ->
    0 <= i <= max -> max <= FF_FRAME_QUEUE_SIZE ->
    (forall j, 0 <= j < i -> alloc_ok j = true) ->
    (forall x, In x done -> base x = EmptyFrame) ->
    (forall x, In x rest -> base x = NullFrame) ->
    match create_loop done rest i max keep alloc_ok with
    | Created queue =>
        (exists given spare,
            frames queue = given ++ spare /\ Z.of_nat (length given) = max /\
            Z.of_nat (length spare) = FF_FRAME_QUEUE_SIZE - max /\
            (forall x, In x given -> base x = EmptyFrame) /\
            (forall x, In x spare -> base x = NullFrame)) /\
        rindex queue = 0 /\ windex queue = 0 /\ size queue = 0 /\
        rindex_shown queue = 0 /\ max_size queue = max /\ keep_last queue = keep /\
        (forall j, 0 <= j < max -> alloc_ok j = true)
    | NoQueue allocated freed =>
        allocated = freed /\ i <= freed < max /\ alloc_ok freed = false /\
        (forall j, 0 <= j < freed -> alloc_ok j = true)
    | OutOfArray _ => False
    end.
Proof.
  rewrite FF_FRAME_QUEUE_SIZE_value.
  induction rest as [|slot rest IH]; intros done i max keep alloc_ok Ld Lr Hi Hm Ha Hd Hr;
    cbn [create_loop]; destruct (Z.eqb_spec i max) as [E|E].
  - subst max. cbn [rindex windex size rindex_shown max_size keep_last frames].
    repeat split; auto. exists done, []. repeat split; auto.
  - cbn [length] in Lr. lia.
  - subst max. cbn [rindex windex size rindex_shown max_size keep_last frames].
    repeat split; auto. exists done, (slot :: rest). repeat split; auto.
  - destruct (alloc_ok i) eqn:A.
    + rewrite wrap_int_id by (unfold in_int, INT_MIN, INT_MAX; lia).
      cbn [length] in Lr.
      assert (Step := IH (done ++ [with_base slot EmptyFrame]) (i + 1) max keep alloc_ok).
      assert (Given : forall x, In x (done ++ [with_base slot EmptyFrame]) -> base x = EmptyFrame).
      { intros x Hx. apply in_app_or in Hx. destruct Hx as [Hx|[<-|[]]]; auto. }
      assert (Upto : forall j, 0 <= j < i + 1 -> alloc_ok j = true).
      { intros j Hj. destruct (Z.eq_dec j i) as [->|N]; [exact A|apply Ha; lia]. }
      assert (Ld' : Z.of_nat (length (done ++ [with_base slot EmptyFrame])) = i + 1).
      { rewrite length_app; cbn [length]; lia. }
      specialize (Step Ld' ltac:(lia) ltac:(lia) Hm Upto Given (fun x Hx => Hr x (or_intror Hx))).
      destruct (create_loop (done ++ [with_base slot EmptyFrame]) rest (i + 1) max keep alloc_ok)
        as [queue|allocated freed|k]; auto.
      destruct Step as (Eq & Hf & Af & Before). repeat split; auto; lia.
    + repeat split; auto; lia.
Qed.

Lemma created_consistent (max : Z) (keep : bool) (calloc_ok mtx_ok cnd_ok : bool)
    (alloc_ok : Z -> bool) (queue : ff_frame_queue_t) :
  0 < max ->
  ff_frame_queue_create max keep calloc_ok mtx_ok cnd_ok alloc_ok = Created queue ->
  consistent queue /\ unread queue = [].
Proof.
  intros Hmax Hc. unfold ff_frame_queue_create in Hc.
  destruct calloc_ok; [|discriminate]. destruct mtx_ok; [|discriminate].
  destruct cnd_ok; [|discriminate].
  assert (Hmin : 0 < FFMIN_int max FF_FRAME_QUEUE_SIZE <= FF_FRAME_QUEUE_SIZE).
  { unfold FFMIN_int. rewrite FF_FRAME_QUEUE_SIZE_value.
    destruct (Z.gtb_spec max 16); lia. }
  pose proof (create_loop_outcomes
                (repeat zero_frame (Z.to_nat FF_FRAME_QUEUE_SIZE)) [] 0
                (FFMIN_int max FF_FRAME_QUEUE_SIZE) keep alloc_ok) as H.
  rewrite Hc in H.
  destruct H as ((given & spare & Ef & Lg & Ls & _) & R0 & W0 & S0 & Sh0 & Ms & _).
  - reflexivity.
  - rewrite repeat_length. rewrite FF_FRAME_QUEUE_SIZE_value. reflexivity.
  - lia.
  - lia.
  - intros j Hj; lia.
  - intros x [].
  - intros x Hx. apply repeat_spec in Hx. now subst x.
  - split.
    + unfold consistent. rewrite R0, W0, S0, Sh0, Ms, Ef, length_app.
      rewrite FF_FRAME_QUEUE_SIZE_value in *.
      repeat split; try lia.
    + unfold unread. rewrite S0, Sh0. reflexivity.
Qed.

Lemma run_frame_ops_fixed (ops : list frame_op) :
  forall queue queue',
    run_frame_ops queue ops = Some queue' ->
    max_size queue' = max_size queue /\ keep_last queue' = keep_last queue.
Proof.
  induction ops as [|[f|] rest IH]; intros queue queue' Run; cbn [run_frame_ops] in Run.
  - injection Run as <-. auto.
  - destruct (size queue <? max_size queue); [|discriminate].
    destruct (IH _ _ Run) as [-> ->]. split; reflexivity.
  - destruct (0 <? ff_frame_queue_get_frames_remaining queue); [|discriminate].
    destruct (IH _ _ Run) as [-> ->]. unfold ff_frame_queue_next.
    destruct (keep_last queue && (rindex_shown queue =? 0)); split; reflexivity.
Qed.

Lemma created_max_size (max : Z) (keep : bool) (calloc_ok mtx_ok cnd_ok : bool)
    (alloc_ok : Z -> bool) (queue : ff_frame_queue_t) :
  0 <= max ->
  ff_frame_queue_create max keep calloc_ok mtx_ok cnd_ok alloc_ok = Created queue ->
  max_size queue = Z.min max FF_FRAME_QUEUE_SIZE /\ keep_last queue = keep.
Proof.
  intros Hmax Hc. unfold ff_frame_queue_create in Hc.
  destruct calloc_ok; [|discriminate]. destruct mtx_ok; [|discriminate].
  destruct cnd_ok; [|discriminate].
  assert (Hmin : FFMIN_int max FF_FRAME_QUEUE_SIZE = Z.min max FF_FRAME_QUEUE_SIZE).
  { unfold FFMIN_int. rewrite FF_FRAME_QUEUE_SIZE_value.
    destruct (Z.gtb_spec max 16); lia. }
  pose proof (create_loop_outcomes
                (repeat zero_frame (Z.to_nat FF_FRAME_QUEUE_SIZE)) [] 0
                (FFMIN_int max FF_FRAME_QUEUE_SIZE) keep alloc_ok) as H.
  rewrite Hc, Hmin in H.
  destruct H as (_ & _ & _ & _ & _ & Ms & Kl & _).
  - reflexivity.
  - rewrite repeat_length, FF_FRAME_QUEUE_SIZE_value. reflexivity.
  - rewrite FF_FRAME_QUEUE_SIZE_value. lia.
  - lia.
  - intros j Hj; lia.
  - intros x [].
  - intros x Hx. apply repeat_spec in Hx. now subst x.
  - auto.
Qed.

Lemma remaining_unread (queue : ff_frame_queue_t) :
  consistent queue ->
  ff_frame_queue_get_frames_remaining queue = Z.of_nat (length (unread queue)).
Proof.
  intros (L & M & R & W & Sh & Sz & Ew & K). rewrite FF_FRAME_QUEUE_SIZE_value in *.
  rewrite unread_length. unfold ff_frame_queue_get_frames_remaining.
  rewrite wrap_int_id by (unfold in_int, INT_MIN, INT_MAX; lia). lia.
Qed.

(** The slot [ff_frame_queue_peek] returns holds the oldest unread frame,
    the slot [ff_frame_queue_peek_next] returns the one after it. *)
Lemma peek_is_head (queue : ff_frame_queue_t) :
  consistent queue ->
  (0 < ff_frame_queue_get_frames_remaining queue ->
   unread queue = frame_at queue (ff_frame_queue_peek queue) :: tl (unread queue)) /\
  (1 < ff_frame_queue_get_frames_remaining queue ->
   tl (unread queue)
   = frame_at queue (ff_frame_queue_peek_next queue) :: tl (tl (unread queue))).
Proof.
  intros (L & M & R & W & Sh & Sz & Ew & K). rewrite FF_FRAME_QUEUE_SIZE_value in *.
  unfold ff_frame_queue_get_frames_remaining, ff_frame_queue_peek, ff_frame_queue_peek_next.
  rewrite ?(wrap_int_id (rindex queue + rindex_shown queue))
    by (unfold in_int, INT_MIN, INT_MAX; lia).
  rewrite ?wrap_int_id by (unfold in_int, INT_MIN, INT_MAX; lia).
  unfold unread. split; intros Rem.
  - replace (Z.to_nat (size queue - rindex_shown queue))
      with (S (Z.to_nat (size queue - rindex_shown queue - 1))) by lia.
    cbn [seq map tl]. now rewrite Z.add_0_r.
  - replace (Z.to_nat (size queue - rindex_shown queue))
      with (S (S (Z.to_nat (size queue - rindex_shown queue - 2)))) by lia.
    cbn [seq map tl]. reflexivity.
Qed.

(** With [keep_last] the frame moved past stays in the slot
    [ff_frame_queue_peek_last] returns, and the queue has a shown frame. *)
Lemma next_keeps_shown (queue : ff_frame_queue_t) :
  consistent queue -> keep_last queue = true ->
  0 < ff_frame_queue_get_frames_remaining queue ->
  ff_frame_queue_rindex_shown (ff_frame_queue_next queue) = 1 /\
  frame_at (ff_frame_queue_next queue) (ff_frame_queue_peek_last (ff_frame_queue_next queue))
  = frame_at queue (ff_frame_queue_peek queue).
Proof.
  intros (L & M & R & W & Sh & Sz & Ew & K) Keep Rem.
  rewrite FF_FRAME_QUEUE_SIZE_value in *.
  unfold ff_frame_queue_get_frames_remaining in *.
  rewrite wrap_int_id in Rem by (unfold in_int, INT_MIN, INT_MAX; lia).
  unfold ff_frame_queue_next, ff_frame_queue_rindex_shown,
    ff_frame_queue_peek_last, ff_frame_queue_peek.
  rewrite Keep. cbn [andb].
  destruct (Z.eqb_spec (rindex_shown queue) 0) as [Z0|N0].
  - cbn [rindex rindex_shown size frames]. rewrite Z0, Z.add_0_r.
    rewrite !wrap_int_id by (unfold in_int, INT_MIN, INT_MAX; lia).
    rewrite Z.rem_mod_nonneg, Z.mod_small by lia.
    split; reflexivity.
  - assert (S1 : rindex_shown queue = 1) by lia.
    cbv zeta. cbn [rindex rindex_shown size].
    rewrite step_index by lia. rewrite S1.
    rewrite !wrap_int_id by (unfold in_int, INT_MIN, INT_MAX; lia).
    rewrite Z.rem_mod_nonneg by lia.
    split; [reflexivity|].
    set (unref := with_base (frame_at queue (rindex queue))
                    (av_frame_unref (base (frame_at queue (rindex queue))))).
    change (frame_at (store queue (rindex queue) unref) ((rindex queue + 1) mod max_size queue)
            = frame_at queue ((rindex queue + 1) mod max_size queue)).
    apply frame_at_store_other.
    rewrite <- (Z.mod_small (rindex queue) (max_size queue)) at 1 by lia.
    apply slots_apart. lia.
Qed.

Lemma next_keep_last (queue : ff_frame_queue_t) :
  keep_last (ff_frame_queue_next queue) = keep_last queue.
Proof.
  unfold ff_frame_queue_next.
  destruct (keep_last queue && (rindex_shown queue =? 0)); reflexivity.
Qed.

(** X1. A frame queue created with a positive capacity and then used as
    the player uses it (a frame is written only when there is room, [next] is
    called only when a frame remains) keeps its capacity at
    [min(max_size, 16)], every slot the peeks return inside the allocated
    part of the array, the write index at [(rindex + size) mod max_size],
    and the number of remaining frames between 0 and [size <= max_size].
    Without [keep_last] no frame is ever marked as shown. *)
Theorem frame_queue_stays_in_bounds (max : Z) (keep : bool) (alloc_ok : Z -> bool)
    (ops : list frame_op) (fresh queue : ff_frame_queue_t) :
  0 < max ->
  ff_frame_queue_create max keep true true true alloc_ok = Created fresh ->
  run_frame_ops fresh ops = Some queue ->
  max_size queue = Z.min max FF_FRAME_QUEUE_SIZE /\
  0 <= ff_frame_queue_peek_last queue < max_size queue /\
  0 <= ff_frame_queue_peek queue < max_size queue /\
  0 <= ff_frame_queue_peek_next queue < max_size queue /\
  0 <= windex queue < max_size queue /\
  windex queue = (rindex queue + size queue) mod max_size queue /\
  0 <= ff_frame_queue_get_frames_remaining queue <= size queue /\
  size queue <= max_size queue /\
  (keep = false -> ff_frame_queue_rindex_shown queue = 0).
Proof.
  intros Hmax Hc Run.
  destruct (created_consistent _ _ _ _ _ _ _ Hmax Hc) as [C0 _].
  destruct (created_max_size max keep _ _ _ _ _ (Z.lt_le_incl _ _ Hmax) Hc) as [Ms Kl].
  destruct (run_frame_ops_fixed _ _ _ Run) as [Ms' Kl'].
  destruct (run_frame_ops_tracks _ _ _ C0 Run) as [(L & M & R & W & Sh & Sz & Ew & K) _].
  rewrite FF_FRAME_QUEUE_SIZE_value in *.
  unfold ff_frame_queue_peek_last, ff_frame_queue_peek, ff_frame_queue_peek_next,
    ff_frame_queue_get_frames_remaining, ff_frame_queue_rindex_shown.
  rewrite ?(wrap_int_id (rindex queue + rindex_shown queue))
    by (unfold in_int, INT_MIN, INT_MAX; lia).
  rewrite ?wrap_int_id by (unfold in_int, INT_MIN, INT_MAX; lia).
  rewrite !Z.rem_mod_nonneg by lia.
  assert (B1 := Z.mod_pos_bound (rindex queue + rindex_shown queue) (max_size queue) ltac:(lia)).
  assert (B2 := Z.mod_pos_bound (rindex queue + rindex_shown queue + 1) (max_size queue) ltac:(lia)).
  repeat split; try lia; try congruence.
  intros ->. apply K. congruence.
Qed.

(** X2. The frame queue is first in, first out: after any history that
    respects the protocol, the frames still to be shown are the frames
    written, in the order written, minus one per call of [next]; their
    number is [ff_frame_queue_get_frames_remaining], [ff_frame_queue_peek]
    returns the oldest of them and [ff_frame_queue_peek_next] the one after
    it, with every field as the writer stored it. *)
Theorem frame_queue_is_fifo (max : Z) (keep : bool) (alloc_ok : Z -> bool)
    (ops : list frame_op) (fresh queue : ff_frame_queue_t) :
  0 < max ->
  ff_frame_queue_create max keep true true true alloc_ok = Created fresh ->
  run_frame_ops fresh ops = Some queue ->
  unread queue = skipn (nexts ops) (written ops) /\
  Z.of_nat (length (unread queue)) = ff_frame_queue_get_frames_remaining queue /\
  (0 < ff_frame_queue_get_frames_remaining queue ->
   nth_error (written ops) (nexts ops)
   = Some (frame_at queue (ff_frame_queue_peek queue))) /\
  (1 < ff_frame_queue_get_frames_remaining queue ->
   nth_error (written ops) (S (nexts ops))
   = Some (frame_at queue (ff_frame_queue_peek_next queue))).
Proof.
  intros Hmax Hc Run.
  destruct (created_consistent _ _ _ _ _ _ _ Hmax Hc) as [C0 U0].
  destruct (run_frame_ops_tracks _ _ _ C0 Run) as [(L & M & R & W & Sh & Sz & Ew & K) U].
  rewrite U0 in U. cbn [app] in U.
  rewrite FF_FRAME_QUEUE_SIZE_value in *.
  assert (Len := unread_length queue).
  unfold ff_frame_queue_get_frames_remaining, ff_frame_queue_peek, ff_frame_queue_peek_next.
  rewrite ?(wrap_int_id (rindex queue + rindex_shown queue))
    by (unfold in_int, INT_MIN, INT_MAX; lia).
  rewrite ?wrap_int_id by (unfold in_int, INT_MIN, INT_MAX; lia).
  split; [exact U|]. split; [lia|].
  assert (Nth : forall k, nth_error (written ops) (nexts ops + k) = nth_error (unread queue) k).
  { intros k. rewrite U. symmetry. apply nth_error_skipn. }
  split; intros Rem.
  - rewrite <- (Nat.add_0_r (nexts ops)), Nth. unfold unread.
    replace (Z.to_nat (size queue - rindex_shown queue))
      with (S (Z.to_nat (size queue - rindex_shown queue - 1))) by lia.
    cbn [seq map nth_error]. now rewrite Z.add_0_r.
  - replace (S (nexts ops)) with (nexts ops + 1)%nat by lia. rewrite Nth. unfold unread.
    replace (Z.to_nat (size queue - rindex_shown queue))
      with (S (S (Z.to_nat (size queue - rindex_shown queue - 2)))) by lia.
    cbn [seq map nth_error]. reflexivity.
Qed.

(** X3. With [keep_last], [ff_frame_queue_next] never discards the frame
    it moves past: the frame [ff_frame_queue_peek] returned before the call
    is the frame [ff_frame_queue_peek_last] returns after it, unchanged and
    still holding its data; the queue then reports a shown frame and one
    remaining frame less. *)
Theorem ff_frame_queue_next_keeps_last (max : Z) (alloc_ok : Z -> bool)
    (ops : list frame_op) (fresh queue : ff_frame_queue_t) :
  0 < max ->
  ff_frame_queue_create max true true true true alloc_ok = Created fresh ->
  run_frame_ops fresh ops = Some queue ->
  0 < ff_frame_queue_get_frames_remaining queue ->
  let shown := ff_frame_queue_next queue in
  ff_frame_queue_rindex_shown shown = 1 /\
  frame_at shown (ff_frame_queue_peek_last shown)
  = frame_at queue (ff_frame_queue_peek queue) /\
  ff_frame_queue_get_frames_remaining shown
  = ff_frame_queue_get_frames_remaining queue - 1.
Proof.
  intros Hmax Hc Run Rem shown. subst shown.
  destruct (created_consistent _ _ _ _ _ _ _ Hmax Hc) as [C0 _].
  destruct (created_max_size max true _ _ _ _ _ (Z.lt_le_incl _ _ Hmax) Hc) as [_ Kl].
  destruct (run_frame_ops_fixed _ _ _ Run) as [_ Kl'].
  destruct (run_frame_ops_tracks _ _ _ C0 Run) as [C _].
  assert (Keep : keep_last queue = true) by congruence.
  destruct (next_keeps_shown queue C Keep Rem) as [Shown Kept].
  destruct (ff_frame_queue_next_tracks queue C Rem) as [C1 U1].
  split; [exact Shown|]. split; [exact Kept|].
  rewrite (remaining_unread _ C1), U1.
  rewrite (remaining_unread _ C) in *.
  destruct (unread queue); cbn [length tl] in *; lia.
Qed.

(** X4. [ff_frame_queue_create] with a capacity that is not negative
    either returns a queue of capacity [min(max_size, 16)] with all indices
    0, a fresh frame in each slot below the capacity and none above it, or
    returns NULL having freed exactly the frames it had allocated: those of
    the slots before the first one whose allocation failed. It never
    touches a slot outside the array. *)
Theorem ff_frame_queue_create_outcomes (max : Z) (keep : bool)
    (calloc_ok mtx_ok cnd_ok : bool) (alloc_ok : Z -> bool) :
  0 <= max ->
  match ff_frame_queue_create max keep calloc_ok mtx_ok cnd_ok alloc_ok with
  | Created queue =>
      calloc_ok && mtx_ok && cnd_ok = true /\
      max_size queue = Z.min max FF_FRAME_QUEUE_SIZE /\
      keep_last queue = keep /\
      rindex queue = 0 /\ windex queue = 0 /\ size queue = 0 /\
      rindex_shown queue = 0 /\
      (forall i, 0 <= i < FF_FRAME_QUEUE_SIZE ->
                 base (frame_at queue i)
                 = if i <? max_size queue then EmptyFrame else NullFrame) /\
      (forall i, 0 <= i < max_size queue -> alloc_ok i = true)
  | NoQueue allocated freed =>
      allocated = freed /\
      (calloc_ok && mtx_ok && cnd_ok = true ->
       0 <= freed < Z.min max FF_FRAME_QUEUE_SIZE /\ alloc_ok freed = false /\
       forall j, 0 <= j < freed -> alloc_ok j = true)
  | OutOfArray _ => False
  end.
Proof.
  intros Hmax. unfold ff_frame_queue_create.
  destruct calloc_ok; [|split; [reflexivity|discriminate]].
  destruct mtx_ok; [|split; [reflexivity|discriminate]].
  destruct cnd_ok; [|split; [reflexivity|discriminate]].
  assert (Hmin : FFMIN_int max FF_FRAME_QUEUE_SIZE = Z.min max FF_FRAME_QUEUE_SIZE).
  { unfold FFMIN_int. rewrite FF_FRAME_QUEUE_SIZE_value.
    destruct (Z.gtb_spec max 16); lia. }
  assert (Slots : Z.of_nat (length (repeat zero_frame (Z.to_nat FF_FRAME_QUEUE_SIZE)))
                  = FF_FRAME_QUEUE_SIZE - 0).
  { rewrite repeat_length, FF_FRAME_QUEUE_SIZE_value. reflexivity. }
  assert (Fits : 0 <= 0 <= Z.min max FF_FRAME_QUEUE_SIZE /\
                 Z.min max FF_FRAME_QUEUE_SIZE <= FF_FRAME_QUEUE_SIZE).
  { rewrite FF_FRAME_QUEUE_SIZE_value. lia. }
  assert (Blank : forall x, In x (repeat zero_frame (Z.to_nat FF_FRAME_QUEUE_SIZE)) ->
                            base x = NullFrame).
  { intros x Hx. apply repeat_spec in Hx. now subst x. }
  pose proof (create_loop_outcomes
                (repeat zero_frame (Z.to_nat FF_FRAME_QUEUE_SIZE)) [] 0
                (Z.min max FF_FRAME_QUEUE_SIZE) keep alloc_ok eq_refl Slots
                (proj1 Fits) (proj2 Fits) (fun j Hj => ltac:(lia))
                (fun x Hx => match Hx with end) Blank) as Hyp.
  rewrite Hmin.
  destruct (create_loop [] (repeat zero_frame (Z.to_nat FF_FRAME_QUEUE_SIZE)) 0
              (Z.min max FF_FRAME_QUEUE_SIZE) keep alloc_ok) as [queue|allocated freed|k];
    [|tauto|exact Hyp].
  destruct Hyp as ((given & spare & Ef & Lg & Ls & Hg & Hs) & R0 & W0 & S0 & Sh0 & Ms & Kl & Al).
  rewrite Ms. repeat split; auto.
  intros i Hi. unfold frame_at. rewrite Ef.
  destruct i as [|p|p]; try lia.
  - destruct (Z.ltb_spec 0 (Z.min max FF_FRAME_QUEUE_SIZE)) as [Lt|Ge].
    + rewrite app_nth1 by lia. apply Hg, nth_In. lia.
    + rewrite app_nth2 by lia. apply Hs, nth_In. lia.
  - destruct (Z.ltb_spec (Z.pos p) (Z.min max FF_FRAME_QUEUE_SIZE)) as [Lt|Ge].
    + rewrite app_nth1 by lia. apply Hg, nth_In. lia.
    + rewrite app_nth2 by lia. apply Hs, nth_In. lia.
Qed.

(** X5. A negative capacity is not rejected: the allocation loop of
    [ff_frame_queue_create] never meets [i == max_size], and when no
    allocation fails it runs through all 16 slots and reaches
    [frames[16]], one past the array. *)
Theorem ff_frame_queue_create_negative_capacity (max : Z) (keep : bool)
    (alloc_ok : Z -> bool) :
  max < 0 -> (forall i, alloc_ok i = true) ->
  ff_frame_queue_create max keep true true true alloc_ok
  = OutOfArray FF_FRAME_QUEUE_SIZE.
Proof.
  intros Neg All. unfold ff_frame_queue_create.
  assert (Hmin : FFMIN_int max FF_FRAME_QUEUE_SIZE = max).
  { unfold FFMIN_int. rewrite FF_FRAME_QUEUE_SIZE_value.
    destruct (Z.gtb_spec max 16); lia. }
  rewrite Hmin.
  destruct max as [|p|p]; try lia.
  change (Z.to_nat FF_FRAME_QUEUE_SIZE) with 16%nat.
  cbn [repeat create_loop Z.eqb app].
  rewrite !All.
  reflexivity.
Qed.
End FrameQueueFacts.

Lemma frame_queue_stays_in_bounds_witness :
  FrameQueue.max_size Demo.pictures_after = Z.min 3 FrameQueue.FF_FRAME_QUEUE_SIZE /\
  0 <= FrameQueue.ff_frame_queue_peek_last Demo.pictures_after
    < FrameQueue.max_size Demo.pictures_after /\
  0 <= FrameQueue.ff_frame_queue_peek Demo.pictures_after
    < FrameQueue.max_size Demo.pictures_after /\
  0 <= FrameQueue.ff_frame_queue_peek_next Demo.pictures_after
    < FrameQueue.max_size Demo.pictures_after /\
  0 <= FrameQueue.windex Demo.pictures_after < FrameQueue.max_size Demo.pictures_after /\
  FrameQueue.windex Demo.pictures_after
  = (FrameQueue.rindex Demo.pictures_after + FrameQueue.size Demo.pictures_after)
      mod FrameQueue.max_size Demo.pictures_after /\
  0 <= FrameQueue.ff_frame_queue_get_frames_remaining Demo.pictures_after
    <= FrameQueue.size Demo.pictures_after /\
  FrameQueue.size Demo.pictures_after <= FrameQueue.max_size Demo.pictures_after /\
  (true = false -> FrameQueue.ff_frame_queue_rindex_shown Demo.pictures_after = 0).
Proof.
  apply (frame_queue_stays_in_bounds 3 true (fun _ => true) Demo.picture_history
           Demo.fresh_pictures Demo.pictures_after).
  - lia.
  - reflexivity.
  - reflexivity.
Defined.

Lemma frame_queue_is_fifo_witness :
  FrameQueue.unread Demo.pictures_after = [Demo.picture 3].
Proof.
  apply (frame_queue_is_fifo 3 true (fun _ => true) Demo.picture_history
           Demo.fresh_pictures Demo.pictures_after).
  - lia.
  - reflexivity.
  - reflexivity.
Defined.

Lemma ff_frame_queue_next_keeps_last_witness :
  FrameQueue.frame_at (FrameQueue.ff_frame_queue_next Demo.pictures_after)
    (FrameQueue.ff_frame_queue_peek_last (FrameQueue.ff_frame_queue_next Demo.pictures_after))
  = Demo.picture 3.
Proof.
  apply (ff_frame_queue_next_keeps_last 3 (fun _ => true) Demo.picture_history
           Demo.fresh_pictures Demo.pictures_after).
  - lia.
  - reflexivity.
  - reflexivity.
  - vm_compute. reflexivity.
Defined.

Lemma ff_frame_queue_create_outcomes_witness :
  match FrameQueue.ff_frame_queue_create 9 true true true true (fun i => i <? 4) with
  | FrameQueue.NoQueue allocated freed => allocated = freed /\ freed = 4
  | _ => False
  end.
Proof.
  pose proof (ff_frame_queue_create_outcomes 9 true true true true (fun i => i <? 4)) as H.
  vm_compute in H. vm_compute.
  destruct H as (E & _); [discriminate|]. split; reflexivity.
Defined.

Lemma ff_frame_queue_create_negative_capacity_witness :
  FrameQueue.ff_frame_queue_create (-1) false true true true (fun _ => true)
  = FrameQueue.OutOfArray FrameQueue.FF_FRAME_QUEUE_SIZE.
Proof.
  apply (ff_frame_queue_create_negative_capacity (-1) false (fun _ => true)).
  - lia.
  - intros i. reflexivity.
Defined.

Section BlockingPeeks.
Import PacketQueue FrameQueue.

(** The waiting loop ends only in a state that fails its test, after as
    many waits as wake-ups it consumed; a state that fails the test at
    entry is returned at once. *)
Lemma wait_while_exit (test : shared -> bool) (wakeups : list (shared -> shared)) :
  forall s waits s' waits',
    wait_while test s wakeups waits = Some (s', waits') ->
    test s' = false /\
    (waits <= waits' <= waits + length wakeups)%nat /\
    (test s = false -> s' = s /\ waits' = waits) /\
    s' = fold_left (fun st others => others st) (firstn (waits' - waits) wakeups) s.
Proof.
  induction wakeups as [|others rest IH]; intros s waits s' waits' H; cbn [wait_while] in H.
  - destruct (test s) eqn:T; [discriminate|]. injection H as <- <-.
    rewrite Nat.sub_diag. cbn. repeat split; auto; lia.
  - destruct (test s) eqn:T.
    + destruct (IH _ _ _ _ H) as (T' & B & _ & F). cbn [length].
      repeat split; auto; try lia; try discriminate.
      replace (waits' - waits)%nat with (S (waits' - S waits)) by lia.
      cbn [firstn fold_left]. exact F.
    + injection H as <- <-. rewrite Nat.sub_diag. cbn. repeat split; auto; lia.
Qed.

(** [ff_frame_queue_peek_writable] leaves its loop only with room in the
    queue or with the packet queue aborted, and the final read of the abort
    flag decides between NULL and the write slot. *)
Lemma peek_writable_exit (queue : ff_frame_queue_t) (packet_queue : ff_packet_queue_t)
    (wakeups : list (shared -> shared)) (late : shared -> shared) (o : peek_outcome) :
  ff_frame_queue_peek_writable queue packet_queue wakeups late = Some o ->
  exists s,
    s = fold_left (fun st others => others st) (firstn (peek_waits o) wakeups)
                  (queue, packet_queue) /\
    (size (fst s) < max_size (fst s) \/ ff_packet_queue_get_aborted (snd s) = true) /\
    peek_state o = late s /\
    peek_slot o = (if ff_packet_queue_get_aborted (snd (late s)) then None
                   else Some (windex (fst (late s)))).
Proof.
  intros H. unfold ff_frame_queue_peek_writable in H.
  destruct (wait_while _ (queue, packet_queue) wakeups 0) as [[s waits]|] eqn:Wt;
    [|discriminate].
  apply wait_while_exit in Wt. destruct Wt as (T & B & At & F).
  rewrite Nat.sub_0_r in F.
  assert (Ew : peek_waits o = waits /\ peek_state o = late s /\
               peek_slot o = (if ff_packet_queue_get_aborted (snd (late s)) then None
                              else Some (windex (fst (late s))))).
  { destruct (ff_packet_queue_get_aborted (snd (late s))); injection H as <-; auto. }
  destruct Ew as (Ew & Es & El). exists s. rewrite Ew.
  repeat split; auto.
  apply andb_false_iff in T. destruct T as [T|T].
  - left. destruct (Z.geb_spec (size (fst s)) (max_size (fst s))); [discriminate|lia].
  - right. now apply negb_false_iff in T.
Qed.

(** X6. [ff_frame_queue_peek_writable] leaves its waiting loop only in a
    state where the queue has room or the packet queue is aborted, and
    [ff_frame_queue_peek_readable] only where a frame remains or the packet
    queue is aborted; each returns NULL exactly when the packet queue is
    aborted at the final read, and otherwise the write slot, respectively
    the slot of the oldest unread frame. When the condition holds at entry
    the call returns without waiting. *)
Theorem blocking_peeks_return (queue : ff_frame_queue_t) (packet_queue : ff_packet_queue_t)
    (wakeups : list (shared -> shared)) (late : shared -> shared) :
  (forall o, ff_frame_queue_peek_writable queue packet_queue wakeups late = Some o ->
     exists s,
       s = fold_left (fun st others => others st) (firstn (peek_waits o) wakeups)
                     (queue, packet_queue) /\
       (size (fst s) < max_size (fst s) \/ ff_packet_queue_get_aborted (snd s) = true) /\
       peek_state o = late s /\
       peek_slot o = (if ff_packet_queue_get_aborted (snd (late s)) then None
                      else Some (windex (fst (late s))))) /\
  (size queue < max_size queue \/ ff_packet_queue_get_aborted packet_queue = true ->
   exists o, ff_frame_queue_peek_writable queue packet_queue wakeups late = Some o /\
             peek_waits o = 0%nat) /\
  (forall o, ff_frame_queue_peek_readable queue packet_queue wakeups late = Some o ->
     exists s,
       s = fold_left (fun st others => others st) (firstn (peek_waits o) wakeups)
                     (queue, packet_queue) /\
       (0 < ff_frame_queue_get_frames_remaining (fst s)
        \/ ff_packet_queue_get_aborted (snd s) = true) /\
       peek_state o = late s /\
       peek_slot o = (if ff_packet_queue_get_aborted (snd (late s)) then None
                      else Some (ff_frame_queue_peek (fst (late s))))) /\
  (0 < ff_frame_queue_get_frames_remaining queue
   \/ ff_packet_queue_get_aborted packet_queue = true ->
   exists o, ff_frame_queue_peek_readable queue packet_queue wakeups late = Some o /\
             peek_waits o = 0%nat).
Proof.
  split; [|split; [|split]].
  - intros o H. exact (peek_writable_exit _ _ _ _ _ H).
  - intros Free. unfold ff_frame_queue_peek_writable.
    assert (T : (size queue >=? max_size queue)
                && negb (ff_packet_queue_get_aborted packet_queue) = false).
    { destruct Free as [Room|Ab]; [|rewrite Ab; apply andb_false_r].
      destruct (Z.geb_spec (size queue) (max_size queue)); [lia|reflexivity]. }
    destruct wakeups; cbn [wait_while fst snd]; rewrite T;
      destruct (ff_packet_queue_get_aborted (snd (late (queue, packet_queue))));
      eexists; split; reflexivity.
  - intros o H. unfold ff_frame_queue_peek_readable in H.
    destruct (wait_while _ (queue, packet_queue) wakeups 0) as [[s waits]|] eqn:Wt;
      [|discriminate].
    apply wait_while_exit in Wt. destruct Wt as (T & B & At & F).
    rewrite Nat.sub_0_r in F.
    assert (Ew : peek_waits o = waits /\ peek_state o = late s /\
                 peek_slot o = (if ff_packet_queue_get_aborted (snd (late s)) then None
                                else Some (ff_frame_queue_peek (fst (late s))))).
    { destruct (ff_packet_queue_get_aborted (snd (late s))); injection H as <-; auto. }
    destruct Ew as (Ew & Es & El). exists s. rewrite Ew.
    repeat split; auto.
    apply andb_false_iff in T. destruct T as [T|T].
    + left. unfold ff_frame_queue_get_frames_remaining. apply Z.leb_gt in T. exact T.
    + right. now apply negb_false_iff in T.
  - intros Free. unfold ff_frame_queue_peek_readable.
    assert (T : (wrap_int (size queue - rindex_shown queue) <=? 0)
                && negb (ff_packet_queue_get_aborted packet_queue) = false).
    { destruct Free as [Some|Ab]; [|rewrite Ab; apply andb_false_r].
      unfold ff_frame_queue_get_frames_remaining in Some.
      apply Z.leb_gt in Some. rewrite Some. reflexivity. }
    destruct wakeups; cbn [wait_while fst snd]; rewrite T;
      destruct (ff_packet_queue_get_aborted (snd (late (queue, packet_queue))));
      eexists; split; reflexivity.
Qed.

End BlockingPeeks.

(** ** Counters and order of the packet queue *)

Section PacketQueueAccounting.
Import PacketQueue PacketAccounting.

Lemma total_app (f : packet_t -> Z) (l : list packet_t) (p : packet_t) :
  total f (l ++ [p]) = total f l + f p.
Proof.
  unfold total. induction l as [|h t IH]; cbn [app fold_right]; [lia|rewrite IH; lia].
Qed.

Lemma wrap_int_add (a b : Z) : wrap_int (wrap_int a + b) = wrap_int (a + b).
Proof.
  unfold wrap_int. f_equal.
  replace ((a + 2 ^ 31) mod 2 ^ 32 - 2 ^ 31 + b + 2 ^ 31) with ((a + 2 ^ 31) mod 2 ^ 32 + b) by lia.
  rewrite Zplus_mod_idemp_l. f_equal. lia.
Qed.

Lemma wrap_int64_add (a b : Z) : wrap_int64 (wrap_int64 a + b) = wrap_int64 (a + b).
Proof.
  unfold wrap_int64. f_equal.
  replace ((a + 2 ^ 63) mod 2 ^ 64 - 2 ^ 63 + b + 2 ^ 63) with ((a + 2 ^ 63) mod 2 ^ 64 + b) by lia.
  rewrite Zplus_mod_idemp_l. f_equal. lia.
Qed.

Lemma wrap_int_sub (a b : Z) : wrap_int (wrap_int a - b) = wrap_int (a - b).
Proof. unfold Z.sub. apply wrap_int_add. Qed.

Lemma wrap_int64_sub (a b : Z) : wrap_int64 (wrap_int64 a - b) = wrap_int64 (a - b).
Proof. unfold Z.sub. apply wrap_int64_add. Qed.

Lemma wrap_size_t_add (a s : Z) :
  wrap_size_t (wrap_size_t a + wrap_size_t (wrap_size_t s + sizeof_packet_t))
  = wrap_size_t (a + (s + sizeof_packet_t)).
Proof.
  unfold wrap_size_t. rewrite (Zplus_mod_idemp_l s), <- Zplus_mod. reflexivity.
Qed.

Lemma wrap_size_t_sub (a s : Z) :
  wrap_size_t (wrap_size_t a - wrap_size_t (wrap_size_t s + sizeof_packet_t))
  = wrap_size_t (a - (s + sizeof_packet_t)).
Proof.
  unfold wrap_size_t. rewrite (Zplus_mod_idemp_l s), <- Zminus_mod. reflexivity.
Qed.

Lemma accounted_put (queue : ff_packet_queue_t) (src : AVPacket) (alloc_ok : bool)
    (fifo_ret : Z) :
  accounted queue -> accounted (snd (ff_packet_queue_put queue src alloc_ok fifo_ret)).
Proof.
  intros (Hc & Hs & Hd). unfold ff_packet_queue_put, packet_queue_put_private.
  destruct alloc_ok; cbn [negb]; [|split; [|split]; assumption].
  destruct (aborted queue); [split; [|split]; assumption|].
  cbv zeta. destruct (fifo_ret <? 0); [split; [|split]; assumption|].
  unfold accounted; cbn [snd packets packet_count q_size q_duration base].
  rewrite length_app, !total_app, Hc, Hs, Hd. cbn [length base].
  rewrite wrap_int_add, wrap_int64_add, wrap_size_t_add.
  repeat split; f_equal; lia.
Qed.

Lemma accounted_get (queue : ff_packet_queue_t) (block : Z)
    (wakeups : list (ff_packet_queue_t -> ff_packet_queue_t)) :
  accounted queue ->
  (forall others q, In others wakeups -> accounted q -> accounted (others q)) ->
  accounted (get_queue (ff_packet_queue_get queue block wakeups)).
Proof.
  unfold ff_packet_queue_get. generalize 0%nat as waits.
  revert queue. induction wakeups as [|others rest IH]; intros queue waits A Hw;
    cbn [get_loop]; destruct (aborted queue); cbn [get_queue]; auto;
    destruct A as (Hc & Hs & Hd);
    destruct (packets queue) as [|p fifo] eqn:E; cbn [av_fifo_read].
  - destruct (block =? 0); cbn [get_queue]; unfold accounted; rewrite E; auto.
  - unfold accounted; cbn [get_queue packets packet_count q_size q_duration].
    rewrite Hc, Hs, Hd. cbn [length total fold_right].
    rewrite wrap_int_sub, wrap_int64_sub, wrap_size_t_sub.
    repeat split; f_equal; unfold total; lia.
  - destruct (block =? 0); cbn [get_queue].
    + unfold accounted; rewrite E; auto.
    + apply IH.
      * apply Hw; [now left|]. unfold accounted; rewrite E; auto.
      * intros o q Ho. apply Hw. now right.
  - unfold accounted; cbn [get_queue packets packet_count q_size q_duration].
    rewrite Hc, Hs, Hd. cbn [length total fold_right].
    rewrite wrap_int_sub, wrap_int64_sub, wrap_size_t_sub.
    repeat split; f_equal; unfold total; lia.
Qed.

Lemma accounted_apply_op (queue : ff_packet_queue_t) (o : queue_op) :
  accounted queue -> accounted (apply_op queue o).
Proof.
  intros A. destruct o as [| | |src a r|pkt i a r|block]; cbn [apply_op].
  - exact A.
  - exact A.
  - unfold ff_packet_queue_flush.
    pose proof (flush_loop_drains (packets queue) []) as D.
    destruct (flush_loop (packets queue) []) as [fifo freed]. cbn [fst] in *.
    unfold accounted; cbn [packets packet_count q_size q_duration]. rewrite D.
    repeat split.
  - now apply accounted_put.
  - unfold ff_packet_queue_put_nullpacket. now apply accounted_put.
  - apply accounted_get; [exact A|]. intros others q [].
Qed.

(** X7. In every state a packet queue reaches from
    [ff_packet_queue_create] by starts, aborts, flushes, puts and gets, its
    three counters account for the packets it holds: the packet count is
    their number, the size is the sum of their payload sizes plus
    [sizeof(packet_t)] each, the duration is the sum of their durations,
    each in the arithmetic of its C type. *)
Theorem packet_queue_counters_account (calloc_ok fifo_ok mtx_ok cnd_ok : bool)
    (fresh : ff_packet_queue_t) (ops : list queue_op) :
  ff_packet_queue_create calloc_ok fifo_ok mtx_ok cnd_ok = Some fresh ->
  let queue := run_ops fresh ops in
  ff_packet_queue_get_packet_count queue = wrap_int (Z.of_nat (length (packets queue))) /\
  ff_packet_queue_get_size queue
  = wrap_size_t (total (fun p => size (base p) + sizeof_packet_t) (packets queue)) /\
  ff_packet_queue_get_duration queue
  = wrap_int64 (total (fun p => duration (base p)) (packets queue)).
Proof.
  intros Hc queue. subst queue.
  assert (A0 : accounted fresh).
  { unfold ff_packet_queue_create in Hc.
    destruct calloc_ok, fifo_ok, mtx_ok, cnd_ok; try discriminate.
    injection Hc as <-. repeat split. }
  clear Hc. revert fresh A0. unfold run_ops.
  induction ops as [|o ops IH]; intros fresh A0; cbn [fold_left].
  - exact A0.
  - apply IH. now apply accounted_apply_op.
Qed.


Lemma run_ops_accounted (ops : list queue_op) (queue : ff_packet_queue_t) :
  accounted queue -> accounted (run_ops queue ops).
Proof.
  revert queue. unfold run_ops.
  induction ops as [|o ops IH]; intros queue A; cbn [fold_left]; auto.
  apply IH. now apply accounted_apply_op.
Qed.

(** X8. On a started queue a put with memory available succeeds, and the
    get that follows returns 1 at once with the oldest packet: the one
    that was at the head, or, on an empty queue, the packet just put,
    stamped with the serial of the queue. The rest of the queue keeps its
    order, and on an empty queue put followed by get gives back the queue
    as it was, counters included. *)
Theorem ff_packet_queue_put_then_get (calloc_ok fifo_ok mtx_ok cnd_ok : bool)
    (fresh : ff_packet_queue_t) (ops : list queue_op)
    (src : AVPacket) (fifo_ret block : Z)
    (wakeups : list (ff_packet_queue_t -> ff_packet_queue_t)) :
  ff_packet_queue_create calloc_ok fifo_ok mtx_ok cnd_ok = Some fresh ->
  let queue := run_ops fresh ops in
  ff_packet_queue_get_aborted queue = false ->
  0 <= fifo_ret ->
  let stored := ff_packet_queue_put queue src true fifo_ret in
  let got := ff_packet_queue_get (snd stored) block wakeups in
  fst stored = 0 /\
  get_ret got = Some 1 /\
  get_waits got = 0%nat /\
  get_packet got = Some (hd (mk_packet src (ff_packet_queue_get_serial queue)) (packets queue)) /\
  packets (get_queue got) = tl (packets queue ++ [mk_packet src (ff_packet_queue_get_serial queue)]) /\
  (packets queue = [] -> get_queue got = queue).
Proof.
  intros Hc queue Ab Hr stored got.
  assert (A : accounted queue).
  { apply run_ops_accounted. unfold ff_packet_queue_create in Hc.
    destruct calloc_ok, fifo_ok, mtx_ok, cnd_ok; try discriminate.
    injection Hc as <-. repeat split. }
  unfold ff_packet_queue_get_aborted, ff_packet_queue_get_serial in *.
  subst stored got. unfold ff_packet_queue_put, packet_queue_put_private.
  cbn [negb]. rewrite Ab. cbv zeta.
  destruct (Z.ltb_spec fifo_ret 0) as [Lt|_]; [lia|].
  cbn [fst snd]. unfold ff_packet_queue_get.
  assert (Back : packets queue = [] ->
    {| packets := [];
       packet_count := wrap_int (wrap_int (packet_count queue + 1) - 1);
       q_size := wrap_size_t
                   (wrap_size_t (q_size queue
                                 + wrap_size_t (wrap_size_t (size src) + sizeof_packet_t))
                    - wrap_size_t (wrap_size_t (size src) + sizeof_packet_t));
       q_duration := wrap_int64 (wrap_int64 (q_duration queue + duration src) - duration src);
       aborted := false;
       q_serial := q_serial queue |} = queue).
  { intros E. destruct A as (Hn & Hs & Hd). rewrite E in Hn, Hs, Hd.
    cbn [length total fold_right] in Hn, Hs, Hd.
    destruct queue as [ps n sz d ab ser].
    cbn [packet_count q_size q_duration aborted q_serial PacketQueue.packets] in *.
    subst ps ab n sz d. f_equal.
    - rewrite wrap_size_t_add, wrap_size_t_sub. f_equal. lia.
    - rewrite wrap_int64_add, wrap_int64_sub. f_equal. lia. }
  destruct wakeups as [|others rest]; cbn [get_loop aborted packets];
    destruct (packets queue) as [|p fifo] eqn:E;
    cbn [app av_fifo_read get_ret get_waits get_packet get_queue packets hd tl base];
    repeat split; try reflexivity; try discriminate; intros _; apply Back; reflexivity.
Qed.

(** X9. [ff_packet_queue_get] returns -1, 0 or 1, or is still waiting. A
    call that does not block never waits and always returns; a blocking
    call never returns 0. It returns 1 exactly when it hands out a packet,
    -1 only on an aborted queue, 0 only on an empty queue that is not
    aborted, and it is still waiting only on such a queue after every
    wake-up it was given. *)
Theorem ff_packet_queue_get_outcomes (queue : ff_packet_queue_t) (block : Z)
    (wakeups : list (ff_packet_queue_t -> ff_packet_queue_t)) :
  let got := ff_packet_queue_get queue block wakeups in
  (block = 0 -> get_waits got = 0%nat /\ get_ret got <> None) /\
  (block <> 0 -> get_ret got <> Some 0) /\
  (get_ret got = Some 1 <-> get_packet got <> None) /\
  (get_ret got = Some (-1) -> ff_packet_queue_get_aborted (get_queue got) = true) /\
  (get_ret got = Some 0 ->
   packets (get_queue got) = [] /\ ff_packet_queue_get_aborted (get_queue got) = false) /\
  (get_ret got = None ->
   packets (get_queue got) = [] /\ ff_packet_queue_get_aborted (get_queue got) = false /\
   get_waits got = S (length wakeups)) /\
  (get_ret got = Some (-1) \/ get_ret got = Some 0 \/ get_ret got = Some 1 \/ get_ret got = None).
Proof.
  unfold ff_packet_queue_get, ff_packet_queue_get_aborted.
  assert (G : forall waits,
    let got := get_loop queue block wakeups waits in
    (block = 0 -> get_waits got = waits /\ get_ret got <> None) /\
    (block <> 0 -> get_ret got <> Some 0) /\
    (get_ret got = Some 1 <-> get_packet got <> None) /\
    (get_ret got = Some (-1) -> aborted (get_queue got) = true) /\
    (get_ret got = Some 0 -> packets (get_queue got) = [] /\ aborted (get_queue got) = false) /\
    (get_ret got = None ->
     packets (get_queue got) = [] /\ aborted (get_queue got) = false /\
     get_waits got = (waits + S (length wakeups))%nat) /\
    (get_ret got = Some (-1) \/ get_ret got = Some 0 \/ get_ret got = Some 1 \/ get_ret got = None)).
  { revert queue. induction wakeups as [|others rest IH]; intros queue waits;
      cbn [get_loop]; destruct (aborted queue) eqn:Ab;
      cbn [get_ret get_packet get_queue get_waits].
    - repeat split; intros; try discriminate; try congruence; auto.
    - destruct (packets queue) as [|p fifo] eqn:E; cbn [av_fifo_read].
      + destruct (Z.eqb_spec block 0) as [B|B];
          cbn [get_ret get_packet get_queue get_waits length];
          repeat split; intros; try discriminate; try congruence; auto; try lia.
      + cbn [get_ret get_packet get_queue get_waits aborted].
        repeat split; intros; try discriminate; try congruence; auto.
    - repeat split; intros; try discriminate; try congruence; auto.
    - destruct (packets queue) as [|p fifo] eqn:E; cbn [av_fifo_read].
      + destruct (Z.eqb_spec block 0) as [B|B].
        * cbn [get_ret get_packet get_queue get_waits length];
          repeat split; intros; try discriminate; try congruence; auto.
        * destruct (IH (others queue) (S waits)) as (I1 & I2 & I3 & I4 & I5 & I6 & I7).
          cbn [length].
          split; [intros B0; contradiction|].
          split; [exact I2|]. split; [exact I3|]. split; [exact I4|]. split; [exact I5|].
          split; [|exact I7].
          intros H. destruct (I6 H) as (P & A & W). repeat split; auto. lia.
      + cbn [get_ret get_packet get_queue get_waits aborted].
        repeat split; intros; try discriminate; try congruence; auto. }
  exact (G 0%nat).
Qed.

(** X10. [ff_packet_queue_flush] frees exactly the packets that were
    queued, each once and oldest first, leaves the abort flag as it was, and
    a get that does not block finds no packet afterwards. *)
Theorem ff_packet_queue_flush_frees_all (queue : ff_packet_queue_t)
    (wakeups : list (ff_packet_queue_t -> ff_packet_queue_t)) :
  snd (ff_packet_queue_flush queue) = map base (packets queue) /\
  ff_packet_queue_get_aborted (fst (ff_packet_queue_flush queue))
  = ff_packet_queue_get_aborted queue /\
  get_packet (ff_packet_queue_get (fst (ff_packet_queue_flush queue)) 0 wakeups) = None.
Proof.
  unfold ff_packet_queue_flush, ff_packet_queue_get_aborted.
  pose proof (flush_loop_drains (packets queue) []) as D.
  pose proof (flush_loop_frees (packets queue) []) as F.
  destruct (flush_loop (packets queue) []) as [fifo freed]. cbn [fst snd app] in *.
  subst fifo. repeat split; auto.
  unfold ff_packet_queue_get.
  destruct wakeups; cbn [get_loop aborted packets av_fifo_read Z.eqb];
    destruct (aborted queue); reflexivity.
Qed.

End PacketQueueAccounting.

Lemma packet_queue_counters_account_witness :
  PacketQueue.ff_packet_queue_get_size
    (PacketQueue.run_ops Sample.fresh_queue Sample.sample_history) = 1016.
Proof.
  apply (packet_queue_counters_account true true true true Sample.fresh_queue
           Sample.sample_history).
  reflexivity.
Defined.

Lemma ff_packet_queue_put_then_get_witness :
  PacketQueue.get_packet
    (PacketQueue.ff_packet_queue_get
       (snd (PacketQueue.ff_packet_queue_put
               (PacketQueue.run_ops Sample.fresh_queue [PacketQueue.op_start])
               Sample.sample_packet true 0))
       1 [])
  = Some (PacketQueue.mk_packet Sample.sample_packet 1).
Proof.
  apply (ff_packet_queue_put_then_get true true true true Sample.fresh_queue
           [PacketQueue.op_start] Sample.sample_packet 0 1 []).
  - reflexivity.
  - reflexivity.
  - lia.
Defined.

(** ** Storing a value in a clock *)

Section ClockRoundTrip.
Import Clock.

(** What [ff_clock_get] computes at the wall time a value was stored:
    [(v - t) + t - (t - t) * (1 - speed)]. *)
Lemma anchored_reading (v t s : double) :
  Spec.ordinary s -> Spec.ordinary t -> wf v ->
  (is_finite v = true -> Z.abs (scaled v) < 2 ^ 2095) ->
  Spec.within_epsilon ((v - t) + t - (t - t) * (of_int 1 - s))%D v t.
Proof.
  intros Hs (Nt & Wt & Bt) Wv Hb.
  rewrite (sub_self_zero t Nt).
  destruct (mul_zero_finite (of_int 1 - s)%D (one_minus_finite s Hs)) as [sz ->].
  destruct (is_finite v) eqn:Nv.
  - destruct (reanchor_error v t Nv Nt Wv Wt (Hb eq_refl) Bt) as (Nr & Wr & Er).
    destruct (sub_zero_scaled _ sz Nr) as [Na Ea].
    right. split; [exact Na|]. split; [exact Nv|].
    unfold add, sub in *. rewrite Ea. exact Er.
  - left. clear Hb Wv.
    destruct v as [|sv| |]; try discriminate.
    + destruct t as [[]|[]| |st mt et]; try discriminate; destruct sv, sz; reflexivity.
    + reflexivity.
Qed.

Lemma ff_clock_set_then_get_aux (live : serials) (clock : ff_clock_t)
    (value : double) (stamp now : Z) :
  Spec.ordinary (speed clock) ->
  Spec.ordinary (seconds now) ->
  wf value ->
  (is_finite value = true -> Z.abs (scaled value) < 2 ^ 2095) ->
  queue_serial clock = PtrOwnSerial ->
  Spec.within_epsilon (ff_clock_get live (ff_clock_set clock value stamp now) now)
    value (seconds now)
  /\ (truthy (paused clock) = true ->
      ff_clock_get live (ff_clock_set clock value stamp now) now = value).
Proof.
  intros Hs Ht Wv Hb Own.
  unfold ff_clock_get, ff_clock_set, ff_clock_set_at, deref;
    cbn [queue_serial serial paused pts pts_drift last_updated speed].
  rewrite Own, Z.eqb_refl. cbn [negb].
  destruct (truthy (paused clock)).
  - split; [left|]; reflexivity.
  - split; [|discriminate]. now apply anchored_reading.
Qed.

(** X11. A value stored with [ff_clock_set] is the value [ff_clock_get]
    reads at the same wall time: exactly when the clock is paused, and
    otherwise within [2^-51] of the larger of the value and the wall time
    (NaN and the infinities are read back as stored). When the serial cell
    of the clock does not hold the serial stored with the value the reading
    is NaN; a clock that points at its own serial never is in that case. *)
Theorem ff_clock_set_then_get (live : serials) (clock : ff_clock_t)
    (value : double) (stamp now : Z) :
  Spec.ordinary (speed clock) ->
  Spec.ordinary (seconds now) ->
  wf value ->
  (is_finite value = true -> Z.abs (scaled value) < 2 ^ 2095) ->
  let clock' := ff_clock_set clock value stamp now in
  let reading := ff_clock_get live clock' now in
  (deref live clock' <> stamp -> reading = NAN) /\
  (deref live clock' = stamp ->
   Spec.within_epsilon reading value (seconds now) /\
   (truthy (paused clock) = true -> reading = value)) /\
  (queue_serial clock = PtrOwnSerial -> deref live clock' = stamp).
Proof.
  intros Hs Ht Wv Hb clock' reading. subst clock' reading.
  unfold ff_clock_get, ff_clock_set, ff_clock_set_at, deref;
    cbn [queue_serial serial paused pts pts_drift last_updated speed].
  split; [|split].
  - intros Stale. apply Z.eqb_neq in Stale. rewrite Stale. reflexivity.
  - intros Fresh. apply Z.eqb_eq in Fresh. rewrite Fresh. cbn [negb].
    destruct (truthy (paused clock)).
    + split; [left|]; reflexivity.
    + split; [|discriminate]. now apply anchored_reading.
  - intros ->. reflexivity.
Qed.

(** X12. [ff_clock_sync_to_slave] never stores NaN: when the slave reads
    NaN the clock is left as it is, and the stored value of the clock is NaN
    afterwards only if it was before. When the slave reads a number and the
    clock reads NaN or is further than the threshold from it, a clock that
    points at its own serial (the external clock) takes the serial of the
    slave and reads the value of the slave within float epsilon (the same
    wall-clock reading throughout). *)
Theorem ff_clock_sync_to_slave_adopts (live : serials) (clock slave : ff_clock_t)
    (no_sync_threshold : double) (now : Z) :
  Spec.ordinary (speed clock) ->
  Spec.ordinary (seconds now) ->
  queue_serial clock = PtrOwnSerial ->
  let clock_val := ff_clock_get live clock now in
  let slave_clock := ff_clock_get live slave now in
  let clock' := ff_clock_sync_to_slave live clock slave no_sync_threshold now now now in
  wf slave_clock ->
  (is_finite slave_clock = true -> Z.abs (scaled slave_clock) < 2 ^ 2095) ->
  (isnan slave_clock = true -> clock' = clock) /\
  (isnan slave_clock = false ->
   isnan clock_val = true
   \/ (fabs (clock_val - slave_clock) >? no_sync_threshold)%D = true ->
   serial clock' = serial slave /\
   Spec.within_epsilon (ff_clock_get live clock' now) slave_clock (seconds now)) /\
  (isnan (pts clock') = true -> isnan (pts clock) = true).
Proof.
  intros Hs Ht Own clock_val slave_clock clock' Wv Hb.
  subst clock'. unfold ff_clock_sync_to_slave.
  fold clock_val slave_clock.
  split; [|split].
  - intros ->. reflexivity.
  - intros Num Off. rewrite Num. cbn [negb andb].
    assert (Go : isnan clock_val || (fabs (clock_val - slave_clock) >? no_sync_threshold)%D = true).
    { destruct Off as [-> | ->]; [reflexivity|apply orb_true_r]. }
    rewrite Go. split; [reflexivity|].
    destruct (ff_clock_set_then_get_aux live clock slave_clock (serial slave) now Hs Ht Wv Hb Own)
      as [W _]. exact W.
  - destruct (negb (isnan slave_clock)
              && (isnan clock_val
                  || (fabs (clock_val - slave_clock) >? no_sync_threshold)%D)) eqn:Go; auto.
    apply andb_true_iff in Go. destruct Go as [Num _].
    cbn [ff_clock_set ff_clock_set_at pts]. intros N. rewrite N in Num. discriminate.
Qed.

End ClockRoundTrip.

Lemma ff_clock_set_then_get_witness :
  Spec.within_epsilon
    (Clock.ff_clock_get (fun _ => 1)
       (Clock.ff_clock_set Sample.slowed_clock (dec 75 10) 1 Sample.later) Sample.later)
    (dec 75 10) (Clock.seconds Sample.later).
Proof.
  apply (ff_clock_set_then_get (fun _ => 1) Sample.slowed_clock (dec 75 10) 1 Sample.later).
  - repeat split; vm_compute; try reflexivity; discriminate.
  - repeat split; vm_compute; try reflexivity; discriminate.
  - vm_compute. discriminate.
  - intros _. vm_compute. reflexivity.
  - reflexivity.
Defined.

Lemma ff_clock_sync_to_slave_adopts_witness :
  Spec.within_epsilon
    (Clock.ff_clock_get (fun _ => 1)
       (Clock.ff_clock_sync_to_slave (fun _ => 1) Demo.unset_external_clock
          Demo.video_clock_7s Player.AV_NOSYNC_THRESHOLD Sample.later Sample.later Sample.later)
       Sample.later)
    (Clock.ff_clock_get (fun _ => 1) Demo.video_clock_7s Sample.later)
    (Clock.seconds Sample.later).
Proof.
  apply (ff_clock_sync_to_slave_adopts (fun _ => 1) Demo.unset_external_clock
           Demo.video_clock_7s Player.AV_NOSYNC_THRESHOLD Sample.later).
  - repeat split; vm_compute; try reflexivity; discriminate.
  - repeat split; vm_compute; try reflexivity; discriminate.
  - reflexivity.
  - vm_compute. discriminate.
  - intros _. vm_compute. reflexivity.
  - reflexivity.
  - left. reflexivity.
Defined.

(** ** Signs and bounds in the synchroniser *)

Section NeverNegative.
Import Player Refresh.

(** A double that does not compare below zero: NaN, a zero, a positive
    number or the positive infinity. *)
Lemma not_below_zero_cases (x : double) :
  (x <? of_int 0)%D = false <->
  match x with
  | S754_nan | S754_zero _ => True
  | S754_infinity s | S754_finite s _ _ => s = false
  end.
Proof.
  destruct x as [[]|[]| |[] m e]; cbn; split; intros H; auto; discriminate.
Qed.

(** A rounding keeps the sign it is given. *)
Lemma binary_round_aux_sign (s : bool) (m e : Z) (l : location) :
  match binary_round_aux prec emax s m e l with
  | S754_nan => True
  | S754_zero s' | S754_infinity s' | S754_finite s' _ _ => s' = s
  end.
Proof.
  unfold binary_round_aux.
  destruct (shr_fexp prec emax m e l) as [mrs' e'].
  destruct (shr_fexp prec emax _ e' loc_Exact) as [mrs'' e''].
  destruct (shr_m mrs'') as [|p|p]; auto.
  destruct (e'' <=? emax - prec); reflexivity.
Qed.

Lemma binary_round_sign (s : bool) (m : positive) (e : Z) :
  match binary_round prec emax s m e with
  | S754_nan => True
  | S754_zero s' | S754_infinity s' | S754_finite s' _ _ => s' = s
  end.
Proof.
  unfold binary_round. destruct (shl_align m e _) as [mz ez].
  apply binary_round_aux_sign.
Qed.

(** The sum of two doubles that are above zero does not compare below
    zero. *)
Lemma add_positive (x y : double) :
  (x >? of_int 0)%D = true -> (y >? of_int 0)%D = true ->
  ((x + y) <? of_int 0)%D = false.
Proof.
  intros Hx Hy.
  destruct x as [[]|[]| |[] mx ex]; try discriminate;
    destruct y as [[]|[]| |[] my ey]; try discriminate; try reflexivity.
  apply not_below_zero_cases. unfold add. cbn [SFadd cond_Zopp].
  destruct (shl_align mx ex (Z.min ex ey)) as [mx' ex'].
  destruct (shl_align my ey (Z.min ex ey)) as [my' ey']. cbn [fst].
  cbn [Z.add binary_normalize].
  pose proof (binary_round_sign false (mx' + my') (Z.min ex ey)) as Sg.
  destruct (binary_round prec emax false (mx' + my') (Z.min ex ey)); auto.
Qed.

Lemma twice_not_negative (x : double) :
  (x <? of_int 0)%D = false -> ((of_int 2 * x) <? of_int 0)%D = false.
Proof.
  intros Hx. apply not_below_zero_cases in Hx. apply not_below_zero_cases.
  change (of_int 2) with (S754_finite false 4503599627370496 (-51)).
  destruct x as [sx|sx| |sx mx ex]; cbn [mul SFmul xorb]; auto.
  subst sx.
  pose proof (binary_round_aux_sign false (Z.pos (4503599627370496 * mx)) (-51 + ex) loc_Exact) as Sg.
  destruct (binary_round_aux prec emax false (Z.pos (4503599627370496 * mx)) (-51 + ex) loc_Exact);
    auto.
Qed.

(** X13. [compute_target_delay] never turns a delay that is not below zero
    into one that is: whatever the clocks read, the result does not compare
    below 0. *)
Theorem compute_target_delay_never_negative (player : ff_player_t) (delay : double)
    (now_video now_master : Z) :
  (delay <? of_int 0)%D = false ->
  (compute_target_delay player delay now_video now_master <? of_int 0)%D = false.
Proof.
  intros Hd. unfold compute_target_delay.
  destruct (negb (sync_eqb (get_master_sync_type player) FF_AV_SYNC_VIDEO_MASTER)); [|exact Hd].
  cbv zeta.
  set (diff := (Clock.ff_clock_get (live player) (video_clock player) now_video
                - get_master_clock player now_master)%D).
  set (T := FFMAX AV_SYNC_THRESHOLD_MIN (FFMIN AV_SYNC_THRESHOLD_MAX delay)).
  destruct (negb (isnan diff) && (fabs diff <? max_frame_duration player)%D); [|exact Hd].
  destruct (diff <=? - T)%D; [apply FFMAX_not_below|].
  destruct (diff >=? T)%D eqn:Late; cbn [andb]; [|exact Hd].
  destruct (delay >? AV_SYNC_FRAMEDUP_THRESHOLD)%D eqn:Long.
  - apply add_positive.
    + unfold gt in *. apply (lt_trans _ AV_SYNC_FRAMEDUP_THRESHOLD); [reflexivity|exact Long].
    + destruct (sync_threshold_positive delay) as (m & e & ET). fold T in ET.
      rewrite ET in Late. clear -Late.
      destruct diff as [[]|[]| |[] md ed]; try discriminate; reflexivity.
  - now apply twice_not_negative.
Qed.

(** X14. [frame_duration] returns 0 for frames of different serials, and
    otherwise either the duration stored in the frame or the difference of
    the two timestamps, the latter only when it is a number above 0 and not
    above [max_frame_duration]. The result is below 0, or NaN, only if the
    stored duration is. *)
Theorem frame_duration_range (player : ff_player_t) (frame next_frame : FrameQueue.ff_frame_t) :
  let result := frame_duration player frame next_frame in
  let step := (FrameQueue.pts next_frame - FrameQueue.pts frame)%D in
  (FrameQueue.serial frame <> FrameQueue.serial next_frame -> result = of_int 0) /\
  (result = of_int 0 \/ result = FrameQueue.duration frame
   \/ (result = step /\ isnan result = false /\ (result >? of_int 0)%D = true
       /\ (result >? max_frame_duration player)%D = false)) /\
  ((FrameQueue.duration frame <? of_int 0)%D = false -> (result <? of_int 0)%D = false) /\
  (isnan (FrameQueue.duration frame) = false -> isnan result = false).
Proof.
  intros result step. subst result. unfold frame_duration. fold step.
  destruct (Z.eqb_spec (FrameQueue.serial frame) (FrameQueue.serial next_frame)) as [E|N].
  - cbv zeta.
    destruct (isnan step) eqn:Nan; cbn [orb].
    { repeat split; auto; congruence. }
    destruct (step <=? of_int 0)%D eqn:Le; cbn [orb].
    { repeat split; auto; congruence. }
    destruct (step >? max_frame_duration player)%D eqn:Gt.
    { repeat split; auto; congruence. }
    assert (Pos : (step >? of_int 0)%D = true).
    { clear -Nan Le. destruct step as [[]|[]| |[] m e]; try discriminate; reflexivity. }
    split; [congruence|]. split; [right; right; auto|].
    split; [|auto]. intros _. unfold gt in Pos. apply lt_asym. exact Pos.
  - repeat split; auto; congruence.
Qed.

End NeverNegative.

Lemma compute_target_delay_never_negative_witness :
  (Player.compute_target_delay Sample.video_ahead (dec 4 100) Sample.t100 Sample.t100
   <? of_int 0)%D = false.
Proof.
  apply (compute_target_delay_never_negative Sample.video_ahead (dec 4 100)
           Sample.t100 Sample.t100).
  reflexivity.
Defined.

Section AudioCorrection.
Import Player.

Lemma av_clip_between (a amin amax : Z) :
  amin <= amax -> amin <= av_clip a amin amax <= amax.
Proof.
  intros H. unfold av_clip.
  destruct (Z.ltb_spec a amin); [lia|]. destruct (Z.gtb_spec a amax); lia.
Qed.

(** X15. For a sample count between 0 and [INT_MAX / 110],
    [synchronize_audio] returns a count between 90% and 110% of it (the
    percentages as the code computes them, with truncating division): it is
    never negative and never overflows [int]. *)
Theorem synchronize_audio_within_ten_percent (player : ff_player_t) (sample_count : Z)
    (now_audio now_master : Z) :
  0 <= sample_count <= Z.quot INT_MAX (100 + SAMPLE_CORRECTION_PERCENT_MAX) ->
  let wanted := fst (synchronize_audio player sample_count now_audio now_master) in
  Z.quot (sample_count * (100 - SAMPLE_CORRECTION_PERCENT_MAX)) 100 <= wanted
  /\ wanted <= Z.quot (sample_count * (100 + SAMPLE_CORRECTION_PERCENT_MAX)) 100
  /\ 0 <= wanted /\ in_int wanted.
Proof.
  intros Hn wanted. subst wanted.
  change (Z.quot INT_MAX (100 + SAMPLE_CORRECTION_PERCENT_MAX)) with 19522578 in Hn.
  change (100 - SAMPLE_CORRECTION_PERCENT_MAX) with 90.
  change (100 + SAMPLE_CORRECTION_PERCENT_MAX) with 110.
  assert (Lo : Z.quot (sample_count * 90) 100 <= sample_count).
  { apply Z.quot_le_upper_bound; lia. }
  assert (Hi : sample_count <= Z.quot (sample_count * 110) 100).
  { apply Z.quot_le_lower_bound; lia. }
  assert (Lo0 : 0 <= Z.quot (sample_count * 90) 100) by (apply Z.quot_pos; lia).
  assert (Top : Z.quot (sample_count * 110) 100 <= INT_MAX).
  { apply Z.quot_le_upper_bound; unfold INT_MAX; lia. }
  assert (Same : Z.quot (sample_count * 90) 100 <= sample_count
                 /\ sample_count <= Z.quot (sample_count * 110) 100
                 /\ 0 <= sample_count /\ in_int sample_count).
  { unfold in_int, INT_MIN, INT_MAX in *. lia. }
  unfold synchronize_audio.
  repeat match goal with
         | |- context [if ?c then _ else _] =>
             lazymatch c with
             | context [if _ then _ else _] => fail
             | _ => destruct c
             end
         end; cbn [fst]; try exact Same.
  change (100 - SAMPLE_CORRECTION_PERCENT_MAX) with 90.
  change (100 + SAMPLE_CORRECTION_PERCENT_MAX) with 110.
  rewrite !(wrap_int_id (sample_count * _)) by (unfold in_int, INT_MIN, INT_MAX; lia).
  match goal with
  | |- context [av_clip ?a ?lo ?hi] =>
      pose proof (av_clip_between a lo hi ltac:(lia)) as B
  end.
  unfold in_int, INT_MIN, INT_MAX in *. lia.
Qed.

End AudioCorrection.

Lemma synchronize_audio_within_ten_percent_witness :
  Z.quot (1024 * (100 - Player.SAMPLE_CORRECTION_PERCENT_MAX)) 100
  <= fst (Player.synchronize_audio Sample.audio_drifting 1024 Sample.t100 Sample.t100)
  /\ fst (Player.synchronize_audio Sample.audio_drifting 1024 Sample.t100 Sample.t100)
     <= Z.quot (1024 * (100 + Player.SAMPLE_CORRECTION_PERCENT_MAX)) 100
  /\ 0 <= fst (Player.synchronize_audio Sample.audio_drifting 1024 Sample.t100 Sample.t100)
  /\ in_int (fst (Player.synchronize_audio Sample.audio_drifting 1024 Sample.t100 Sample.t100)).
Proof.
  apply (synchronize_audio_within_ten_percent Sample.audio_drifting 1024
           Sample.t100 Sample.t100).
  vm_compute. split; discriminate.
Defined.

(** ** The decoder on an aborted queue *)

Section DecoderAbort.
Import PacketQueue Decoder DecoderThread.
Variable av_rescale_q : Z -> AVRational -> AVRational -> Z.

Lemma interleave_quiet (w : world) : others w = [] -> interleave w = w.
Proof. unfold interleave. intros ->. reflexivity. Qed.

(** One pass of the fetching loop on a quiet, aborted queue whose serial
    is not the decoder's: a pending packet is dropped and the loop goes
    round, otherwise the failed get ends the call. *)
Lemma fetch_step_aborted (c : config) :
  others (env c) = [] ->
  aborted (queue (env c)) = true ->
  (ff_packet_queue_get_serial (queue (env c)) =? packet_serial (decoder c)) = false ->
  exists w,
    queue w = queue (env c) /\ others w = [] /\
    receive_answers w = receive_answers (env c) /\
    send_answers w = send_answers (env c) /\
    (calls w = calls (env c) \/ calls w = calls (env c) ++ [cnd_signal_empty_queue]) /\
    fetch_step c
    = if packet_pending (decoder c)
      then Goto AtFetch
             (mk_config (with_packet (with_packet_pending (decoder c) false) blank_packet)
                (ret c) (frame c) w)
      else Return (-1) (mk_config (decoder c) (ret c) (frame c) w).
Proof.
  intros Quiet Ab Cur. unfold fetch_step.
  rewrite (interleave_quiet _ Quiet).
  set (w1 := if ff_packet_queue_get_packet_count (queue (env c)) =? 0
             then record_call (env c) cnd_signal_empty_queue else env c).
  assert (Q1 : queue w1 = queue (env c) /\ others w1 = [] /\
               receive_answers w1 = receive_answers (env c) /\
               send_answers w1 = send_answers (env c) /\
               (calls w1 = calls (env c)
                \/ calls w1 = calls (env c) ++ [cnd_signal_empty_queue])).
  { subst w1. destruct (ff_packet_queue_get_packet_count (queue (env c)) =? 0);
      cbn [record_call queue others receive_answers send_answers calls];
      repeat split; auto. }
  destruct Q1 as (Qq & Qo & Qr & Qs & Qc).
  exists w1. repeat split; auto.
  destruct (packet_pending (decoder c)).
  - cbn [env decoder ret frame]. rewrite (interleave_quiet w1 Qo), Qq.
    cbn [with_packet_pending packet_serial]. rewrite Cur. reflexivity.
  - unfold decoder_get. rewrite (interleave_quiet w1 Qo), Qq, Qo.
    rewrite (ff_packet_queue_get_aborted_at_once _ 1 [] Ab).
    cbn [get_ret get_packet get_queue get_waits skipn Z.ltb Z.compare].
    unfold with_queue. rewrite <- Qq, <- Qo. destruct w1; reflexivity.
Qed.

(** X16. On an aborted packet queue that no other thread touches,
    [ff_decoder_decode] returns -1 within three passes of its loops, without
    calling the codec: the frame, the queue and the answers of the codec are
    untouched, and the only calls it makes are at most two signals of the
    empty-queue condition. *)
Theorem ff_decoder_decode_on_abort (fuel : nat) (d : ff_decoder_t) (f : AVFrame) (w : world) :
  others w = [] ->
  ff_packet_queue_get_aborted (queue w) = true ->
  exists c signals,
    ff_decoder_decode av_rescale_q (3 + fuel) d f w = Return (-1) c /\
    queue (env c) = queue w /\
    receive_answers (env c) = receive_answers w /\
    send_answers (env c) = send_answers w /\
    frame c = f /\
    (signals <= 2)%nat /\
    calls (env c) = calls w ++ repeat cnd_signal_empty_queue signals.
Proof.
  intros Quiet Ab. unfold ff_decoder_decode, ff_packet_queue_get_aborted in *.
  cbn [Nat.add run step env decoder ret frame].
  rewrite (interleave_quiet _ Quiet).
  destruct (ff_packet_queue_get_serial (queue w) =? packet_serial d) eqn:Cur.
  - cbn [run step]. unfold receive_step. cbn [env decoder ret frame].
    rewrite (interleave_quiet _ Quiet). unfold ff_packet_queue_get_aborted. rewrite Ab.
    eexists _, 0%nat. cbn [env frame repeat]. rewrite app_nil_r.
    split; [reflexivity|]; cbn [env frame]; repeat split; try lia; congruence.
  - cbn [run step].
    destruct (fetch_step_aborted (mk_config d AVERROR_EAGAIN f w) Quiet Ab Cur)
      as (w1 & Qq & Qo & Qr & Qs & Qc & ->).
    cbn [env decoder ret frame] in *.
    destruct (packet_pending d).
    + cbn [run step].
      destruct (fetch_step_aborted
                  (mk_config (with_packet (with_packet_pending d false) blank_packet)
                     AVERROR_EAGAIN f w1))
        as (w2 & Rq & Ro & Rr & Rs & Rc & ->); cbn [env decoder]; auto; try congruence.
      * rewrite Qq. exact Cur.
      * cbn [env decoder ret frame with_packet with_packet_pending packet_pending] in *.
        destruct Qc as [Qc|Qc], Rc as [Rc|Rc].
        -- eexists _, 0%nat. cbn [env frame repeat]. rewrite app_nil_r.
           (split; [reflexivity|]; cbn [env frame]; repeat split; try lia; congruence).
        -- eexists _, 1%nat. cbn [env frame repeat].
           (split; [reflexivity|]; cbn [env frame]; repeat split; try lia; congruence).
        -- eexists _, 1%nat. cbn [env frame repeat].
           (split; [reflexivity|]; cbn [env frame]; repeat split; try lia; congruence).
        -- eexists _, 2%nat. cbn [env frame repeat].
           split; [reflexivity|]; cbn [env frame]; repeat split; try lia; try congruence.
           rewrite Rc, Qc, <- app_assoc. reflexivity.
    + destruct Qc as [Qc|Qc].
      * eexists _, 0%nat. cbn [env frame repeat]. rewrite app_nil_r.
        (split; [reflexivity|]; cbn [env frame]; repeat split; try lia; congruence).
      * eexists _, 1%nat. cbn [env frame repeat]. (split; [reflexivity|]; cbn [env frame]; repeat split; try lia; congruence).
Qed.

Lemma step_return_codes (p : point) (c c' : config) (v : Z) :
  step av_rescale_q p c = Return v c' ->
  v = -1 \/ v = 0 \/ v = 1 \/ v = AVERROR_ENOMEM.
Proof.
  destruct p; cbn [step].
  - destruct (_ =? _); discriminate.
  - unfold receive_step.
    destruct (ff_packet_queue_get_aborted (queue (interleave (env c)))).
    { intros H; injection H as <- <-; auto. }
    match goal with
    | |- match ?x with _ => _ end = _ -> _ => destruct x as [c1|]; [|discriminate]
    end.
    destruct (ret c1 =? AVERROR_EOF); [intros H; injection H as <- <-; auto|].
    destruct (ret c1 >=? 0); [intros H; injection H as <- <-; auto|].
    destruct (negb (ret c1 =? AVERROR_EAGAIN)); discriminate.
  - unfold fetch_step.
    match goal with
    | |- match ?x with _ => _ end = _ -> _ =>
        assert (F : forall o, x = inl o -> forall v c', o = Return v c' -> v = -1);
        [|destruct x as [o|c1]]
    end.
    + intros o. destruct (packet_pending (decoder c)); [discriminate|].
      destruct (decoder_get _ _) as [[r d1] w1].
      destruct r as [r|]; [|intros H; injection H as <-; discriminate].
      destruct (r <? 0); [intros H; injection H as <-; intros v0 c0 H; now injection H as <- _|].
      destruct (negb _); discriminate.
    + intros H. left. now apply (F o eq_refl v c').
    + destruct (_ =? _); discriminate.
  - unfold send_step.
    match goal with
    | |- match ?x with _ => _ end = _ -> _ =>
        assert (F : forall o, x = inl o -> forall v c', o = Return v c' -> v = AVERROR_ENOMEM);
        [|destruct x as [o|c1]]
    end.
    + intros o. destruct (has_buf _ && _); [|discriminate].
      destruct (alloc_answers (env c)) as [|ok rest];
        [intros H; injection H as <-; discriminate|].
      destruct ok; [discriminate|].
      intros H; injection H as <-; intros v0 c0 H; now injection H as <- _.
    + intros H. right. right. right. now apply (F o eq_refl v c').
    + destruct (send_answers (env c1)) as [|r rest]; [discriminate|].
      destruct (r =? AVERROR_EAGAIN); discriminate.
Qed.

(** X17. Whatever the codec, the allocator and the other threads do,
    [ff_decoder_decode] returns only -1, 0, 1 or [AVERROR(ENOMEM)]: an error
    code of [avcodec_receive_frame] or [avcodec_send_packet] is never
    returned to the caller. *)
Theorem ff_decoder_decode_return_codes (fuel : nat) (d : ff_decoder_t) (f : AVFrame)
    (w : world) :
  match ff_decoder_decode av_rescale_q fuel d f w with
  | Return v _ => v = -1 \/ v = 0 \/ v = 1 \/ v = AVERROR_ENOMEM
  | _ => True
  end.
Proof.
  unfold ff_decoder_decode. generalize (mk_config d AVERROR_EAGAIN f w) as c.
  generalize AtLoopHead as p.
  induction fuel as [|fuel IH]; intros p c; cbn [run]; [exact I|].
  destruct (step av_rescale_q p c) as [v c'|p' c'|c'|c'] eqn:St; auto.
  - now apply step_return_codes in St.
  - apply IH.
Qed.
(** X18. After [ff_decoder_abort], provided no thread starts the queue
    while the decoder thread is joined, the packet queue is aborted and
    empty with all counters 0, every packet it held has been freed, every
    put fails and changes nothing, and every get returns -1 at once. *)
Theorem ff_decoder_abort_leaves_nothing (queue : ff_packet_queue_t)
    (while_joining : list queue_op) (src : AVPacket) (alloc_ok : bool)
    (fifo_ret block : Z) (wakeups : list (ff_packet_queue_t -> ff_packet_queue_t)) :
  never_started while_joining = true ->
  let stopped := fst (ff_decoder_abort queue while_joining) in
  let freed := snd (ff_decoder_abort queue while_joining) in
  ff_packet_queue_get_aborted stopped = true /\
  packets stopped = [] /\
  ff_packet_queue_get_packet_count stopped = 0 /\
  ff_packet_queue_get_size stopped = 0 /\
  ff_packet_queue_get_duration stopped = 0 /\
  freed = map base (packets (run_ops (ff_packet_queue_abort queue) while_joining)) /\
  (while_joining = [] -> freed = map base (packets queue)) /\
  fst (ff_packet_queue_put stopped src alloc_ok fifo_ret) < 0 /\
  snd (ff_packet_queue_put stopped src alloc_ok fifo_ret) = stopped /\
  ff_packet_queue_get stopped block wakeups = mk_get (Some (-1)) None stopped 0.
Proof.
  intros Quiet stopped freed.
  assert (Ab : aborted (run_ops (ff_packet_queue_abort queue) while_joining) = true).
  { apply never_started_aborted; [exact Quiet|reflexivity]. }
  subst stopped freed. unfold ff_decoder_abort, ff_packet_queue_flush.
  set (q1 := run_ops (ff_packet_queue_abort queue) while_joining) in *.
  pose proof (flush_loop_drains (packets q1) []) as D.
  pose proof (flush_loop_frees (packets q1) []) as F.
  destruct (flush_loop (packets q1) []) as [fifo freed]. cbn [fst snd app] in *.
  subst fifo freed.
  set (stopped := {| packets := []; packet_count := 0; q_size := 0; q_duration := 0;
                     aborted := aborted q1; q_serial := wrap_int (q_serial q1 + 1) |}).
  assert (As : aborted stopped = true) by exact Ab.
  repeat split; auto.
  - intros E. subst q1. rewrite E. reflexivity.
  - apply (ff_packet_queue_put_aborted stopped src alloc_ok fifo_ret As).
  - apply (ff_packet_queue_put_aborted stopped src alloc_ok fifo_ret As).
  - apply ff_packet_queue_get_aborted_at_once. exact As.
Qed.

End DecoderAbort.

Lemma ff_decoder_decode_on_abort_witness :
  exists c signals,
    Decoder.ff_decoder_decode Sample.rescale_down 3 Demo.stale_decoder Sample.blank_frame
      Demo.aborted_world = Decoder.Return (-1) c /\
    Decoder.queue (Decoder.env c) = Decoder.queue Demo.aborted_world /\
    Decoder.receive_answers (Decoder.env c) = Decoder.receive_answers Demo.aborted_world /\
    Decoder.send_answers (Decoder.env c) = Decoder.send_answers Demo.aborted_world /\
    Decoder.frame c = Sample.blank_frame /\
    (signals <= 2)%nat /\
    Decoder.calls (Decoder.env c)
    = Decoder.calls Demo.aborted_world ++ repeat Decoder.cnd_signal_empty_queue signals.
Proof.
  apply (ff_decoder_decode_on_abort Sample.rescale_down 0 Demo.stale_decoder
           Sample.blank_frame Demo.aborted_world).
  - reflexivity.
  - reflexivity.
Defined.

Lemma ff_decoder_abort_leaves_nothing_witness :
  snd (DecoderThread.ff_decoder_abort (Sample.queue_of 2) [])
  = [Sample.sample_packet; Sample.sample_packet].
Proof.
  apply (ff_decoder_abort_leaves_nothing (Sample.queue_of 2) [] Sample.sample_packet true 0 1 []).
  - reflexivity.
  - reflexivity.
Defined.

(** ** Chapters *)

Section SeekChapter.
Import Player Seek.
Variable av_compare_ts : Z -> Decoder.AVRational -> Z -> Decoder.AVRational -> Z.
Variable av_rescale_q : Z -> Decoder.AVRational -> Decoder.AVRational -> Z.

(** The loop stops one before the first chapter that starts after the
    position, or at the end of the list. *)
Lemma chapter_loop_first (pos : Z) (chapters : list AVChapter) :
  forall i, 0 <= i -> i + Z.of_nat (length chapters) <= INT_MAX ->
    match first_after av_compare_ts pos chapters with
    | Some k => chapter_loop av_compare_ts pos chapters i = i + Z.of_nat k - 1 /\
                (k < length chapters)%nat
    | None => chapter_loop av_compare_ts pos chapters i = i + Z.of_nat (length chapters)
    end.
Proof.
  induction chapters as [|c rest IH]; intros i Hi Hn; cbn [first_after chapter_loop length].
  - lia.
  - cbn [length] in Hn. destruct (starts_after av_compare_ts pos c) eqn:A.
    + rewrite wrap_int_id by (unfold in_int, INT_MIN, INT_MAX in *; lia). split; lia.
    + rewrite wrap_int_id by (unfold in_int, INT_MIN, INT_MAX in *; lia).
      specialize (IH (i + 1) ltac:(lia) ltac:(lia)).
      destruct (first_after av_compare_ts pos rest) as [k|]; cbn [option_map].
      * destruct IH as (E & L). rewrite E. split; lia.
      * rewrite IH. lia.
Qed.

Lemma nth_error_in_range (chapters : list AVChapter) (k : nat) :
  (k < length chapters)%nat -> exists chapter, nth_error chapters k = Some chapter.
Proof.
  intros H. destruct (nth_error chapters k) eqn:E; [eauto|].
  apply nth_error_None in E. lia.
Qed.

(** X19. With fewer than [INT_MAX] chapters, [ff_player_seek_chapter]
    with [incr = 1] requests a seek to the start of the first chapter that
    begins after the position of the master clock, and does nothing when
    there is none; with [incr = -1] it requests a seek to the chapter two
    before that one (not below the first chapter), or to the last chapter
    when no chapter begins after the position. A seek request that is still
    pending is never overwritten ([stream_seek]). *)
Theorem ff_player_seek_chapter_steps (player : ff_player_t) (chapters : list AVChapter)
    (request : seek_request) (now : Z) :
  Z.of_nat (length chapters) < INT_MAX ->
  let pos := to_int64 (get_master_clock player now * of_int AV_TIME_BASE)%D in
  let forward := ff_player_seek_chapter av_compare_ts av_rescale_q player chapters request 1 now in
  let back := ff_player_seek_chapter av_compare_ts av_rescale_q player chapters request (-1) now in
  (seek_req request = true -> forward = request /\ back = request) /\
  match first_after av_compare_ts pos chapters with
  | Some k =>
      seeks_to av_rescale_q chapters k request forward /\
      seeks_to av_rescale_q chapters (k - 2) request back
  | None =>
      forward = request /\
      (chapters <> [] -> seeks_to av_rescale_q chapters (length chapters - 1) request back) /\
      (chapters = [] -> back = request)
  end.
Proof.
  intros Hn pos forward back. subst forward back. unfold ff_player_seek_chapter. fold pos.
  split.
  { intros Pending.
    assert (Kept : forall p r b, stream_seek request p r b = request).
    { intros p r b. unfold stream_seek. rewrite Pending. reflexivity. }
    destruct (Z.of_nat (length chapters) =? 0); [split; reflexivity|]. cbv zeta.
    split; (destruct (_ >=? _); [reflexivity|]);
      (destruct (nth_error _ _); [apply Kept|reflexivity]). }
  pose proof (chapter_loop_first pos chapters 0 ltac:(lia) ltac:(lia)) as L.
  destruct (Z.eqb_spec (Z.of_nat (length chapters)) 0) as [E0|N0].
  { destruct chapters; [|cbn [length] in E0; lia]. cbn [first_after].
    repeat split; auto. congruence. }
  cbv zeta.
  assert (Pick : forall j : nat, (j < length chapters)%nat ->
            seeks_to av_rescale_q chapters j request
              (if Z.of_nat j >=? Z.of_nat (length chapters) then request
               else match nth_error chapters (Z.to_nat (Z.of_nat j)) with
                    | Some chapter =>
                        stream_seek request
                          (av_rescale_q (start chapter) (time_base chapter) AV_TIME_BASE_Q)
                          0 false
                    | None => request
                    end)).
  { intros j Hj. destruct (Z.geb_spec (Z.of_nat j) (Z.of_nat (length chapters))); [lia|].
    rewrite Nat2Z.id. destruct (nth_error_in_range chapters j Hj) as [chapter E].
    rewrite E. exists chapter. split; [exact E|reflexivity]. }
  destruct (first_after av_compare_ts pos chapters) as [k|].
  - destruct L as (-> & Lt).
    rewrite !wrap_int_id by (unfold in_int, INT_MIN, INT_MAX in *; lia).
    split.
    + replace (if 0 + Z.of_nat k - 1 + 1 >? 0 then 0 + Z.of_nat k - 1 + 1 else 0)
        with (Z.of_nat k) by (destruct (Z.gtb_spec (0 + Z.of_nat k - 1 + 1) 0); lia).
      apply Pick. exact Lt.
    + replace (if 0 + Z.of_nat k - 1 + -1 >? 0 then 0 + Z.of_nat k - 1 + -1 else 0)
        with (Z.of_nat (k - 2)) by (destruct (Z.gtb_spec (0 + Z.of_nat k - 1 + -1) 0); lia).
      apply Pick. lia.
  - rewrite L. rewrite !wrap_int_id by (unfold in_int, INT_MIN, INT_MAX in *; lia).
    split; [|split].
    + replace (if 0 + Z.of_nat (length chapters) + 1 >? 0
               then 0 + Z.of_nat (length chapters) + 1 else 0)
        with (Z.of_nat (length chapters) + 1)
        by (destruct (Z.gtb_spec (0 + Z.of_nat (length chapters) + 1) 0); lia).
      destruct (Z.geb_spec (Z.of_nat (length chapters) + 1) (Z.of_nat (length chapters)));
        [reflexivity|lia].
    + intros _.
      replace (if 0 + Z.of_nat (length chapters) + -1 >? 0
               then 0 + Z.of_nat (length chapters) + -1 else 0)
        with (Z.of_nat (length chapters - 1))
        by (destruct (Z.gtb_spec (0 + Z.of_nat (length chapters) + -1) 0); lia).
      apply Pick. lia.
    + intros E. rewrite E in N0. cbn in N0. lia.
Qed.

End SeekChapter.

Lemma ff_player_seek_chapter_steps_witness :
  Seek.seeks_to Sample.rescale_down Demo.chapters 1 Demo.no_seek
    (Seek.ff_player_seek_chapter Demo.compare_ts Sample.rescale_down Sample.video_ahead
       Demo.chapters Demo.no_seek 1 Sample.t100)
  /\ Seek.seeks_to Sample.rescale_down Demo.chapters 0 Demo.no_seek
       (Seek.ff_player_seek_chapter Demo.compare_ts Sample.rescale_down Sample.video_ahead
          Demo.chapters Demo.no_seek (-1) Sample.t100).
Proof.
  apply (ff_player_seek_chapter_steps Demo.compare_ts Sample.rescale_down Sample.video_ahead
           Demo.chapters Demo.no_seek Sample.t100).
  vm_compute. reflexivity.
Defined.

(** ** Refreshing the video *)

Section VideoRefreshFacts.
Import PacketQueue Player FrameQueue Refresh VideoRefresh.

Lemma update_video_pts_keeps (p : ff_player_t) (pts : double) (serial : Z)
    (t0 t1 t2 t3 : Z) :
  video_packet_queue (update_video_pts p pts serial t0 t1 t2 t3) = video_packet_queue p /\
  paused (update_video_pts p pts serial t0 t1 t2 t3) = paused p /\
  video_stream (update_video_pts p pts serial t0 t1 t2 t3) = video_stream p.
Proof. repeat split. Qed.

Lemma stream_toggle_pause_keeps (r : video_refresh_t) (t0 t1 t2 t3 t4 : Z) :
  picture_queue (stream_toggle_pause r t0 t1 t2 t3 t4) = picture_queue r /\
  force_refresh (stream_toggle_pause r t0 t1 t2 t3 t4) = force_refresh r /\
  video_packet_queue (player (stream_toggle_pause r t0 t1 t2 t3 t4))
  = video_packet_queue (player r) /\
  paused (player (stream_toggle_pause r t0 t1 t2 t3 t4)) = negb (paused (player r)).
Proof.
  unfold stream_toggle_pause. destruct (paused (player r)); repeat split.
Qed.

(** What one pass does: it leaves the picture queue alone, or it pops the
    oldest unread frame, which then is stale, or late with another frame
    behind it, or the frame put on show. *)
Lemma refresh_pass_effect (r : video_refresh_t) (remaining_time : option double)
    (now : nat -> Z) :
  let queue := picture_queue r in
  let current := ff_packet_queue_get_serial (video_packet_queue (player r)) in
  let head := frame_at queue (ff_frame_queue_peek queue) in
  match refresh_pass r remaining_time now with
  | Retry r' =>
      picture_queue r' = ff_frame_queue_next queue /\
      video_packet_queue (player r') = video_packet_queue (player r) /\
      force_refresh r' = force_refresh r /\
      paused (player r') = paused (player r) /\
      ff_frame_queue_get_frames_remaining queue <> 0 /\
      ((serial head <> current /\ player r' = player r)
       \/ (serial head = current /\ 1 < ff_frame_queue_get_frames_remaining queue
           /\ paused (player r) = false))
  | Display r' _ =>
      video_packet_queue (player r') = video_packet_queue (player r) /\
      ((picture_queue r' = queue /\ force_refresh r' = force_refresh r /\
        (paused (player r) = true -> player r' = player r) /\
        (ff_frame_queue_get_frames_remaining queue <> 0 -> serial head = current))
       \/ (picture_queue r' = ff_frame_queue_next queue /\
           ff_frame_queue_get_frames_remaining queue <> 0 /\
           serial head = current /\ force_refresh r' = true /\
           paused (player r) = false))
  end.
Proof.
  intros queue current head. unfold refresh_pass. fold queue.
  destruct (Z.eqb_spec (ff_frame_queue_get_frames_remaining queue) 0) as [E0|N0]; cbn [negb].
  { split; [reflexivity|]. left. repeat split; auto. intros H; contradiction. }
  fold head. fold current.
  destruct (Z.eqb_spec (serial head) current) as [Cur|Stale]; cbn [negb].
  2:{ repeat split; auto. }
  set (r1 := if negb (serial (frame_at queue (ff_frame_queue_peek_last queue)) =? serial head)
             then with_frame_timer r (Clock.seconds (now 0%nat)) else r).
  assert (R1 : player r1 = player r /\ picture_queue r1 = queue /\
               force_refresh r1 = force_refresh r /\ step r1 = step r).
  { subst r1. destruct (negb _); repeat split. }
  destruct R1 as (P1 & Q1 & F1 & S1). rewrite P1.
  destruct (paused (player r)) eqn:Pa.
  { split; [congruence|]. left. repeat split; auto; congruence. }
  cbv zeta.
  destruct (_ <? _)%D.
  { split; [congruence|]. left. repeat split; auto; try congruence; discriminate. }
  match goal with
  | |- context [if negb (isnan (pts head)) then ?a else ?b] =>
      set (r3 := if negb (isnan (pts head)) then a else b)
  end.
  assert (R3 : video_packet_queue (player r3) = video_packet_queue (player r) /\
               paused (player r3) = false /\
               force_refresh r3 = force_refresh r /\ step r3 = step r).
  { subst r3. destruct (negb (isnan (pts head)));
      match goal with
      | |- context [if ?c then with_frame_timer ?a ?t else ?b] => destruct c
      end;
      cbn [with_player with_frame_timer player force_refresh step
           update_video_pts with_clocks video_packet_queue paused];
      rewrite ?P1, ?F1, ?S1; repeat split; auto. }
  destruct R3 as (V3 & Pa3 & F3 & S3).
  match goal with
  | |- context [if (if ?c then ?x else false) then _ else _] =>
      destruct (if c then x else false) eqn:Late
  end.
  - cbn [with_picture_queue picture_queue player force_refresh].
    repeat split; auto; try congruence.
    right. repeat split; auto.
    destruct (Z.gtb_spec (ff_frame_queue_get_frames_remaining queue) 1); [lia|discriminate].
  - match goal with
    | |- context [if ?c then stream_toggle_pause ?a ?t0 ?t1 ?t2 ?t3 ?t4 else ?b] =>
        destruct (stream_toggle_pause_keeps a t0 t1 t2 t3 t4) as (K1 & K2 & K3 & K4);
        destruct c
    end.
    + split; [rewrite K3; exact V3|]. right. rewrite K1, K2. repeat split; auto.
    + split; [exact V3|]. right. repeat split; auto.
Qed.

Lemma retry_loop_more_fuel (fuel extra : nat) :
  forall r remaining_time now passes result,
    retry_loop fuel r remaining_time now passes = Some result ->
    retry_loop (fuel + extra) r remaining_time now passes = Some result.
Proof.
  induction fuel as [|fuel IH]; intros r rt now passes result H; [discriminate|].
  cbn [retry_loop Nat.add] in *.
  destruct (refresh_pass r rt _) as [r'|r' rt']; [apply IH|]; exact H.
Qed.

(** The loop ends within one pass more than there are unread frames; what
    it leaves unread is what was unread without the frames popped, one per
    pass at most. *)
Lemma retry_loop_ends (fuel : nat) :
  forall r remaining_time now passes,
    consistent (picture_queue r) ->
    (length (unread (picture_queue r)) < fuel)%nat ->
    exists r' remaining_time' made popped,
      retry_loop fuel r remaining_time now passes = Some (r', remaining_time', made) /\
      (passes < made <= passes + S (length (unread (picture_queue r))))%nat /\
      (popped <= made - passes)%nat /\
      unread (picture_queue r') = skipn popped (unread (picture_queue r)) /\
      consistent (picture_queue r') /\
      keep_last (picture_queue r') = keep_last (picture_queue r) /\
      video_packet_queue (player r') = video_packet_queue (player r).
Proof.
  induction fuel as [|fuel IH]; intros r rt now passes C Len; [lia|].
  cbn [retry_loop].
  pose proof (refresh_pass_effect r rt
                (fun i => now (passes * readings_per_pass + i)%nat)) as E.
  cbv zeta in E.
  pose proof (remaining_unread _ C) as Rem.
  destruct (refresh_pass r rt _) as [r'|r' rt'].
  - destruct E as (Q & V & F & P & N0 & _).
    assert (Pos : 0 < ff_frame_queue_get_frames_remaining (picture_queue r)) by lia.
    destruct (ff_frame_queue_next_tracks _ C Pos) as [C1 U1].
    rewrite <- Q in C1, U1.
    assert (L1 : S (length (unread (picture_queue r'))) = length (unread (picture_queue r))).
    { rewrite U1. destruct (unread (picture_queue r)); cbn [length tl] in *; lia. }
    destruct (IH r' rt now (S passes) C1 ltac:(lia))
      as (r2 & rt2 & made & popped & Run & Bd & Pp & U2 & C2 & K2 & V2).
    exists r2, rt2, made, (S popped). rewrite Run.
    split; [reflexivity|]. split; [lia|]. split; [lia|].
    split; [|split; [exact C2|split; [|congruence]]].
    + rewrite U2, U1. destruct (unread (picture_queue r)); cbn [tl skipn];
        [now rewrite skipn_nil|reflexivity].
    + rewrite K2, Q. apply next_keep_last.
  - destruct E as (V & [(Q & _)|(Q & N0 & _)]).
    + exists r', rt', (S passes), 0%nat. rewrite Q.
      split; [reflexivity|]. split; [lia|]. split; [lia|].
      split; [reflexivity|]. split; [exact C|]. split; [reflexivity|exact V].
    + assert (Pos : 0 < ff_frame_queue_get_frames_remaining (picture_queue r)) by lia.
      destruct (ff_frame_queue_next_tracks _ C Pos) as [C1 U1].
      exists r', rt', (S passes), 1%nat. rewrite Q.
      split; [reflexivity|]. split; [lia|]. split; [lia|].
      split; [|split; [exact C1|split; [apply next_keep_last|exact V]]].
      rewrite U1. destruct (unread (picture_queue r)); reflexivity.
Qed.

(** The newest unread frame, when its serial is current, survives the
    loop: it is still unread, or it is the frame put on show. *)
Lemma retry_loop_keeps_newest (fuel : nat) :
  forall r remaining_time now passes older newest r' remaining_time' made,
    consistent (picture_queue r) ->
    keep_last (picture_queue r) = true ->
    unread (picture_queue r) = older ++ [newest] ->
    serial newest = ff_packet_queue_get_serial (video_packet_queue (player r)) ->
    retry_loop fuel r remaining_time now passes = Some (r', remaining_time', made) ->
    (exists older', unread (picture_queue r') = older' ++ [newest])
    \/ (unread (picture_queue r') = [] /\
        force_refresh r' = true /\
        ff_frame_queue_rindex_shown (picture_queue r') = 1 /\
        frame_at (picture_queue r') (ff_frame_queue_peek_last (picture_queue r')) = newest).
Proof.
  induction fuel as [|fuel IH];
    intros r rt now passes older newest r' rt' made C Keep U Cur Run; [discriminate|].
  cbn [retry_loop] in Run.
  pose proof (refresh_pass_effect r rt
                (fun i => now (passes * readings_per_pass + i)%nat)) as E.
  cbv zeta in E.
  pose proof (remaining_unread _ C) as Rem.
  assert (Pos : 0 < ff_frame_queue_get_frames_remaining (picture_queue r)).
  { rewrite Rem, U, length_app. cbn [length]. lia. }
  destruct (ff_frame_queue_next_tracks _ C Pos) as [C1 U1].
  destruct (peek_is_head _ C) as [Head _]. specialize (Head Pos).
  destruct (refresh_pass r rt _) as [r1|r1 rt1].
  - destruct E as (Q & V & F & P & N0 & Why).
    assert (Two : exists first older1, older = first :: older1).
    { destruct older as [|first older1]; [|eauto]. exfalso.
      cbn [app] in U. rewrite U in Head. pose proof (f_equal (hd zero_frame) Head) as Hd; cbn [hd] in Hd.
      destruct Why as [(Stale & _)|(_ & More & _)].
      - apply Stale. rewrite <- Hd. exact Cur.
      - rewrite Rem, U in More. cbn [length] in More. lia. }
    destruct Two as (first & older1 & ->).
    apply (IH r1 rt now (S passes) older1 newest r' rt' made); auto.
    + rewrite Q. exact C1.
    + rewrite Q, next_keep_last. exact Keep.
    + rewrite Q, U1, U. reflexivity.
    + rewrite V. exact Cur.
  - injection Run as <- <- <-.
    destruct E as (V & [(Q & _)|(Q & N0 & HeadCur & Force & _)]).
    + left. exists older. rewrite Q. exact U.
    + destruct older as [|first older1].
      * right. cbn [app] in U. rewrite U in Head. pose proof (f_equal (hd zero_frame) Head) as Hd; cbn [hd] in Hd.
        destruct (next_keeps_shown _ C Keep Pos) as [Shown Kept].
        rewrite Q, U1, U. cbn [tl]. repeat split; auto. rewrite Kept. auto.
      * left. exists older1. rewrite Q, U1, U. reflexivity.
Qed.

(** While the player is paused the loop pops stale frames only and leaves
    the player alone. *)
Lemma retry_loop_paused (fuel : nat) :
  forall r remaining_time now passes r' remaining_time' made,
    consistent (picture_queue r) ->
    paused (player r) = true ->
    retry_loop fuel r remaining_time now passes = Some (r', remaining_time', made) ->
    player r' = player r /\
    force_refresh r' = force_refresh r /\
    remaining_time' = remaining_time /\
    unread (picture_queue r')
    = drop_stale (ff_packet_queue_get_serial (video_packet_queue (player r)))
        (unread (picture_queue r)).
Proof.
  induction fuel as [|fuel IH];
    intros r rt now passes r' rt' made C Pa Run; [discriminate|].
  cbn [retry_loop] in Run.
  pose proof (refresh_pass_effect r rt
                (fun i => now (passes * readings_per_pass + i)%nat)) as E.
  cbv zeta in E.
  assert (Same : forall o, refresh_pass r rt (fun i => now (passes * readings_per_pass + i)%nat)
                           = Display o rt' -> rt' = rt).
  { intros o. unfold refresh_pass.
    destruct (negb _); [|intros H; now injection H].
    destruct (negb _); [discriminate|].
    match goal with
    | |- context [paused (player ?x)] =>
        assert (Px : paused (player x) = true)
          by (destruct (negb _); [exact Pa|exact Pa]);
        rewrite Px
    end.
    intros H; now injection H. }
  pose proof (remaining_unread _ C) as Rem.
  destruct (refresh_pass r rt _) as [r1|r1 rt1].
  - destruct E as (Q & V & F & P & N0 & [(Stale & Pl)|(_ & _ & NotPaused)]); [|congruence].
    assert (Pos : 0 < ff_frame_queue_get_frames_remaining (picture_queue r)) by lia.
    destruct (ff_frame_queue_next_tracks _ C Pos) as [C1 U1].
    destruct (peek_is_head _ C) as [Head _]. specialize (Head Pos).
    destruct (IH r1 rt now (S passes) r' rt' made) as (I1 & I2 & I3 & I4); auto.
    + rewrite Q. exact C1.
    + congruence.
    + split; [congruence|]. split; [congruence|]. split; [exact I3|].
      rewrite I4, Q, U1, Pl, Head. cbn [drop_stale tl].
      destruct (Z.eqb_spec (serial (frame_at (picture_queue r)
                                      (ff_frame_queue_peek (picture_queue r))))
                           (ff_packet_queue_get_serial (video_packet_queue (player r))));
        [contradiction|reflexivity].
  - injection Run as <- <- <-.
    destruct E as (V & [(Q & F & Pl & HeadCur)|(_ & _ & _ & _ & NotPaused)]); [|congruence].
    split; [auto|]. split; [exact F|]. split; [exact (Same r1 eq_refl)|].
    rewrite Q.
    destruct (unread (picture_queue r)) as [|first rest] eqn:U; [reflexivity|].
    assert (Pos : 0 < ff_frame_queue_get_frames_remaining (picture_queue r)).
    { rewrite Rem. cbn [length]. lia. }
    destruct (peek_is_head _ C) as [Head _]. specialize (Head Pos).
    rewrite U in Head. pose proof (f_equal (hd zero_frame) Head) as Hd; cbn [hd] in Hd.
    cbn [drop_stale]. rewrite Hd, HeadCur by lia. rewrite Z.eqb_refl. reflexivity.
Qed.

(** The adjustment of the external clock touches nothing but that clock. *)
Lemma acquire_video_frame_clock_speed_keeps (p : ff_player_t) (now_get now_set : Z) :
  let p' := acquire_video_frame_clock_speed p now_get now_set in
  video_packet_queue p' = video_packet_queue p /\
  video_stream p' = video_stream p /\
  paused p' = paused p /\
  (paused p = true -> p' = p).
Proof.
  unfold acquire_video_frame_clock_speed, check_external_clock_speed.
  destruct (paused p) eqn:Pa; cbn [negb andb]; [repeat split; auto|].
  repeat match goal with
         | |- context [if ?c then _ else _] => destruct c
         end; repeat split; try exact Pa; intros; discriminate.
Qed.

(** X20. [ff_player_acquire_video_frame] returns: in a call during which
    no other thread touches the queues, and whatever the wall clock reads,
    the [goto retry] loop makes at most one pass more than there are unread
    pictures. What it leaves unread are the pictures that were unread, in
    their order, without the ones popped, at most one per pass. A slot is
    returned only with [force_refresh] set and a picture on show, and is
    the slot of [ff_frame_queue_peek_last]; otherwise NULL is returned and
    [force_refresh] is cleared. Without a video stream the picture queue is
    not touched. *)
Theorem ff_player_acquire_video_frame_returns (r : video_refresh_t)
    (remaining_time : option double) (now_get now_set : Z) (now : nat -> Z) :
  consistent (picture_queue r) ->
  exists a,
    (forall fuel, (length (unread (picture_queue r)) < fuel)%nat ->
       ff_player_acquire_video_frame fuel r remaining_time now_get now_set now = Some a) /\
    (passes_made a <= S (length (unread (picture_queue r))))%nat /\
    (exists popped, (popped <= passes_made a)%nat /\
       unread (picture_queue (after a)) = skipn popped (unread (picture_queue r))) /\
    consistent (picture_queue (after a)) /\
    (shown_slot a = None -> force_refresh (after a) = false) /\
    (forall slot, shown_slot a = Some slot ->
       slot = ff_frame_queue_peek_last (picture_queue (after a)) /\
       force_refresh (after a) = true /\
       ff_frame_queue_rindex_shown (picture_queue (after a)) <> 0) /\
    (video_stream (player r) = None ->
       shown_slot a = None /\ picture_queue (after a) = picture_queue r).
Proof.
  intros C. unfold ff_player_acquire_video_frame.
  destruct (acquire_video_frame_clock_speed_keeps (player r) now_get now_set)
    as (Kq & Ks & Kp & _).
  set (r0 := with_player r (acquire_video_frame_clock_speed (player r) now_get now_set)).
  assert (Q0 : picture_queue r0 = picture_queue r) by reflexivity.
  assert (S0 : video_stream (player r0) = video_stream (player r)) by exact Ks.
  rewrite S0.
  destruct (video_stream (player r)) as [stream|] eqn:Vs; cbn [is_null negb].
  - destruct (retry_loop_ends (S (length (unread (picture_queue r0)))) r0 remaining_time now 0)
      as (r' & rt' & made & popped & Run & Bd & Pp & U & C' & _ & _);
      [rewrite Q0; exact C|lia|].
    rewrite Q0 in *.
    destruct (force_refresh r' && negb (ff_frame_queue_rindex_shown (picture_queue r') =? 0))
      eqn:Show.
    + eexists. split.
      { intros fuel Hf.
        replace fuel with (S (length (unread (picture_queue r)))
                           + (fuel - S (length (unread (picture_queue r)))))%nat by lia.
        rewrite (retry_loop_more_fuel _ _ _ _ _ _ _ Run), Show. reflexivity. }
      cbn [passes_made after shown_slot].
      apply andb_true_iff in Show. destruct Show as [F Sh].
      apply negb_true_iff, Z.eqb_neq in Sh.
      split; [lia|]. split; [exists popped; split; [lia|exact U]|].
      split; [exact C'|]. split; [discriminate|]. split; [|discriminate].
      intros slot E. injection E as <-. auto.
    + eexists. split.
      { intros fuel Hf.
        replace fuel with (S (length (unread (picture_queue r)))
                           + (fuel - S (length (unread (picture_queue r)))))%nat by lia.
        rewrite (retry_loop_more_fuel _ _ _ _ _ _ _ Run), Show. reflexivity. }
      cbn [passes_made after shown_slot with_force_refresh picture_queue force_refresh].
      split; [lia|]. split; [exists popped; split; [lia|exact U]|].
      split; [exact C'|]. split; [reflexivity|]. split; discriminate.
  - eexists. split; [intros fuel _; reflexivity|].
    cbn [passes_made after shown_slot with_force_refresh picture_queue force_refresh].
    rewrite Q0.
    split; [lia|]. split; [exists 0%nat; split; [lia|reflexivity]|].
    split; [exact C|]. split; [reflexivity|]. split; [discriminate|auto].
Qed.

(** X21. [ff_player_acquire_video_frame] never drops the newest picture
    unseen: when the last unread picture carries the serial of the video
    packet queue, then after the call it is still unread, or the queue is
    empty and that picture is the one returned for display (the picture
    queue keeps its last frame, as [frame_queues_init] asks). *)
Theorem ff_player_acquire_video_frame_keeps_newest (r : video_refresh_t)
    (remaining_time : option double) (now_get now_set : Z) (now : nat -> Z)
    (older : list ff_frame_t) (newest : ff_frame_t) :
  consistent (picture_queue r) ->
  keep_last (picture_queue r) = true ->
  unread (picture_queue r) = older ++ [newest] ->
  serial newest = ff_packet_queue_get_serial (video_packet_queue (player r)) ->
  exists a,
    ff_player_acquire_video_frame (S (length (unread (picture_queue r)))) r remaining_time
      now_get now_set now = Some a /\
    ((exists older', unread (picture_queue (after a)) = older' ++ [newest])
     \/ (exists slot, shown_slot a = Some slot /\
                      frame_at (picture_queue (after a)) slot = newest /\
                      unread (picture_queue (after a)) = [])).
Proof.
  intros C Keep U Cur. unfold ff_player_acquire_video_frame.
  destruct (acquire_video_frame_clock_speed_keeps (player r) now_get now_set)
    as (Kq & Ks & Kp & _).
  set (r0 := with_player r (acquire_video_frame_clock_speed (player r) now_get now_set)).
  assert (Q0 : picture_queue r0 = picture_queue r) by reflexivity.
  assert (S0 : video_stream (player r0) = video_stream (player r)) by exact Ks.
  assert (V0 : video_packet_queue (player r0) = video_packet_queue (player r)) by exact Kq.
  rewrite S0.
  destruct (video_stream (player r)) as [stream|] eqn:Vs; cbn [is_null negb].
  - destruct (retry_loop_ends (S (length (unread (picture_queue r0)))) r0 remaining_time now 0)
      as (r' & rt' & made & popped & Run & _);
      [rewrite Q0; exact C|lia|].
    rewrite Q0 in Run. rewrite Run.
    destruct (retry_loop_keeps_newest (S (length (unread (picture_queue r)))) r0
                remaining_time now 0%nat older newest r' rt' made)
      as [Left|(Empty & Force & Shown & Slot)]; auto; try (rewrite ?Q0, ?V0; assumption).
    + destruct (force_refresh r' && _); eexists; (split; [reflexivity|]); left; exact Left.
    + rewrite Force, Shown. cbn [andb negb Z.eqb].
      eexists. split; [reflexivity|]. right.
      cbn [shown_slot after]. eexists. repeat split; auto.
  - eexists. split; [reflexivity|]. left. exists older.
    cbn [after with_force_refresh picture_queue]. rewrite Q0. exact U.
Qed.

(** X22. While the player is paused, [ff_player_acquire_video_frame]
    leaves the three clocks, the pause flag and every other field of
    [Player.ff_player_t] as they were, leaves [*remaining_time] alone, and
    pops only stale pictures: the unread pictures after the call are those
    before it without the leading ones whose serial is not that of the
    video packet queue. *)
Theorem ff_player_acquire_video_frame_paused (r : video_refresh_t)
    (remaining_time : option double) (now_get now_set : Z) (now : nat -> Z) :
  consistent (picture_queue r) ->
  paused (player r) = true ->
  video_stream (player r) <> None ->
  exists a,
    ff_player_acquire_video_frame (S (length (unread (picture_queue r)))) r remaining_time
      now_get now_set now = Some a /\
    player (after a) = player r /\
    remaining_after a = remaining_time /\
    unread (picture_queue (after a))
    = drop_stale (ff_packet_queue_get_serial (video_packet_queue (player r)))
        (unread (picture_queue r)).
Proof.
  intros C Pa Vs. unfold ff_player_acquire_video_frame.
  destruct (acquire_video_frame_clock_speed_keeps (player r) now_get now_set)
    as (_ & _ & _ & Same). specialize (Same Pa). rewrite Same.
  replace (with_player r (player r)) with r by (destruct r; reflexivity).
  destruct (video_stream (player r)) as [stream|]; [|contradiction]. cbn [is_null negb].
  destruct (retry_loop_ends (S (length (unread (picture_queue r)))) r remaining_time now 0)
    as (r' & rt' & made & popped & Run & _); [exact C|lia|].
  rewrite Run.
  destruct (retry_loop_paused _ _ _ _ _ _ _ _ C Pa Run) as (P & F & T & U).
  destruct (force_refresh r' && _); eexists; (split; [reflexivity|]);
    cbn [after remaining_after with_force_refresh player picture_queue step];
    repeat split; auto.
Qed.

End VideoRefreshFacts.

Lemma ff_player_acquire_video_frame_returns_witness :
  exists a,
    VideoRefresh.ff_player_acquire_video_frame 2 Playback.playing (Some (dec 1 100))
      Sample.later Sample.later Playback.frozen_time = Some a.
Proof.
  destruct (ff_player_acquire_video_frame_returns Playback.playing (Some (dec 1 100))
              Sample.later Sample.later Playback.frozen_time) as (a & Run & _).
  - unfold FrameQueue.consistent. vm_compute.
    repeat split; try discriminate; try reflexivity.
  - exists a. apply Run. vm_compute. lia.
Defined.

Lemma ff_player_acquire_video_frame_keeps_newest_witness :
  exists a,
    VideoRefresh.ff_player_acquire_video_frame 2 Playback.playing (Some (dec 1 100))
      Sample.later Sample.later Playback.frozen_time = Some a /\
    ((exists older', FrameQueue.unread (VideoRefresh.picture_queue (VideoRefresh.after a))
                     = older' ++ [Demo.picture 3])
     \/ (exists slot, VideoRefresh.shown_slot a = Some slot /\
           FrameQueue.frame_at (VideoRefresh.picture_queue (VideoRefresh.after a)) slot
           = Demo.picture 3 /\
           FrameQueue.unread (VideoRefresh.picture_queue (VideoRefresh.after a)) = [])).
Proof.
  apply (ff_player_acquire_video_frame_keeps_newest Playback.playing (Some (dec 1 100))
           Sample.later Sample.later Playback.frozen_time [] (Demo.picture 3)).
  - unfold FrameQueue.consistent. vm_compute.
    repeat split; try discriminate; try reflexivity.
  - reflexivity.
  - reflexivity.
  - reflexivity.
Defined.

Lemma ff_player_acquire_video_frame_paused_witness :
  exists a,
    VideoRefresh.ff_player_acquire_video_frame 2 Playback.halted None
      Sample.later Sample.later Playback.frozen_time = Some a /\
    VideoRefresh.player (VideoRefresh.after a) = Playback.paused_player /\
    VideoRefresh.remaining_after a = None /\
    FrameQueue.unread (VideoRefresh.picture_queue (VideoRefresh.after a))
    = [Demo.picture 3].
Proof.
  apply (ff_player_acquire_video_frame_paused Playback.halted None
           Sample.later Sample.later Playback.frozen_time).
  - unfold FrameQueue.consistent. vm_compute.
    repeat split; try discriminate; try reflexivity.
  - reflexivity.
  - discriminate.
Defined.

(** ** Queueing a picture *)

Section QueuePicture.
Import PacketQueue FrameQueue PictureWriter.

Lemma store_twice (queue : ff_frame_queue_t) (i : Z) (f g : ff_frame_t) :
  store (store queue i f) i g = store queue i g.
Proof.
  unfold store; cbn [frames rindex windex size max_size keep_last rindex_shown].
  f_equal. destruct i as [|p|p]; auto;
    generalize (Z.to_nat (Z.pos p)) || generalize (Z.to_nat 0);
    intros n; revert n; induction (frames queue) as [|h t IH]; intros [|n];
    cbn [set_nth]; auto; now rewrite IH.
Qed.

(** A write into the slot at the write index of a queue that has room
    changes no unread frame. *)
Lemma store_at_windex (queue : ff_frame_queue_t) (f : ff_frame_t) :
  consistent queue -> size queue < max_size queue ->
  consistent (store queue (windex queue) f) /\
  unread (store queue (windex queue) f) = unread queue.
Proof.
  intros (L & M & R & W & Sh & Sz & Ew & K) Room.
  rewrite FF_FRAME_QUEUE_SIZE_value in *.
  split.
  - unfold consistent, store; cbn [frames rindex windex size max_size keep_last rindex_shown].
    rewrite FF_FRAME_QUEUE_SIZE_value.
    repeat split; try lia; auto.
    destruct (windex queue); try lia; now rewrite set_nth_length.
  - unfold unread; cbn [rindex windex size max_size keep_last rindex_shown store].
    apply map_ext_in. intros k Hk. apply in_seq in Hk.
    rewrite !Z.rem_mod_nonneg by lia.
    change (frame_at (store queue (windex queue) f)
              ((rindex queue + rindex_shown queue + Z.of_nat k) mod max_size queue)
            = frame_at queue
                ((rindex queue + rindex_shown queue + Z.of_nat k) mod max_size queue)).
    apply frame_at_store_other. rewrite Ew. apply not_eq_sym, slots_apart. lia.
Qed.

Lemma wakeups_keep_consistent (wakeups : list (shared -> shared)) :
  (forall others s, In others wakeups -> consistent (fst s) -> consistent (fst (others s))) ->
  forall n s, consistent (fst s) ->
    consistent (fst (fold_left (fun st others => others st) (firstn n wakeups) s)).
Proof.
  induction wakeups as [|others rest IH]; intros Hw [|n] s C; cbn [firstn fold_left]; auto.
  apply IH.
  - intros o s' Ho. apply Hw. now right.
  - apply Hw; [now left|exact C].
Qed.

(** X23. [queue_picture] either appends exactly one picture or changes
    no unread picture: when it returns 0 there was room, the packet queue
    was not aborted, and the unread frames are those before it followed by
    the picture with the timestamp, duration, position, serial, size,
    format and aspect ratio given, not yet uploaded; when it returns a
    negative value (the packet queue is aborted, or the callback refused
    the picture and its value is returned) the unread frames and the
    indices are as before. The queue stays consistent. Other threads act
    only while the call waits, and keep the queue consistent. *)
Theorem queue_picture_appends (queue : ff_frame_queue_t) (packet_queue : ff_packet_queue_t)
    (wakeups : list (shared -> shared))
    (meta_cb : option (Z -> Z -> Decoder.AVRational -> Z))
    (src_frame : picture_t) (pts duration : double) (pos serial : Z)
    (ret : Z) (result : shared) :
  consistent queue ->
  (forall others s, In others wakeups -> consistent (fst s) -> consistent (fst (others s))) ->
  queue_picture queue packet_queue wakeups (fun s => s) meta_cb src_frame pts duration
    pos serial = Some (ret, result) ->
  exists waited s,
    s = fold_left (fun st others => others st) (firstn waited wakeups) (queue, packet_queue) /\
    snd result = snd s /\
    consistent (fst result) /\
    ((ret = 0 /\
      ff_packet_queue_get_aborted (snd s) = false /\
      size (fst s) < max_size (fst s) /\
      unread (fst result)
      = unread (fst s)
          ++ [with_base (fill (frame_at (fst s) (windex (fst s))) src_frame pts duration
                           pos serial)
                (av_frame_move_ref (base (frame_at (fst s) (windex (fst s))))
                   (data src_frame))])
     \/ (ret < 0 /\
         unread (fst result) = unread (fst s) /\
         rindex (fst result) = rindex (fst s) /\
         windex (fst result) = windex (fst s) /\
         size (fst result) = size (fst s) /\
         (ff_packet_queue_get_aborted (snd s) = true
          \/ exists cb, meta_cb = Some cb /\
               ret = cb (width src_frame) (height src_frame)
                        (sample_aspect_ratio src_frame)))).
Proof.
  intros C Hw Run. unfold queue_picture in Run.
  destruct (ff_frame_queue_peek_writable queue packet_queue wakeups (fun s => s))
    as [o|] eqn:Po; [|discriminate].
  destruct (peek_writable_exit _ _ _ _ _ Po) as (s & Es & Free & St & Sl).
  assert (Cs : consistent (fst s)).
  { rewrite Es. apply wakeups_keep_consistent; [exact Hw|exact C]. }
  exists (peek_waits o), s. split; [exact Es|].
  rewrite St in Run. rewrite Sl in Run.
  destruct (ff_packet_queue_get_aborted (snd s)) eqn:Ab.
  { injection Run as <- <-. cbv beta. split; [reflexivity|]. split; [exact Cs|].
    right. repeat split; auto; lia. }
  destruct Free as [Room|Abt]; [|congruence].
  cbv zeta in Run.
  set (filled := fill (frame_at (fst s) (windex (fst s))) src_frame pts duration pos serial)
    in *.
  destruct (store_at_windex (fst s) filled Cs Room) as [C1 U1].
  assert (Cases :
    (forall r, Some (r, (store (fst s) (windex (fst s)) filled, snd s)) = Some (ret, result) ->
               r < 0 ->
               ret < 0 /\ result = (store (fst s) (windex (fst s)) filled, snd s))
    /\ (Some (0, (ff_frame_queue_push
                    (store (store (fst s) (windex (fst s)) filled) (windex (fst s))
                       (with_base filled (av_frame_move_ref (base filled) (data src_frame)))),
                  snd s)) = Some (ret, result) ->
        ret = 0 /\
        result = (write_frame (fst s)
                    (with_base filled (av_frame_move_ref (base filled) (data src_frame))),
                  snd s))).
  { split.
    - intros r E Neg. injection E as <- <-. auto.
    - intros E. injection E as <- <-. rewrite store_twice. auto. }
  destruct Cases as [Refuse Push].
  destruct (write_frame_tracks (fst s)
              (with_base filled (av_frame_move_ref (base filled) (data src_frame)))
              Cs Room) as [C2 U2].
  assert (Pushed : ret = 0 /\
                   result = (write_frame (fst s)
                               (with_base filled
                                  (av_frame_move_ref (base filled) (data src_frame))),
                             snd s) ->
                   snd result = snd s /\ consistent (fst result) /\
                   (ret = 0 /\ false = false /\ size (fst s) < max_size (fst s) /\
                    unread (fst result)
                    = unread (fst s)
                        ++ [with_base filled
                              (av_frame_move_ref (base filled) (data src_frame))])).
  { intros [-> ->]. cbn [fst snd]. split; [reflexivity|]. split; [exact C2|].
    split; [reflexivity|]. split; [reflexivity|]. split; [exact Room|exact U2]. }
  destruct meta_cb as [cb|].
  - cbn [FrameQueue.width FrameQueue.height FrameQueue.sample_aspect_ratio filled fill] in Run.
    destruct (Z.ltb_spec (cb (width src_frame) (height src_frame)
                             (sample_aspect_ratio src_frame)) 0) as [Neg|Ok].
    + destruct (Refuse _ Run Neg) as [Rn ->]. cbn [fst snd].
      split; [reflexivity|]. split; [exact C1|]. right.
      split; [exact Rn|]. split; [exact U1|]. repeat split.
      right. exists cb. split; [reflexivity|].
      injection Run as <-. reflexivity.
    + destruct (Pushed (Push Run)) as (P1 & P2 & P3). split; [exact P1|].
      split; [exact P2|]. left. exact P3.
  - destruct (Pushed (Push Run)) as (P1 & P2 & P3). split; [exact P1|].
    split; [exact P2|]. left. exact P3.
Qed.

End QueuePicture.

Lemma queue_picture_appends_witness :
  FrameQueue.consistent (fst Decoded.queued)
  /\ length (FrameQueue.unread (fst Decoded.queued)) = 1%nat.
Proof.
  destruct (queue_picture_appends Demo.fresh_pictures Sample.started_queue [] None
              Decoded.decoded (of_int 1) (dec 4 100) 4096 1 0 Decoded.queued)
    as (waited & s & _ & _ & C & _).
  - unfold FrameQueue.consistent. vm_compute.
    repeat split; try discriminate; try reflexivity.
  - intros others s [].
  - reflexivity.
  - split; [exact C|reflexivity].
Defined.

(** ** Cycling through the streams *)

Section CycleChannelFacts.
Import Decoder CycleChannel.

Lemma to_unsigned_id (z : Z) : 0 <= z <= INT_MAX -> to_unsigned z = z.
Proof. unfold to_unsigned, INT_MAX. intros H. apply Z.mod_small. lia. Qed.

(** The search in the program ends at a position of the program or at its
    length. *)
Lemma find_in_program_range (indexes : list Z) (stream_index : Z) :
  forall start, 0 <= start -> start + Z.of_nat (length indexes) <= INT_MAX ->
    start <= find_in_program indexes stream_index start
          <= start + Z.of_nat (length indexes).
Proof.
  induction indexes as [|index rest IH]; intros start H0 Hn; cbn [find_in_program length] in *.
  - lia.
  - destruct (index =? to_unsigned stream_index); [lia|].
    rewrite wrap_int_id by (unfold in_int, INT_MIN, INT_MAX in *; lia).
    specialize (IH (start + 1) ltac:(lia) ltac:(lia)). lia.
Qed.

Lemma cycle_loop_returns (fuel : nat) :
  forall stream_index start_index stream_count looked,
    -1 <= start_index < stream_count -> stream_count <= INT_MAX ->
    -1 <= stream_index < stream_count ->
    to_look stream_index start_index stream_count < Z.of_nat fuel ->
    exists more,
      cycle_loop fuel stream_index start_index stream_count looked
      = Returned (looked ++ more) /\
      Z.of_nat (length more) = to_look stream_index start_index stream_count /\
      Forall (fun i => 0 <= i < stream_count /\ i <> start_index) more.
Proof.
  induction fuel as [|fuel IH]; intros j start count looked Hs Hc Hj Hm;
    unfold to_look in *.
  - destruct (Z.ltb_spec j start), (Z.eqb_spec start (-1)); cbn in Hm; lia.
  - cbn [cycle_loop].
    rewrite wrap_int_id by (unfold in_int, INT_MIN, INT_MAX in *; lia).
    rewrite to_unsigned_id by lia.
    destruct (Z.geb_spec (j + 1) count) as [Past|In]; cbn [andb].
    + destruct (Z.eqb_spec start (-1)) as [None|Some].
      * exists []. rewrite app_nil_r. subst start.
        destruct (Z.ltb_spec j (-1)); [lia|]. cbn. repeat split; auto; lia.
      * destruct (Z.eqb_spec 0 start) as [Z0|N0].
        -- exists []. rewrite app_nil_r. subst start.
           destruct (Z.ltb_spec j 0); [lia|]. cbn. repeat split; auto; lia.
        -- destruct (IH 0 start count (looked ++ [0])) as (more & Run & Len & All);
             try lia.
           { unfold to_look. destruct (Z.ltb_spec 0 start); [|lia].
             destruct (Z.ltb_spec j start); lia. }
           exists (0 :: more). rewrite Run, <- app_assoc. cbn [app].
           split; [reflexivity|]. unfold to_look in Len.
           destruct (Z.ltb_spec 0 start); [|lia].
           destruct (Z.ltb_spec j start); [lia|].
           split; [cbn [length]; lia|]. constructor; [lia|exact All].
    + destruct (Z.eqb_spec (j + 1) start) as [Hit|Miss].
      * exists []. rewrite app_nil_r.
        destruct (Z.ltb_spec j start); [|lia]. cbn. repeat split; auto; lia.
      * destruct (IH (j + 1) start count (looked ++ [j + 1])) as (more & Run & Len & All);
          try lia.
        { unfold to_look. destruct (Z.ltb_spec (j + 1) start), (Z.ltb_spec j start),
            (Z.eqb_spec start (-1)); lia. }
        exists ((j + 1) :: more). rewrite Run, <- app_assoc. cbn [app].
        split; [reflexivity|]. unfold to_look in Len.
        split; [|constructor; [lia|exact All]].
        cbn [length].
        destruct (Z.ltb_spec (j + 1) start), (Z.ltb_spec j start),
          (Z.eqb_spec start (-1)); lia.
Qed.

Lemma cycle_loop_never_switches (fuel : nat) :
  forall stream_index start_index stream_count looked old_index new_index,
    cycle_loop fuel stream_index start_index stream_count looked
    <> Switched old_index new_index.
Proof.
  induction fuel as [|fuel IH]; intros j start count looked a b; cbn [cycle_loop].
  - discriminate.
  - destruct (_ && _); [discriminate|]. destruct (_ =? _); [discriminate|]. apply IH.
Qed.

Lemma cycle_loop_more_fuel (fuel extra : nat) :
  forall stream_index start_index stream_count looked result,
    cycle_loop fuel stream_index start_index stream_count looked = Returned result ->
    cycle_loop (fuel + extra) stream_index start_index stream_count looked = Returned result.
Proof.
  induction fuel as [|fuel IH]; intros j start count looked result H; [discriminate|].
  cbn [cycle_loop Nat.add] in *.
  destruct (_ && _); [exact H|]. destruct (_ =? _); [exact H|]. now apply IH.
Qed.

(** From the start position the loop goes once round and returns. *)
Lemma cycle_loop_round (start_index stream_count : Z) :
  -1 <= start_index < stream_count \/ (start_index = -1 /\ stream_count = 0) ->
  stream_count <= INT_MAX ->
  exists looked,
    (forall fuel, stream_count < Z.of_nat fuel ->
       cycle_loop fuel start_index start_index stream_count [] = Returned looked) /\
    Z.of_nat (length looked) <= stream_count /\
    Forall (fun i => 0 <= i < stream_count) looked.
Proof.
  intros Hs Hc. destruct Hs as [Hs|[-> ->]].
  - destruct (cycle_loop_returns (S (Z.to_nat stream_count)) start_index start_index
                stream_count [] Hs Hc Hs) as (more & Run & Len & All).
    { unfold to_look.
      destruct (Z.ltb_spec start_index start_index), (Z.eqb_spec start_index (-1)); lia. }
    exists more. split; [|split].
    + intros fuel Hf.
      replace fuel with (S (Z.to_nat stream_count) + (fuel - S (Z.to_nat stream_count)))%nat
        by lia.
      apply cycle_loop_more_fuel. exact Run.
    + unfold to_look in Len.
      destruct (Z.ltb_spec start_index start_index), (Z.eqb_spec start_index (-1)); lia.
    + eapply Forall_impl; [|exact All]. cbn. intros i Hi. lia.
  - exists []. split; [|split; [cbn; lia|constructor]].
    intros [|fuel] Hf; [lia|]. reflexivity.
Qed.

(** X24. [ff_player_cycle_channel] never reaches the code that closes the
    old stream and opens the next one: its loop has no exit but [return].
    With the last stream index at -1 or at a stream, and counts within
    [int], the call returns after at most one pass more than there are
    streams (or streams in the program of the video stream), having looked
    only at positions inside that range. *)
Theorem ff_player_cycle_channel_returns (media_type : AVMediaType)
    (last_video_stream_index last_audio_stream_index : Z)
    (video_stream_index audio_stream_index : Z)
    (nb_streams : Z) (program : option (list Z)) :
  -1 <= last_video_stream_index < nb_streams ->
  -1 <= last_audio_stream_index < nb_streams ->
  nb_streams <= INT_MAX ->
  (forall indexes, program = Some indexes -> Z.of_nat (length indexes) <= INT_MAX) ->
  (forall fuel old_index stream_index,
      ff_player_cycle_channel fuel media_type last_video_stream_index
        last_audio_stream_index video_stream_index audio_stream_index nb_streams program
      <> Switched old_index stream_index) /\
  exists stream_count looked,
    (stream_count = nb_streams
     \/ exists indexes, program = Some indexes /\ stream_count = Z.of_nat (length indexes)) /\
    (forall fuel, stream_count < Z.of_nat fuel ->
       ff_player_cycle_channel fuel media_type last_video_stream_index
         last_audio_stream_index video_stream_index audio_stream_index nb_streams program
       = Returned looked) /\
    Z.of_nat (length looked) <= stream_count /\
    Forall (fun i => 0 <= i < stream_count) looked.
Proof.
  intros Hv Ha Hn Hp. split.
  - intros fuel a b. unfold ff_player_cycle_channel.
    destruct media_type; try discriminate;
      repeat match goal with
             | |- context [match ?x with _ => _ end] => destruct x
             end; apply cycle_loop_never_switches.
  - unfold ff_player_cycle_channel. destruct media_type.
    + destruct (cycle_loop_round last_video_stream_index nb_streams (or_introl Hv) Hn)
        as (looked & Run & Len & All).
      exists nb_streams, looked.
      split; [left; reflexivity|]. split; [exact Run|]. split; [exact Len|exact All].
    + destruct (negb (video_stream_index =? -1)); [destruct program as [indexes|]|].
      * specialize (Hp indexes eq_refl).
        pose proof (find_in_program_range indexes last_audio_stream_index 0
                      ltac:(lia) ltac:(lia)) as Fr.
        set (found := find_in_program indexes last_audio_stream_index 0) in *.
        rewrite to_unsigned_id by lia.
        destruct (Z.eqb_spec found (Z.of_nat (length indexes))) as [End|Mid].
        -- assert (Rg : -1 <= -1 < Z.of_nat (length indexes)
                        \/ (-1 = -1 /\ Z.of_nat (length indexes) = 0)) by lia.
           destruct (cycle_loop_round (-1) (Z.of_nat (length indexes)) Rg Hp)
             as (looked & Run & Len & All).
           exists (Z.of_nat (length indexes)), looked.
           split; [right; eauto|]. split; [exact Run|]. split; [exact Len|exact All].
        -- assert (Rg : -1 <= found < Z.of_nat (length indexes)
                        \/ (found = -1 /\ Z.of_nat (length indexes) = 0)) by lia.
           destruct (cycle_loop_round found (Z.of_nat (length indexes)) Rg Hp)
             as (looked & Run & Len & All).
           exists (Z.of_nat (length indexes)), looked.
           split; [right; eauto|]. split; [exact Run|]. split; [exact Len|exact All].
      * destruct (cycle_loop_round last_audio_stream_index nb_streams (or_introl Ha) Hn)
          as (looked & Run & Len & All).
        exists nb_streams, looked.
        split; [left; reflexivity|]. split; [exact Run|]. split; [exact Len|exact All].
      * destruct (cycle_loop_round last_audio_stream_index nb_streams (or_introl Ha) Hn)
          as (looked & Run & Len & All).
        exists nb_streams, looked.
        split; [left; reflexivity|]. split; [exact Run|]. split; [exact Len|exact All].
    + exists nb_streams, [].
      split; [left; reflexivity|]. split; [reflexivity|]. split; [cbn [length]; lia|constructor].
Qed.

End CycleChannelFacts.

Lemma ff_player_cycle_channel_returns_witness :
  exists looked,
    CycleChannel.ff_player_cycle_channel 4 Decoder.AVMEDIA_TYPE_AUDIO 0 1 0 1 3
      (Some [0; 1; 2]) = CycleChannel.Returned looked
    /\ Forall (fun i => 0 <= i < 3) looked.
Proof.
  destruct (ff_player_cycle_channel_returns Decoder.AVMEDIA_TYPE_AUDIO 0 1 0 1 3
              (Some [0; 1; 2])) as (_ & count & looked & Where & Run & _ & All).
  - lia.
  - lia.
  - vm_compute. discriminate.
  - intros indexes E. injection E as <-. vm_compute. discriminate.
  - assert (E : count = 3).
    { destruct Where as [E|(indexes & Ei & E)]; [exact E|].
      injection Ei as <-. exact E. }
    subst count. exists looked. split; [apply Run; lia|exact All].
Defined.
